(** * licencia_scraper: a shallow embedding of the availability monitor

    The development follows [src/licencia_scraper.py].  Pure helpers
    ([_validate_rut], [_format_rut], the regular expressions of the error
    scan) are Rocq functions on [string]; the methods that talk to the
    browser are written in a small state-and-exception monad over an
    abstract browser, so that every statement holds for every behaviour of
    the page.

    Conventions.
    - A Python [str] is a Rocq [string]; the two agree character for
      character on ASCII text.  [upper], [lower], [isspace] and the [\d]
      class are the ASCII parts of Python's tables; other characters are
      left unchanged by the case conversions.  A text that is not ASCII is
      carried in its UTF-8 bytes, as the literals of this file are: the
      statements on page content speak of the letters a to z in either
      case and of every other character as it is written.  The identifier
      functions, which the user feeds, are given a second time on code
      points, with the tables of [str.upper] and of the decimal digits as
      parameters (module [Text]).
    - [print_colored] and [logger] calls only narrate; they are left out.
    - A fault is a Python [Exception] raised by a collaborator call.  The
      asynchronous [KeyboardInterrupt] is not the result of a call and is
      outside the embedding; the dictionary its handler builds in the click
      loop is [user_interrupted_result]. *)

From Stdlib Require Import String Ascii List ZArith Bool Lia DecimalString.
Import ListNotations.
Open Scope string_scope.
Open Scope Z_scope.

(** ** Python string primitives *)

Definition code (c : ascii) : Z := Z.of_nat (nat_of_ascii c).

Definition is_digit (c : ascii) : bool := (48 <=? code c) && (code c <=? 57).

(** [str.isspace] on ASCII: TAB..CR, FS..US and the space. *)
Definition is_space (c : ascii) : bool :=
  ((9 <=? code c) && (code c <=? 13)) || ((28 <=? code c) && (code c <=? 32)).

Definition upper_ascii (c : ascii) : ascii :=
  if (97 <=? code c) && (code c <=? 122)
  then ascii_of_nat (nat_of_ascii c - 32) else c.

Definition lower_ascii (c : ascii) : ascii :=
  if (65 <=? code c) && (code c <=? 90)
  then ascii_of_nat (nat_of_ascii c + 32) else c.

Fixpoint map_str (f : ascii -> ascii) (s : string) : string :=
  match s with
  | EmptyString => EmptyString
  | String c s' => String (f c) (map_str f s')
  end.

Definition upper : string -> string := map_str upper_ascii.
Definition lower : string -> string := map_str lower_ascii.

(** [s.replace(old, '')] for a one-character [old]. *)
Fixpoint remove_char (old : ascii) (s : string) : string :=
  match s with
  | EmptyString => EmptyString
  | String c s' =>
      if Ascii.eqb c old then remove_char old s' else String c (remove_char old s')
  end.

(** [needle in hay]. *)
Fixpoint contains (needle hay : string) : bool :=
  if String.prefix needle hay then true
  else match hay with
       | EmptyString => false
       | String _ hay' => contains needle hay'
       end.

(** [s.split(sep)] for a one-character [sep]. *)
Fixpoint split_char (sep : ascii) (s : string) : list string :=
  match s with
  | EmptyString => [EmptyString]
  | String c s' =>
      if Ascii.eqb c sep then EmptyString :: split_char sep s'
      else match split_char sep s' with
           | w :: ws => String c w :: ws
           | [] => [String c EmptyString]
           end
  end.

Fixpoint lstrip (s : string) : string :=
  match s with
  | String c s' => if is_space c then lstrip s' else s
  | EmptyString => EmptyString
  end.

Fixpoint rstrip (s : string) : string :=
  match s with
  | EmptyString => EmptyString
  | String c s' =>
      match rstrip s' with
      | EmptyString => if is_space c then EmptyString else String c EmptyString
      | t => String c t
      end
  end.

Definition strip (s : string) : string := rstrip (lstrip s).

(** [sep.join(l)]. *)
Definition join (sep : string) (l : list string) : string := String.concat sep l.

(** [str(n)] and [int(c)] for a decimal digit [c]. *)
Definition str_of_Z (n : Z) : string := NilZero.string_of_int (Z.to_int n).
Definition int_of_digit (c : ascii) : Z := code c - 48.

(** [len(s)], as a Python integer. *)
Definition len (s : string) : Z := Z.of_nat (String.length s).

(** The one-character string of the line feed, [chr(10)]. *)
Definition LF : string := String (ascii_of_nat 10) EmptyString.

(** ** Regular expressions, as [re] runs them

    The patterns of the program are sequences of single-character tests
    under [x], [x?], [x*], [x*?] and of look-aheads; [match_here] tries the
    alternatives in the order of Python's backtracking matcher and returns
    the length of the first match that starts here. *)

Inductive item : Type :=
| One (p : ascii -> bool)          (* a character of the class p *)
| Opt (p : ascii -> bool)          (* p?   greedy *)
| Star (p : ascii -> bool)         (* p*   greedy *)
| StarLazy (p : ascii -> bool)     (* p*?  lazy *)
| Look (q : string -> bool).       (* zero-width test of what follows *)

Definition regex : Type := list item.

Fixpoint match_here (r : regex) : string -> option nat :=
  match r with
  | [] => fun _ => Some 0%nat
  | One p :: r' => fun s =>
      match s with
      | String c s' => if p c then option_map S (match_here r' s') else None
      | EmptyString => None
      end
  | Opt p :: r' => fun s =>
      match s with
      | String c s' =>
          if p c then
            match match_here r' s' with
            | Some n => Some (S n)
            | None => match_here r' s
            end
          else match_here r' s
      | EmptyString => match_here r' s
      end
  | Star p :: r' =>
      fix greedy (s : string) : option nat :=
        match s with
        | String c s' =>
            if p c then
              match greedy s' with
              | Some n => Some (S n)
              | None => match_here r' s
              end
            else match_here r' s
        | EmptyString => match_here r' s
        end
  | StarLazy p :: r' =>
      fix lazy (s : string) : option nat :=
        match match_here r' s with
        | Some n => Some n
        | None =>
            match s with
            | String c s' => if p c then option_map S (lazy s') else None
            | EmptyString => None
            end
        end
  | Look q :: r' => fun s => if q s then match_here r' s else None
  end.

(** Character classes and the two zero-width tests used by the program. *)
Definition lit (c : ascii) : ascii -> bool := fun x => Ascii.eqb x c.
Definition ilit (c : ascii) : ascii -> bool :=
  fun x => Ascii.eqb (lower_ascii x) (lower_ascii c).      (* re.IGNORECASE *)
Definition any_char : ascii -> bool := fun _ => true.       (* . with re.DOTALL *)
Definition not_char (c : ascii) : ascii -> bool := fun x => negb (Ascii.eqb x c).

(** [$] without re.MULTILINE: at the end, or before a final line feed. *)
Definition at_dollar (s : string) : bool :=
  String.eqb s EmptyString || String.eqb s LF.

(** [(?=<|$)]. *)
Definition lt_or_dollar (s : string) : bool :=
  String.prefix "<" s || at_dollar s.

Fixpoint chars (f : ascii -> ascii -> bool) (s : string) : regex :=
  match s with
  | EmptyString => []
  | String c s' => One (f c) :: chars f s'
  end.

(** A literal text, compared exactly or without case. *)
Definition text (s : string) : regex := chars lit s.
Definition itext (s : string) : regex := chars ilit s.

(** [re.match(r, s)]: a match at the start of [s]. *)
Definition re_match (r : regex) (s : string) : bool :=
  match match_here r s with Some _ => true | None => false end.

(** [re.findall(r, s)] for a pattern without groups that cannot match the
    empty string: the matched texts, left to right, without overlap.
    [skip] counts the characters of the current match still to pass. *)
Fixpoint findall_from (r : regex) (skip : nat) (s : string) : list string :=
  match s with
  | EmptyString => []
  | String _ s' =>
      match skip with
      | S k => findall_from r k s'
      | O =>
          match match_here r s with
          | Some n => substring 0 n s :: findall_from r (Nat.pred n) s'
          | None => findall_from r 0 s'
          end
      end
  end.

Definition findall (r : regex) (s : string) : list string := findall_from r 0 s.

(** [re.sub(r, '', s)] under the same proviso. *)
Fixpoint sub_empty_from (r : regex) (skip : nat) (s : string) : string :=
  match s with
  | EmptyString => EmptyString
  | String c s' =>
      match skip with
      | S k => sub_empty_from r k s'
      | O =>
          match match_here r s with
          | Some n => sub_empty_from r (Nat.pred n) s'
          | None => String c (sub_empty_from r 0 s')
          end
      end
  end.

Definition sub_empty (r : regex) (s : string) : string := sub_empty_from r 0 s.

(** ** Identifier validator: [_validate_rut] and [_format_rut] *)

(** [r'^\d{7,8}-[\dK]$'] *)
Definition rut_pattern : regex :=
  [One is_digit; One is_digit; One is_digit; One is_digit; One is_digit;
   One is_digit; One is_digit; Opt is_digit;
   One (lit "-");
   One (fun c => is_digit c || Ascii.eqb c "K");
   Look at_dollar].

(** The [for digit in reversed(numero)] loop: one step on the pair
    [(suma, multiplicador)]. *)
Definition checksum_step (st : Z * Z) (digit : ascii) : Z * Z :=
  let '(suma, multiplicador) := st in
  let suma := suma + int_of_digit digit * multiplicador in
  let multiplicador := multiplicador + 1 in
  (suma, if multiplicador >? 7 then 2 else multiplicador).

Definition dv_calculado (numero : string) : string :=
  let '(suma, _) :=
    fold_left checksum_step (rev (list_ascii_of_string numero)) (0, 2) in
  let resto := suma mod 11 in
  let dv := 11 - resto in
  if dv =? 11 then "0"
  else if dv =? 10 then "K"
  else str_of_Z dv.

Definition clean_rut (rut : string) : string :=
  upper (remove_char "." (remove_char " " rut)).

Definition validate_rut (rut : string) : bool :=
  let rut := clean_rut rut in
  if negb (re_match rut_pattern rut) then false
  else
    match split_char "-" rut with
    | [numero; dv] => String.eqb dv (dv_calculado numero)
    | _ => false    (* the unpacking would raise; the format excludes it *)
    end.

Definition format_rut (rut : string) : string :=
  let rut := clean_rut rut in
  if negb (contains "-" rut) && (len rut >=? 8)
  then substring 0 (String.length rut - 1) rut ++ "-"
       ++ substring (String.length rut - 1) 1 rut
  else rut.

(** ** Effects: state and faults

    A computation runs on a state [S] (the browser, or the browser with the
    local variables a [try] block mutates) and either returns or raises a
    fault carrying [str(e)].  The state survives a fault, as the page and
    the locals of a Python frame do. *)

Inductive res (A : Type) : Type :=
| Ret (a : A)
| Raise (e : string).
Arguments Ret {A} a.
Arguments Raise {A} e.

Definition M (S A : Type) : Type := S -> res A * S.

Definition ret {S A} (a : A) : M S A := fun s => (Ret a, s).

Definition bind {S A B} (m : M S A) (k : A -> M S B) : M S B :=
  fun s => match m s with
           | (Ret a, s') => k a s'
           | (Raise e, s') => (Raise e, s')
           end.

Notation "x <- c1 ;; c2" := (bind c1 (fun x => c2))
  (at level 61, c1 at next level, right associativity).
Notation "c1 ;; c2" := (bind c1 (fun _ => c2))
  (at level 61, right associativity).

(** [try: m  except Exception as e: h e] (a bare [except:] is the same
    here, faults being the only exceptions of the embedding). *)
Definition try_except {S A} (m : M S A) (h : string -> M S A) : M S A :=
  fun s => match m s with
           | (Ret a, s') => (Ret a, s')
           | (Raise e, s') => h e s'
           end.

Definition gets {S A} (f : S -> A) : M S A := fun s => (Ret (f s), s).

(** [if c: m], for a statement. *)
Definition when {S} (c : bool) (m : M S unit) : M S unit :=
  if c then m else ret tt.

(** [for x in l: body x], run to the end (or to a fault). *)
Fixpoint for_ {S X} (l : list X) (body : X -> M S unit) : M S unit :=
  match l with
  | [] => ret tt
  | x :: l' => body x ;; for_ l' body
  end.

(** [for x in l: ...] left by [return] or [break]: the body answers
    [Some a] to leave with [a] and [None] to go on. *)
Fixpoint for_first {S X A} (l : list X) (body : X -> M S (option A))
  : M S (option A) :=
  match l with
  | [] => ret None
  | x :: l' =>
      r <- body x ;;
      match r with
      | Some a => ret (Some a)
      | None => for_first l' body
      end
  end.

(** Local variables that a [try] block mutates live in the state next to
    the browser, so that what was assigned before a fault is still there in
    the handler. *)
Definition lift {L W A} (m : M W A) : M (L * W) A :=
  fun lw => match m (snd lw) with (r, w') => (r, (fst lw, w')) end.

Definition get_local {L W} : M (L * W) L := fun lw => (Ret (fst lw), lw).

Definition set_local {L W} (l : L) : M (L * W) unit :=
  fun lw => (Ret tt, (l, snd lw)).

Definition with_local {L W A} (l0 : L) (m : M (L * W) A) : M W A :=
  fun w => match m (l0, w) with (r, lw) => (r, snd lw) end.

(** ** Outcomes *)

(** What the page script of [_handle_estatus_page] returns. *)
Record specialties_info : Type := {
  hasTable : bool;
  hasModifyColumn : bool;
  hasButtons : bool;
  specialties : list (string * list string);   (* id, cells *)
  errors : list string
}.

(** The result dictionaries.  [available] is [None], [True] or [False];
    [all_errors] and [estatus_info] are absent from most of them. *)
Record Outcome : Type := {
  available : option bool;
  status : string;
  message : string;
  url : string;
  timestamp : string;
  all_errors : option (list string);
  estatus_info : option specialties_info
}.

Definition outcome (a : option bool) (st msg u ts : string) : Outcome :=
  {| available := a; status := st; message := msg; url := u; timestamp := ts;
     all_errors := None; estatus_info := None |}.

(** ** The browser

    The Playwright calls the program makes, on a page state [W] with
    element handles [E].  Each call may change the page and may raise; the
    clock is read from the same state. *)

Class Browser (W E : Type) : Type := {
  page_url : W -> string;                              (* page.url *)
  now_isoformat : W -> string;                         (* datetime.now().isoformat() *)
  now_stamp : W -> string;                             (* ...strftime("%Y%m%d_%H%M%S") *)
  page_content : M W string;                           (* page.content() *)
  page_screenshot : string -> M W unit;                (* page.screenshot(path=..) *)
  query_selector : string -> M W (option E);           (* page.query_selector(sel) *)
  query_selector_all : string -> M W (list E);         (* page.query_selector_all(sel) *)
  wait_for_selector : string -> Z -> M W (option E);   (* page.wait_for_selector(sel, timeout) *)
  wait_for_timeout : Z -> M W unit;                    (* page.wait_for_timeout(ms) *)
  wait_for_load_state : string -> Z -> M W unit;       (* page.wait_for_load_state(st, timeout) *)
  keyboard_press : string -> M W unit;                 (* page.keyboard.press(key) *)
  page_click : string -> Z -> Z -> M W unit;           (* page.click(sel, position) *)
  element_query_selector : E -> string -> M W (option E);
  element_click : E -> M W unit;
  element_text_content : E -> M W (option string);
  eval_is_visible : E -> M W bool;        (* shown, and laid out with a size *)
  eval_is_still_visible : E -> M W bool;  (* shown *)
  eval_force_hide : E -> M W unit;        (* hide it and remove the backdrops *)
  eval_is_loading : M W bool;             (* body text has 'buscando especialidades' *)
  eval_specialties : M W specialties_info;
  eval_table_info : M W unit              (* its value is only narrated *)
}.

(** The configuration read by [__init__]: of its fields the classifier
    uses the pattern alone. *)
Record Config : Type := {
  target_url : string;
  error_url_pattern : string
}.

Definition default_config : Config := {|
  target_url := "https://tramites.munistgo.cl/reservahoralicencia/";
  error_url_pattern := "paso-1.aspx?Error=No%20existen%20horas%20disponibles"
|}.

Definition in_list (x : string) (l : list string) : bool :=
  existsb (String.eqb x) l.

(** ** The error scan: patterns of [_check_error_messages] *)

Definition lazy_any : item := StarLazy any_char.            (* .*? *)

Definition error_patterns : list regex :=
  [ (* <b[^>]*>.*?Atención!.*?Error:.*?</b> *)
    (itext "<b" ++ [Star (not_char ">")] ++ itext ">" ++ [lazy_any]
       ++ itext "Atención!" ++ [lazy_any] ++ itext "Error:" ++ [lazy_any]
       ++ itext "</b>")%list;
    (* Error:.*?(?=<|$) *)
    (itext "Error:" ++ [lazy_any; Look lt_or_dollar])%list;
    (* Atención!.*?Error:.*?(?=<|$) *)
    (itext "Atención!" ++ [lazy_any] ++ itext "Error:"
       ++ [lazy_any; Look lt_or_dollar])%list;
    itext "ud. ha excedido el tiempo máximo de espera";
    itext "tiempo máximo de espera";
    itext "no existen horas disponibles";
    itext "sin disponibilidad";
    itext "agendas llenas";
    (* \*\*Atención!\*\*\s*Error:.*?(?=<|$) *)
    (itext "**Atención!**" ++ [Star is_space] ++ itext "Error:"
       ++ [lazy_any; Look lt_or_dollar])%list;
    (* Atención!\s*Error:.*?Ud\. ha excedido el tiempo máximo de espera *)
    (itext "Atención!" ++ [Star is_space] ++ itext "Error:" ++ [lazy_any]
       ++ itext "Ud. ha excedido el tiempo máximo de espera")%list;
    itext "Buscando especialidades...." ].

(** [<[^>]+>] *)
Definition tag_pattern : regex :=
  [One (lit "<"); One (not_char ">"); Star (not_char ">"); One (lit ">")].

Definition is_empty (s : string) : bool := String.eqb s EmptyString.

(** The body of [for match in matches]. *)
Definition add_match (found_errors : list string) (m : string) : list string :=
  let clean_text := strip (sub_empty tag_pattern m) in
  if negb (is_empty clean_text) && negb (in_list clean_text found_errors)
  then (found_errors ++ [clean_text])%list
  else found_errors.

(** The body of [for pattern in error_patterns]. *)
Definition add_pattern (page_content : string) (found_errors : list string)
    (pattern : regex) : list string :=
  fold_left add_match (findall pattern page_content) found_errors.

Definition scan_patterns (page_content : string) (found_errors : list string)
  : list string :=
  fold_left (add_pattern page_content) error_patterns found_errors.

(** "Determinar el tipo de error": the dictionary for a non-empty
    [found_errors]. *)
Definition error_result (found_errors : list string) (u ts : string) : Outcome :=
  let error_text_lower := lower (join " " found_errors) in
  let first := hd EmptyString found_errors in
  if contains "tiempo máximo de espera" error_text_lower
     || contains "excedido" error_text_lower
  then {| available := Some false; status := "timeout_error";
          message := "Error de timeout detectado: " ++ first;
          url := u; timestamp := ts;
          all_errors := Some found_errors; estatus_info := None |}
  else if contains "no existen horas" error_text_lower
          || contains "sin disponibilidad" error_text_lower
  then {| available := Some false; status := "no_availability_error";
          message := "Sin disponibilidad: " ++ first;
          url := u; timestamp := ts;
          all_errors := Some found_errors; estatus_info := None |}
  else {| available := None; status := "unknown_error";
          message := "Error desconocido: " ++ first;
          url := u; timestamp := ts;
          all_errors := Some found_errors; estatus_info := None |}.

(** ** Keyword tables of the classifier *)

Definition no_availability_keywords : list string :=
  [ "no existen horas disponibles"; "sin disponibilidad"; "no hay citas";
    "agendas llenas"; "sin cupos";
    "ud. ha excedido el tiempo máximo de espera"; "tiempo máximo de espera" ].

Definition availability_keywords : list string :=
  [ "seleccione fecha"; "horarios disponibles"; "agendar cita"; "reservar hora" ].

(** Selectors quote their attribute values with the double quote, [q v]. *)
Definition q (v : string) : string :=
  String (ascii_of_nat 34) (v ++ String (ascii_of_nat 34) EmptyString).

Definition next_step_selectors : list string :=
  [ "select[name*=" ++ q "fecha" ++ "]"; "input[type=" ++ q "date" ++ "]";
    ".calendar"; "#calendario"; "select[name*=" ++ q "hora" ++ "]" ].

(** ** Selector tables *)

Definition modal_selectors : list string :=
  [ ".modal"; ".popup"; ".dialog"; ".alert";
    "[role=" ++ q "dialog" ++ "]"; "[role=" ++ q "alertdialog" ++ "]";
    ".modal.show"; ".modal.fade.show";
    ".modal-backdrop"; ".overlay";
    ".alert-dialog"; ".swal-modal"; ".sweetalert-modal";
    "div[style*=" ++ q "z-index" ++ "]:not([style*=" ++ q "display: none" ++ "])";
    "div[style*=" ++ q "position: fixed" ++ "]";
    "div[style*=" ++ q "position: absolute" ++ "][style*=" ++ q "top: 0" ++ "]" ].

Definition close_selectors : list string :=
  [ "button[data-dismiss=" ++ q "modal" ++ "]"; ".close"; ".btn-close";
    ".modal-close"; "button.close";
    "[aria-label=" ++ q "Close" ++ "]"; "[aria-label=" ++ q "Cerrar" ++ "]";
    "button:contains(" ++ q "×" ++ ")"; "button:contains(" ++ q "Cerrar" ++ ")";
    "button:contains(" ++ q "OK" ++ ")"; "button:contains(" ++ q "Aceptar" ++ ")";
    ".fa-times"; ".fa-close" ].

Definition error_selectors : list string :=
  [ ".error"; ".alert"; ".warning";
    "[class*=" ++ q "error" ++ "]"; "[class*=" ++ q "alert" ++ "]";
    "div[style*=" ++ q "color:red" ++ "]"; "div[style*=" ++ q "color: red" ++ "]";
    "span[style*=" ++ q "color:red" ++ "]"; "span[style*=" ++ q "color: red" ++ "]" ].

Definition primary_button_selector : string := "#dgGrilla_btIngresar_0".

Definition alternative_selectors : list string :=
  [ "input[id=" ++ q "dgGrilla_btIngresar_0" ++ "]";
    "input[name=" ++ q "dgGrilla$ctl02$btIngresar" ++ "]";
    ".BotonIngresar"; "input.BotonIngresar";
    "th:contains(" ++ q "Modificar" ++ ") ~ td input[type=" ++ q "submit" ++ "]";
    "table input[id*=" ++ q "btIngresar" ++ "]" ].

(** One turn of [while True] in the click loop ends in [continue] or in
    [return]. *)
Inductive turn : Type :=
| Continue
| Return (o : Outcome).

(** ** The methods of [LicenciaScraper] *)

Section Scraper.

Context {W E : Type} {B : Browser W E}.
Variable cfg : Config.

(** [_close_modal] *)
Definition close_modal (modal_element : E) (selector : string) : M W bool :=
  try_except
    ((* Método 1 *)
     clicked <- for_first close_selectors (fun close_selector =>
       try_except
         (close_button <- element_query_selector modal_element close_selector ;;
          match close_button with
          | Some button =>
              element_click button ;;
              wait_for_timeout 500 ;;
              ret (Some true)
          | None => ret None
          end)
         (fun _ => ret None)) ;;
     match clicked with
     | Some r => ret r
     | None =>
         (* Método 2 *)
         keyboard_press "Escape" ;;
         wait_for_timeout 500 ;;
         is_still_visible <- eval_is_still_visible modal_element ;;
         if negb is_still_visible then ret true
         else
           (* Método 3 *)
           page_click "body" 10 10 ;;
           wait_for_timeout 500 ;;
           (* Método 4 *)
           eval_force_hide modal_element ;;
           ret true
     end)
    (fun _ => ret false).

(** [_detect_and_close_modals]; the local is [modal_found].  First the
    body of [for modal in modals]. *)
Definition check_modal (selector : string) (modal : E) : M (bool * W) unit :=
  is_visible <- lift (eval_is_visible modal) ;;
  when is_visible
    (set_local true ;;
     closed <- lift (close_modal modal selector) ;;
     when closed (lift (wait_for_timeout 1000))).

(** The body of [for selector in modal_selectors]: a fault goes on to the
    next selector. *)
Definition check_selector (selector : string) : M (bool * W) unit :=
  try_except
    (modals <- lift (query_selector_all selector) ;;
     for_ modals (check_modal selector))
    (fun _ => ret tt).

Definition detect_and_close_modals : M W bool :=
  try_except
    (with_local false
       (for_ modal_selectors check_selector ;;
        get_local))
    (fun _ => ret false).

(** [_check_error_messages]; the local is [found_errors].  First the body
    of [for element in elements]. *)
Definition collect_text (element : E) : M (list string * W) unit :=
  text <- lift (element_text_content element) ;;
  match text with
  | Some t =>
      when (negb (is_empty t) && negb (is_empty (strip t)))
        (found_errors <- get_local ;;
         set_local (found_errors ++ [strip t])%list)
  | None => ret tt
  end.

(** The body of [for selector in error_selectors]. *)
Definition collect_selector (selector : string) : M (list string * W) unit :=
  try_except
    (elements <- lift (query_selector_all selector) ;;
     for_ elements collect_text)
    (fun _ => ret tt).

Definition check_error_messages : M W (option Outcome) :=
  try_except
    (content <- page_content ;;
     found_errors <- with_local []
       (for_ error_selectors collect_selector ;;
        get_local) ;;
     let found_errors := scan_patterns content found_errors in
     match found_errors with
     | _ :: _ =>
         u <- gets page_url ;;
         ts <- gets now_isoformat ;;
         ret (Some (error_result found_errors u ts))
     | [] => ret None
     end)
    (fun _ => ret None).

(** What [_handle_estatus_page] returns: the "loading" dictionary or the
    value of the page script. *)
Inductive estatus_result : Type :=
| Loading (o : Outcome)
| Info (i : specialties_info).

(** [_handle_estatus_page] *)
Definition handle_estatus_page : M W (option estatus_result) :=
  try_except
    (is_loading <- eval_is_loading ;;
     loading <- (if is_loading
                 then wait_for_timeout 3000 ;;
                      still_loading <- eval_is_loading ;;
                      ret still_loading
                 else ret false) ;;
     if loading
     then u <- gets page_url ;;
          ts <- gets now_isoformat ;;
          ret (Some (Loading (outcome None "loading_specialties"
                                "La página está cargando especialidades" u ts)))
     else info <- eval_specialties ;;
          ret (Some (Info info)))
    (fun _ => ret None).

(** The first keyword of [keywords] that occurs in [content_lower]. *)
Definition first_keyword (keywords : list string) (content_lower : string)
  : option string :=
  find (fun keyword => contains keyword content_lower) keywords.

(** The [for selector in next_step_selectors] loop, shared by both
    classifiers. *)
Definition probe_next_step (current_url : string) : M W (option Outcome) :=
  for_first next_step_selectors (fun selector =>
    element <- query_selector selector ;;
    match element with
    | Some _ =>
        ts <- gets now_isoformat ;;
        ret (Some (outcome (Some true) "possible_availability"
                     ("Elemento de selección encontrado: " ++ selector)
                     current_url ts))
    | None => ret None
    end).

(** The keyword and structure rules, as both classifiers run them after
    reading the page content. *)
Definition classify_content (current_url page_content : string) : M W Outcome :=
  let content_lower := lower page_content in
  match first_keyword no_availability_keywords content_lower with
  | Some keyword =>
      ts <- gets now_isoformat ;;
      ret (outcome (Some false) "no_availability_content"
             ("Detectado en contenido: " ++ keyword) current_url ts)
  | None =>
      match first_keyword availability_keywords content_lower with
      | Some keyword =>
          ts <- gets now_isoformat ;;
          ret (outcome (Some true) "availability_found"
                 ("Disponibilidad detectada: " ++ keyword) current_url ts)
      | None =>
          found <- probe_next_step current_url ;;
          match found with
          | Some o => ret o
          | None =>
              ts <- gets now_isoformat ;;
              ret (outcome None "uncertain"
                     "No se pudo determinar la disponibilidad automáticamente"
                     current_url ts)
          end
      end
  end.

(** [_continue_availability_check] *)
Definition continue_availability_check : M W Outcome :=
  try_except
    (current_url <- gets page_url ;;
     content <- page_content ;;
     classify_content current_url content)
    (fun e =>
       u <- gets page_url ;;
       ts <- gets now_isoformat ;;
       ret (outcome None "error"
              ("Error durante verificación continua: " ++ e) u ts)).

(** [_click_especialidad_button_with_modal_retry]: the search for the
    button, at the head of every turn. *)
Definition find_especialidad_button : M W (option E) :=
  try_except
    (wait_for_selector primary_button_selector 5000)
    (fun _ =>
       for_first alternative_selectors (fun selector =>
         try_except
           (button <- wait_for_selector selector 3000 ;;
            match button with
            | Some b => ret (Some b)      (* break *)
            | None => ret None
            end)
           (fun _ => ret None))).          (* except: continue *)

Definition transient_statuses : list string := ["timeout_error"; "estatus_error"].

(** "Verificar errores después del clic": what a turn makes of the page
    once the click went through and no overlay came up. *)
Definition judge_after_click : M W turn :=
  error_found <- check_error_messages ;;
  match error_found with
  | Some error_info =>
      if in_list (status error_info) transient_statuses then
        wait_for_timeout 2000 ;;
        ret Continue
      else ret (Return error_info)
  | None =>
      o <- continue_availability_check ;;
      ret (Return o)
  end.

(** The body of the [try] of one turn, for the value [retry_count] has
    after its increment. *)
Definition click_attempt (retry_count : Z) : M W turn :=
  when (retry_count =? 1) eval_table_info ;;
  especialidad_button <- find_especialidad_button ;;
  match especialidad_button with
  | None =>
      wait_for_timeout 3000 ;;
      ret Continue
  | Some button =>
      detect_and_close_modals ;;
      element_click button ;;
      wait_for_load_state "networkidle" 30000 ;;
      modal_appeared <- detect_and_close_modals ;;
      if modal_appeared then
        wait_for_timeout 2000 ;;
        ret Continue
      else
        stamp <- gets now_stamp ;;
        page_screenshot ("screenshot_after_click_" ++ stamp ++ ".png") ;;
        judge_after_click
  end.

(** One turn: the attempt under [except Exception], whose handler waits
    three seconds and goes on. *)
Definition click_turn (retry_count : Z) : M W turn :=
  try_except (click_attempt retry_count)
    (fun _ => wait_for_timeout 3000 ;; ret Continue).

(** The loop itself.  [while True] has no bound; [fuel] bounds the turns the
    model runs, and [None] says that the loop is still turning when they
    are spent. *)
Fixpoint click_especialidad_button_with_modal_retry (fuel : nat)
    (retry_count : Z) : M W (option Outcome) :=
  match fuel with
  | O => ret None
  | S fuel' =>
      let retry_count := retry_count + 1 in
      t <- click_turn retry_count ;;
      match t with
      | Continue => click_especialidad_button_with_modal_retry fuel' retry_count
      | Return o => ret (Some o)
      end
  end.

(** The dictionary of the loop's [except KeyboardInterrupt] handler. *)
Definition user_interrupted_result (retry_count : Z) (u ts : string) : Outcome :=
  outcome None "user_interrupted"
    ("Usuario detuvo los reintentos después de " ++ str_of_Z retry_count
       ++ " intentos") u ts.

(** [check_availability], the part on 'estatus.aspx': the dictionary to
    return at once, if the page script reports errors. *)
Definition estatus_errors (current_url : string) : M W (option Outcome) :=
  estatus <- handle_estatus_page ;;
  match estatus with
  | Some (Info info) =>
      match errors info with
      | _ :: _ =>
          ts <- gets now_isoformat ;;
          ret (Some {| available := Some false; status := "estatus_error";
                       message := "Errores en página de estatus: "
                                    ++ join "; " (errors info);
                       url := current_url; timestamp := ts;
                       all_errors := None; estatus_info := Some info |})
      | [] => ret None
      end
  | _ => ret None
  end.

(** [check_availability], its first steps: overlays away, the URL read, a
    screenshot taken. *)
Definition settle_page : M W string :=
  modal_found <- detect_and_close_modals ;;
  when modal_found (wait_for_timeout 2000) ;;
  current_url <- gets page_url ;;
  stamp <- gets now_stamp ;;
  page_screenshot ("screenshot_result_" ++ stamp ++ ".png") ;;
  ret current_url.

(** [check_availability], its rules, in the order of the source. *)
Definition classify_page (fuel : nat) (current_url : string)
  : M W (option Outcome) :=
  if contains "paso-1.aspx" current_url || contains "estatus.aspx" current_url
  then
    error_found <- check_error_messages ;;
    match error_found with
    | Some error_info => ret (Some error_info)
    | None =>
        estatus <- (if contains "estatus.aspx" current_url
                    then estatus_errors current_url
                    else ret None) ;;
        match estatus with
        | Some o => ret (Some o)
        | None => click_especialidad_button_with_modal_retry fuel 0
        end
    end
  else if contains (error_url_pattern cfg) current_url
  then
    ts <- gets now_isoformat ;;
    ret (Some (outcome (Some false) "no_availability"
                 "No existen horas disponibles en la especialidad solicitada"
                 current_url ts))
  else
    content <- page_content ;;
    o <- classify_content current_url content ;;
    ret (Some o).

(** The dictionary of the [except Exception] handler of
    [check_availability]. *)
Definition error_outcome (e u ts : string) : Outcome :=
  outcome None "error" ("Error durante verificación: " ++ e) u ts.

(** The body of the [try] of [check_availability]. *)
Definition check_availability_body (fuel : nat) : M W (option Outcome) :=
  current_url <- settle_page ;;
  classify_page fuel current_url.

(** [check_availability]; [None] says that its click loop is still turning
    when the [fuel] is spent. *)
Definition check_availability (fuel : nat) : M W (option Outcome) :=
  try_except
    (check_availability_body fuel)
    (fun e =>
       u <- gets page_url ;;
       ts <- gets now_isoformat ;;
       ret (Some (error_outcome e u ts))).

(** [handle_error_automatically] *)
Definition handle_error_automatically (error_info : Outcome) : M W string :=
  modal_closed <- detect_and_close_modals ;;
  if modal_closed then ret "retry_without_restart"
  else
    let error_status := status error_info in
    if in_list error_status ["timeout_error"; "estatus_error"]
    then ret "retry_without_restart"
    else if in_list error_status ["no_availability_error"; "no_availability_content"]
    then ret "continue"
    else ret "retry_without_restart".

(** [run_single_check]: the test that sends a result to the error policy. *)
Definition needs_error_handling (result : Outcome) : bool :=
  match available result with
  | Some false =>
      in_list (status result)
        ["timeout_error"; "estatus_error"; "no_availability_error"]
  | _ => false
  end.

End Scraper.

(** ** The validator, in the words of the specification

    Weights cycle through 2..7 from the rightmost digit; the expected check
    character is ['0'] when eleven minus the remainder is eleven, ['K'] when
    it is ten, and the digit otherwise. *)

Definition weight (i : nat) : Z := 2 + Z.of_nat (i mod 6).

(** The weighted sum of digits listed right to left, the first of them at
    position [i]. *)
Fixpoint weighted_sum_from (i : nat) (digits : list ascii) : Z :=
  match digits with
  | [] => 0
  | d :: digits' => int_of_digit d * weight i + weighted_sum_from (S i) digits'
  end.

Definition weighted_sum (numero : string) : Z :=
  weighted_sum_from 0 (rev (list_ascii_of_string numero)).

Definition check_char (v : Z) : ascii :=
  if v =? 11 then "0"
  else if v =? 10 then "K"
  else ascii_of_nat (Z.to_nat (48 + v)).

Definition expected_check (numero : string) : ascii :=
  check_char (11 - weighted_sum numero mod 11).

Fixpoint all_digits (s : string) : bool :=
  match s with
  | EmptyString => true
  | String c s' => is_digit c && all_digits s'
  end.

(** [s] is 7 or 8 digits, a dash and one digit or K. *)
Definition rut_format (s numero : string) (c : ascii) : Prop :=
  s = numero ++ "-" ++ String c EmptyString
  /\ all_digits numero = true
  /\ (String.length numero = 7 \/ String.length numero = 8)%nat
  /\ (is_digit c = true \/ c = "K"%char).

(** The characters [clean_rut] keeps. *)
Definition kept (c : ascii) : bool :=
  negb (Ascii.eqb c " ") && negb (Ascii.eqb c ".").

(** The end of [rut_pattern]: [-[\dK]$]. *)
Definition rut_tail : regex :=
  [One (lit "-"); One (fun c => is_digit c || Ascii.eqb c "K"); Look at_dollar].

(** The horizontal tab, [chr(9)]. *)
Definition TAB : string := String (ascii_of_nat 9) EmptyString.

(** ** The identifier functions on every text

    What the user types may be any text.  A [str] of Python is a sequence
    of code points; on ASCII text it is the Rocq [string] of the sections
    above, character for character, and that is where the definitions on
    [string] speak for the program.  [_validate_rut] and [_format_rut] are
    given here a second time, on sequences of code points, for the texts
    that are not ASCII.  The two tables of Python that they consult are
    parameters: the upper-case mapping of [str.upper], which may give
    several code points for one, and the decimal digits, with their
    values, that [\d] matches and [int] converts. *)

(** [s.isascii()] *)
Definition isascii (s : string) : bool :=
  forallb (fun c => code c <? 128) (list_ascii_of_string s).

Module Text.

Definition str : Type := list Z.

(** The code points of a text that is ASCII. *)
Definition points (s : string) : str := map code (list_ascii_of_string s).

Class Tables : Type := {
  upper_of : Z -> list Z;        (* chr(c).upper() *)
  decimal_of : Z -> option Z     (* the value of c, when c is a decimal digit *)
}.

(** On the ASCII code points the tables are those of the sections above. *)
Definition ascii_part (T : Tables) : Prop :=
  forall a : ascii,
    code a < 128 ->
    upper_of (code a) = [code (upper_ascii a)]
    /\ decimal_of (code a)
       = (if is_digit a then Some (int_of_digit a) else None).

Section Identifier.

Context {T : Tables}.

(** [\d], and [int(c)] for a [c] that it matches. *)
Definition is_decimal (c : Z) : bool :=
  match decimal_of c with
  | Some _ => true
  | None => false
  end.

Definition int_of (c : Z) : Z :=
  match decimal_of c with
  | Some v => v
  | None => 0      (* int would raise; the format excludes it *)
  end.

Definition upper (s : str) : str := flat_map upper_of s.

(** [s.replace(old, '')] for a one-character [old]. *)
Definition remove_point (old : Z) (s : str) : str :=
  filter (fun c => negb (c =? old)) s.

(** [old in s] for a one-character [old]. *)
Definition has_point (old : Z) (s : str) : bool := existsb (Z.eqb old) s.

(** [s.split(sep)] for a one-character [sep]. *)
Fixpoint split_point (sep : Z) (s : str) : list str :=
  match s with
  | [] => [[]]
  | c :: s' =>
      if c =? sep then [] :: split_point sep s'
      else match split_point sep s' with
           | w :: ws => (c :: w) :: ws
           | [] => [[c]]
           end
  end.

(** The part of [re] that the pattern of the validator needs. *)
Inductive item : Type :=
| One (p : Z -> bool)
| Opt (p : Z -> bool)
| Look (q : str -> bool).

Fixpoint match_here (r : list item) (s : str) : option nat :=
  match r with
  | [] => Some 0%nat
  | One p :: r' =>
      match s with
      | c :: s' => if p c then option_map S (match_here r' s') else None
      | [] => None
      end
  | Opt p :: r' =>
      match s with
      | c :: s' =>
          if p c then
            match match_here r' s' with
            | Some n => Some (S n)
            | None => match_here r' s
            end
          else match_here r' s
      | [] => match_here r' s
      end
  | Look q :: r' => if q s then match_here r' s else None
  end.

Definition re_match (r : list item) (s : str) : bool :=
  match match_here r s with Some _ => true | None => false end.

(** [$]: at the end, or before a final line feed. *)
Definition at_dollar (s : str) : bool :=
  match s with
  | [] => true
  | [c] => c =? 10
  | _ => false
  end.

(** [r'^\d{7,8}-[\dK]$'] *)
Definition rut_pattern : list item :=
  [One is_decimal; One is_decimal; One is_decimal; One is_decimal;
   One is_decimal; One is_decimal; One is_decimal; Opt is_decimal;
   One (Z.eqb 45);
   One (fun c => is_decimal c || (c =? 75));
   Look at_dollar].

(** Its end: [-[\dK]$]. *)
Definition rut_tail : list item :=
  [One (Z.eqb 45); One (fun c => is_decimal c || (c =? 75)); Look at_dollar].

Definition checksum_step (st : Z * Z) (digit : Z) : Z * Z :=
  let '(suma, multiplicador) := st in
  let suma := suma + int_of digit * multiplicador in
  let multiplicador := multiplicador + 1 in
  (suma, if multiplicador >? 7 then 2 else multiplicador).

Definition dv_calculado (numero : str) : str :=
  let '(suma, _) := fold_left checksum_step (rev numero) (0, 2) in
  let resto := suma mod 11 in
  let dv := 11 - resto in
  if dv =? 11 then [48]
  else if dv =? 10 then [75]
  else points (str_of_Z dv).

Definition clean_rut (rut : str) : str :=
  upper (remove_point 46 (remove_point 32 rut)).

Definition str_eqb (a b : str) : bool :=
  if list_eq_dec Z.eq_dec a b then true else false.

(** [_validate_rut] *)
Definition validate_rut (rut : str) : bool :=
  let rut := clean_rut rut in
  if negb (re_match rut_pattern rut) then false
  else
    match split_point 45 rut with
    | [numero; dv] => str_eqb dv (dv_calculado numero)
    | _ => false    (* the unpacking would raise; the format excludes it *)
    end.

(** [_format_rut] *)
Definition format_rut (rut : str) : str :=
  let rut := clean_rut rut in
  if negb (has_point 45 rut) && (Z.of_nat (length rut) >=? 8)
  then (removelast rut ++ [45] ++ [last rut 0])%list
  else rut.

(** The weighted sum of the values of digits listed right to left, the
    first of them at position [i], and the check character they call
    for. *)
Fixpoint weighted_values (i : nat) (digits : str) : Z :=
  match digits with
  | [] => 0
  | d :: digits' => int_of d * weight i + weighted_values (S i) digits'
  end.

Definition expected_check (numero : str) : Z :=
  code (check_char (11 - weighted_values 0 (rev numero) mod 11)).

End Identifier.

(** The tables of the examples: those of Python on ASCII, on the letters
    of Latin-1 and on two further blocks of digits (Arabic-Indic and
    full-width); every other code point is left as it is. *)
Definition sample_tables : Tables := {|
  upper_of := fun c =>
    if (97 <=? c) && (c <=? 122) then [c - 32]
    else if c =? 181 then [924]
    else if c =? 223 then [83; 83]
    else if (224 <=? c) && (c <=? 254) && negb (c =? 247) then [c - 32]
    else if c =? 255 then [376]
    else [c];
  decimal_of := fun c =>
    if (48 <=? c) && (c <=? 57) then Some (c - 48)
    else if (1632 <=? c) && (c <=? 1641) then Some (c - 1632)
    else if (65296 <=? c) && (c <=? 65305) then Some (c - 65296)
    else None
|}.

(** '１８９７７３８６-2', the digits of the body in their full-width forms. *)
Definition full_width_rut : str :=
  [65297; 65304; 65305; 65303; 65303; 65299; 65304; 65302; 45; 50].

End Text.

(** ** Vocabulary of the statements *)

(** [m] returns whatever the state: no fault leaves it. *)
Definition never_raises {S A} (m : M S A) : Prop :=
  forall s, exists a s', m s = (Ret a, s').

(** Every value [m] returns satisfies [P]. *)
Definition returns {S A} (m : M S A) (P : A -> Prop) : Prop :=
  forall s a s', m s = (Ret a, s') -> P a.

(** [P] holds of the value, if there is one. *)
Definition if_some {A} (P : A -> Prop) (r : option A) : Prop :=
  forall a, r = Some a -> P a.

(** [P] holds of the outcome a turn returns, if it returns one. *)
Definition if_return (P : Outcome -> Prop) (t : turn) : Prop :=
  match t with
  | Return o => P o
  | Continue => True
  end.

(** The value of ['available'] that goes with each ['status']. *)
Definition available_of_status (st : string) : option bool :=
  if in_list st ["availability_found"; "possible_availability"] then Some true
  else if in_list st ["no_availability"; "no_availability_content";
                      "no_availability_error"; "timeout_error"; "estatus_error"]
  then Some false
  else None.

Definition consistent (o : Outcome) : Prop :=
  available o = available_of_status (status o).

(** The statuses of the error scan. *)
Definition error_statuses : list string :=
  ["timeout_error"; "no_availability_error"; "unknown_error"].

(** The content carries an explicit error marker: one of the patterns of
    the error scan matches it. *)
Definition has_error_marker (page_content : string) : bool :=
  match scan_patterns page_content [] with
  | [] => false
  | _ :: _ => true
  end.

(** The content carries an availability keyword. *)
Definition has_availability_keyword (page_content : string) : bool :=
  match first_keyword availability_keywords (lower page_content) with
  | Some _ => true
  | None => false
  end.

(** ** A page that stands still

    A test double: every call is answered from one record [page] and
    changes nothing, so the browser carries no state.  Elements are
    numbers. *)

Record page : Type := {
  at_url : string;
  html : string;
  matching : string -> list nat;     (* the elements a selector finds *)
  shown : nat -> bool;               (* is the element visible *)
  texts : nat -> option string;      (* its text content *)
  close_control : bool;              (* do overlays have a close control *)
  button : bool;                     (* is the especialidades button there *)
  dismiss_fails : bool;              (* Escape, the click outside and the
                                        hiding script all raise *)
  screenshot_fails : bool;           (* the screenshot raises *)
  selectors_fail : bool;             (* query_selector_all raises *)
  body_loading : bool;
  page_info : specialties_info;
  clock : string
}.

Definition answer {A} (a : A) : M unit A := fun w => (Ret a, w).

Definition dismissal (p : page) : M unit unit :=
  fun w => if dismiss_fails p then (Raise "Target closed", w) else (Ret tt, w).

Definition still (p : page) : Browser unit nat := {|
  page_url := fun _ => at_url p;
  now_isoformat := fun _ => clock p;
  now_stamp := fun _ => clock p;
  page_content := answer (html p);
  page_screenshot := fun _ w =>
    if screenshot_fails p then (Raise "Target closed", w) else (Ret tt, w);
  query_selector := fun sel => answer (hd_error (matching p sel));
  query_selector_all := fun sel w =>
    if selectors_fail p then (Raise "Target closed", w)
    else (Ret (matching p sel), w);
  wait_for_selector := fun sel _ w =>
    if button p then (Ret (Some 0%nat), w) else (Raise "Timeout exceeded", w);
  wait_for_timeout := fun _ => answer tt;
  wait_for_load_state := fun _ _ => answer tt;
  keyboard_press := fun _ => dismissal p;
  page_click := fun _ _ _ => dismissal p;
  element_query_selector := fun _ _ =>
    answer (if close_control p then Some 1%nat else None);
  element_click := fun _ => answer tt;
  element_text_content := fun e => answer (texts p e);
  eval_is_visible := fun e => answer (shown p e);
  eval_is_still_visible := fun e => answer (shown p e);
  eval_force_hide := fun _ => dismissal p;
  eval_is_loading := answer (body_loading p);
  eval_specialties := answer (page_info p);
  eval_table_info := answer tt
|}.

(** What a computation answers on the page [p]. *)
Definition on_page {A} (p : page) (m : Browser unit nat -> M unit A) : res A :=
  fst (m (still p) tt).

(** The ['available'] and ['status'] of the dictionary that came back, if
    one did. *)
Definition verdict (r : res (option Outcome)) : option (option bool * string) :=
  match r with
  | Ret (Some o) => Some (available o, status o)
  | _ => None
  end.

Definition no_info : specialties_info :=
  {| hasTable := false; hasModifyColumn := false; hasButtons := false;
     specialties := []; errors := [] |}.

(** A plain page: no overlay, no element, no button. *)
Definition plain_page (u content : string) : page :=
  {| at_url := u; html := content;
     matching := fun _ => []; shown := fun _ => false; texts := fun _ => None;
     close_control := false; button := false; dismiss_fails := false;
     screenshot_fails := false; selectors_fail := false;
     body_loading := false; page_info := no_info;
     clock := "2025-01-01T00:00:00" |}.

(** The same with the especialidades button in place. *)
Definition page_with_button (u content : string) : page :=
  {| at_url := u; html := content;
     matching := fun _ => []; shown := fun _ => false; texts := fun _ => None;
     close_control := false; button := true; dismiss_fails := false;
     screenshot_fails := false; selectors_fail := false;
     body_loading := false; page_info := no_info;
     clock := "2025-01-01T00:00:00" |}.

(** The same under a visible dialog that has no close control and resists
    every dismissal. *)
Definition page_under_dialog (u content : string) : page :=
  {| at_url := u; html := content;
     matching := fun sel => if String.eqb sel ("[role=" ++ q "dialog" ++ "]")
                            then [7%nat] else [];
     shown := fun e => Nat.eqb e 7; texts := fun _ => None;
     close_control := false; button := true; dismiss_fails := true;
     screenshot_fails := false; selectors_fail := false;
     body_loading := false; page_info := no_info;
     clock := "2025-01-01T00:00:00" |}.

(** A plain page whose screenshot cannot be taken. *)
Definition page_without_screenshot (u content : string) : page :=
  {| at_url := u; html := content;
     matching := fun _ => []; shown := fun _ => false; texts := fun _ => None;
     close_control := false; button := false; dismiss_fails := false;
     screenshot_fails := true; selectors_fail := false;
     body_loading := false; page_info := no_info;
     clock := "2025-01-01T00:00:00" |}.

(** A plain page on which no list of elements can be had. *)
Definition page_without_lists (u content : string) : page :=
  {| at_url := u; html := content;
     matching := fun _ => []; shown := fun _ => false; texts := fun _ => None;
     close_control := false; button := false; dismiss_fails := false;
     screenshot_fails := false; selectors_fail := true;
     body_loading := false; page_info := no_info;
     clock := "2025-01-01T00:00:00" |}.

Definition site : string := "https://tramites.munistgo.cl/reservahoralicencia/".

(** The pattern of the default configuration without its page name. *)
Definition query_config : Config := {|
  target_url := site;
  error_url_pattern := "Error=No%20existen%20horas%20disponibles"
|}.

(** A page with an error banner next to an availability keyword. *)
Definition banner_content : string :=
  "<html><b>Atención! Error: fallo interno</b><a>Agendar cita</a></html>".

(** A page without errors and without the button: at 'paso-1.aspx' the
    click loop turns on it for ever. *)
Definition bare_page (u : string) : page := plain_page u "<html></html>".

Definition empty_step_page : page := bare_page (site ++ "paso-1.aspx").

(** Pages behind the button: one that shows the timeout banner, one that
    says that there are no hours, one that offers dates. *)
Definition timeout_page : page :=
  page_with_button (site ++ "paso-1.aspx")
    "<html><b>Atención! Error: Ud. ha excedido el tiempo máximo de espera</b></html>".

Definition no_hours_page : page :=
  page_with_button (site ++ "paso-1.aspx")
    "<html><span>No existen horas disponibles</span></html>".

Definition dates_page : page :=
  page_with_button (site ++ "paso-2.aspx") "<html>Seleccione fecha</html>".

(** The dictionary of the error scan on the page [p]; the empty one if the
    scan finds nothing. *)
Definition scanned (p : page) : Outcome :=
  match fst (check_error_messages (B := still p) tt) with
  | Ret (Some o) => o
  | _ => outcome None EmptyString EmptyString EmptyString EmptyString
  end.

(** The dictionary of [_continue_availability_check] on the page [p]. *)
Definition continued (p : page) : Outcome :=
  match fst (continue_availability_check (B := still p) tt) with
  | Ret o => o
  | Raise _ => outcome None EmptyString EmptyString EmptyString EmptyString
  end.

(** ** Plain texts

    A text is plain when it has no ['<'] and neither begins nor ends with a
    blank: cleaning a match of it leaves the match as it is. *)

Definition starts_plain (s : string) : bool :=
  match s with
  | String c _ => negb (is_space c)
  | EmptyString => true
  end.

Fixpoint ends_plain (s : string) : bool :=
  match s with
  | EmptyString => true
  | String c EmptyString => negb (is_space c)
  | String _ s' => ends_plain s'
  end.

Fixpoint no_lt (s : string) : bool :=
  match s with
  | EmptyString => true
  | String c s' => negb (Ascii.eqb c "<") && no_lt s'
  end.

Definition plain (s : string) : bool := no_lt s && starts_plain s && ends_plain s.

(** The texts [more] are new with respect to [found_errors]: not empty,
    not in it, and pairwise different. *)
Definition fresh_in (found_errors more : list string) : Prop :=
  NoDup more /\ forall m, In m more -> m <> EmptyString /\ ~ In m found_errors.

(** ** The session

    The rest of [LicenciaScraper]: the dialogue on the console, the life of
    the browser, the form of the first page, and the two ways of running a
    check.  The loops written [while True] take a [fuel], as the click loop
    does: [None] says that the loop is still turning when it is spent. *)

Definition raise {S A} (e : string) : M S A := fun s => (Raise e, s).

(** The truth value of a [str]. *)
Definition truthy (s : string) : bool := negb (String.eqb s EmptyString).

(** [a or b or c], for two optional strings and a string. *)
Definition first_truthy (a b : option string) (c : string) : string :=
  match a with
  | Some (String x a') => String x a'
  | _ => match b with
         | Some (String x b') => String x b'
         | _ => c
         end
  end.

(** [range(start, stop, step)], as CPython counts it; empty for a step of
    zero, which [range] refuses. *)
Definition range (start stop step : Z) : list Z :=
  let n := if (0 <? step) && (start <? stop) then 1 + (stop - 1 - start) / step
           else if (step <? 0) && (stop <? start) then 1 + (start - 1 - stop) / (- step)
           else 0 in
  map (fun i => start + Z.of_nat i * step) (seq 0 (Z.to_nat n)).

Inductive launcher : Type := Firefox | Webkit | Chromium.

(** The options of [new_context], the same at both places. *)
Record context_options : Type := {
  user_agent : string;
  viewport : Z * Z;
  locale : string;
  ignore_https_errors : bool;
  java_script_enabled : bool;
  storage_state : option string;
  permissions : list string;
  extra_http_headers : list (string * string)
}.

Definition clean_context : context_options := {|
  user_agent := "Mozilla/5.0 (Windows NT 10.0; Win64; x64) AppleWebKit/537.36 (KHTML, like Gecko) Chrome/120.0.0.0 Safari/537.36";
  viewport := (1366, 768);
  locale := "es-CL";
  ignore_https_errors := true;
  java_script_enabled := true;
  storage_state := None;
  permissions := [];
  extra_http_headers :=
    [ ("Cache-Control", "no-cache, no-store, must-revalidate");
      ("Pragma", "no-cache"); ("Expires", "0") ]
|}.

Definition browser_args : list string :=
  [ "--no-sandbox"; "--disable-blink-features=AutomationControlled";
    "--disable-web-security"; "--disable-features=VizDisplayCompositor";
    "--incognito"; "--disable-save-password-bubble"; "--disable-autofill";
    "--disable-autofill-keyboard-accessory-view";
    "--disable-full-form-autofill-ios"; "--disable-password-generation";
    "--disable-password-manager"; "--no-first-run";
    "--no-default-browser-check"; "--disable-dev-shm-usage";
    "--disable-gpu-sandbox"; "--disable-software-rasterizer";
    "--disable-background-timer-throttling"; "--disable-renderer-backgrounding";
    "--disable-backgrounding-occluded-windows";
    "--disable-ipc-flooding-protection"; "--disable-hang-monitor";
    "--disable-client-side-phishing-detection"; "--disable-popup-blocking";
    "--disable-prompt-on-repost"; "--disable-domain-reliability";
    "--disable-component-extensions-with-background-pages" ].

(** The calls these methods make beyond those of [Browser]: the console,
    the clock of [asyncio], the Playwright objects behind [self.playwright],
    [self.browser], [self.context] and [self.page], and the text field.
    The four handles are part of the state [W]: a call that assigns one is
    one operation, and [has_browser] and the like read whether the
    attribute is set. *)
Class Session (W E : Type) : Type := {
  input : string -> M W string;            (* input(prompt); EOFError is a fault *)
  asyncio_sleep : Z -> M W unit;           (* asyncio.sleep(seconds) *)
  has_playwright : W -> bool;              (* hasattr(self, 'playwright') *)
  has_browser : W -> bool;                 (* self.browser *)
  has_context : W -> bool;                 (* self.context *)
  has_page : W -> bool;                    (* self.page *)
  playwright_start : M W unit;             (* self.playwright = async_playwright().start() *)
  browser_launch : launcher -> bool -> list string -> M W unit;
                                           (* self.browser = launcher.launch(headless, args) *)
  browser_new_context : context_options -> M W unit;
                                           (* self.context = self.browser.new_context(..) *)
  context_new_page : M W unit;             (* self.page = self.context.new_page() *)
  page_set_default_timeout : Z -> M W unit;
  page_close : M W unit;
  context_close : M W unit;
  browser_close : M W unit;
  playwright_stop : M W unit;
  context_clear_cookies : M W unit;
  eval_clear_local_storage : M W unit;     (* the page scripts of _clear_browser_data *)
  eval_clear_session_storage : M W unit;
  eval_clear_indexed_db : M W unit;
  eval_clear_web_sql : M W unit;
  eval_clear_application_cache : M W unit;
  eval_clear_form_fields : M W unit;
  page_goto : string -> string -> M W (option Z);
                                           (* page.goto(url, wait_until): response.status *)
  page_wait_for_load_state : string -> M W unit;    (* no timeout given *)
  element_press : E -> string -> M W unit;
  element_input_value : E -> M W string;
  element_fill : E -> string -> M W unit;
  element_type : E -> string -> Z -> M W unit;      (* element.type(text, delay) *)
  eval_clear_field : string -> M W unit    (* empty the element the selector finds *)
}.

(** The attributes of the scraper that are plain data: the configuration
    read by [__init__], the counter, and what the user typed. *)
Record Scraper : Type := {
  config : Config;
  retry_interval : Z;
  rut_ejemplo : string;
  headless_mode : bool;
  browser_type : string;
  attempt_count : Z;
  user_rut : option string;
  operation_type : option string
}.

Definition set_user_rut (v : option string) (s : Scraper) : Scraper :=
  {| config := config s; retry_interval := retry_interval s;
     rut_ejemplo := rut_ejemplo s; headless_mode := headless_mode s;
     browser_type := browser_type s; attempt_count := attempt_count s;
     user_rut := v; operation_type := operation_type s |}.

Definition set_operation_type (v : option string) (s : Scraper) : Scraper :=
  {| config := config s; retry_interval := retry_interval s;
     rut_ejemplo := rut_ejemplo s; headless_mode := headless_mode s;
     browser_type := browser_type s; attempt_count := attempt_count s;
     user_rut := user_rut s; operation_type := v |}.

Definition set_attempt_count (v : Z) (s : Scraper) : Scraper :=
  {| config := config s; retry_interval := retry_interval s;
     rut_ejemplo := rut_ejemplo s; headless_mode := headless_mode s;
     browser_type := browser_type s; attempt_count := v;
     user_rut := user_rut s; operation_type := operation_type s |}.

(** Reading and assigning an attribute of [self]. *)
Definition self {W A} (f : Scraper -> A) : M (Scraper * W) A :=
  gets (fun sw => f (fst sw)).

Definition assign {W} (f : Scraper -> Scraper) : M (Scraper * W) unit :=
  fun sw => (Ret tt, (f (fst sw), snd sw)).

(** The dictionaries of [run_single_check]: the empty one it starts from,
    the one of [check_availability] with the key ['action'] once it is
    set, and the one of its [except] handler. *)
Inductive Result : Type :=
| Empty
| Checked (o : Outcome) (action : option string)
| Failed (message timestamp : string).

(** [result.get('action')], [result.get('status')] and
    [result.get('available')]. *)
Definition get_action (r : Result) : option string :=
  match r with
  | Checked _ a => a
  | _ => None
  end.

Definition get_status (r : Result) : option string :=
  match r with
  | Empty => None
  | Checked o _ => Some (status o)
  | Failed _ _ => Some "error"
  end.

Definition get_available (r : Result) : option bool :=
  match r with
  | Checked o _ => available o
  | _ => None
  end.

(** [v in l] and [v == x] for the value of a [get]. *)
Definition opt_in (v : option string) (l : list string) : bool :=
  match v with
  | Some x => in_list x l
  | None => false
  end.

Definition opt_is (v : option string) (x : string) : bool :=
  match v with
  | Some y => String.eqb y x
  | None => false
  end.

Definition rut_selectors : list string :=
  [ "input[name=" ++ q "txtRut" ++ "]"; "input[id=" ++ q "txtRut" ++ "]";
    "input[type=" ++ q "text" ++ "]"; "#txtRut" ].

Definition rut_field_selector : string :=
  "input[name=" ++ q "txtRut" ++ "], input[id=" ++ q "txtRut" ++ "], #txtRut".

Definition submit_selectors : list string :=
  [ "input[type=" ++ q "submit" ++ "]"; "button[type=" ++ q "submit" ++ "]";
    "input[value=" ++ q "ingresar" ++ "]"; "#btnIngresar"; ".btn-submit" ].

Definition option_prompt_2 : string := LF ++ "Seleccione una opción (1 o 2): ".
Definition option_prompt_4 : string := LF ++ "Seleccione una opción (1-4): ".
Definition enter_prompt : string :=
  LF ++ "Presione ENTER cuando termine su intervención...".

Section Session.

Context {W E : Type} {B : Browser W E} {T : Session W E}.

(** [get_user_input]: its first loop. *)
Fixpoint ask_rut (fuel : nat) : M (Scraper * W) (option unit) :=
  match fuel with
  | O => ret None
  | S fuel' =>
      line <- lift (input "RUT: ") ;;
      let rut_input := strip line in
      if negb (truthy rut_input) then ask_rut fuel'           (* continue *)
      else
        let formatted_rut := format_rut rut_input in
        if validate_rut formatted_rut then
          assign (set_user_rut (Some formatted_rut)) ;;
          ret (Some tt)                                        (* break *)
        else ask_rut fuel'
  end.

(** Its second loop. *)
Fixpoint ask_operation (fuel : nat) : M (Scraper * W) (option unit) :=
  match fuel with
  | O => ret None
  | S fuel' =>
      line <- lift (input option_prompt_2) ;;
      let option := strip line in
      if String.eqb option "1" then
        assign (set_operation_type (Some "crear")) ;;
        ret (Some tt)
      else if String.eqb option "2" then
        assign (set_operation_type (Some "modificar")) ;;
        ret (Some tt)
      else ask_operation fuel'
  end.

(** [get_user_input] *)
Definition get_user_input (fuel : nat) : M (Scraper * W) (option unit) :=
  asked <- ask_rut fuel ;;
  match asked with
  | None => ret None
  | Some _ => ask_operation fuel
  end.

(** [_handle_manual_intervention] *)
Fixpoint handle_manual_intervention (fuel : nat) : M W (option string) :=
  match fuel with
  | O => ret None
  | S fuel' =>
      line <- input option_prompt_4 ;;
      let choice := strip line in
      if String.eqb choice "1" then ret (Some "continue_from_current")
      else if String.eqb choice "2" then ret (Some "retry")
      else if String.eqb choice "3" then
        input enter_prompt ;;
        handle_manual_intervention fuel'                       (* continue *)
      else if String.eqb choice "4" then ret (Some "exit")
      else handle_manual_intervention fuel'
  end.

(** [handle_error_interactively]; the dictionary is only shown. *)
Fixpoint handle_error_interactively (error_info : Outcome) (fuel : nat)
  : M W (option string) :=
  match fuel with
  | O => ret None
  | S fuel' =>
      line <- input option_prompt_4 ;;
      let choice := strip line in
      if String.eqb choice "1" then ret (Some "continue")
      else if String.eqb choice "2" then ret (Some "retry")
      else if String.eqb choice "3" then handle_manual_intervention fuel'
      else if String.eqb choice "4" then ret (Some "exit")
      else handle_error_interactively error_info fuel'
  end.

(** [_clear_browser_data] *)
Definition clear_browser_data : M W unit :=
  try_except
    (page <- gets has_page ;;
     when page
       (eval_clear_local_storage ;;
        eval_clear_session_storage ;;
        eval_clear_indexed_db ;;
        eval_clear_web_sql ;;
        eval_clear_application_cache ;;
        context_clear_cookies ;;
        eval_clear_form_fields))
    (fun _ => ret tt).

(** [initialize_browser] *)
Definition initialize_browser : M (Scraper * W) unit :=
  try_except
    (lift playwright_start ;;
     kind <- self browser_type ;;
     let browser_launcher :=
       if String.eqb (lower kind) "firefox" then Firefox
       else if String.eqb (lower kind) "webkit" then Webkit
       else Chromium in
     headless <- self headless_mode ;;
     lift (browser_launch browser_launcher headless browser_args) ;;
     lift (browser_new_context clean_context) ;;
     lift context_new_page ;;
     lift clear_browser_data ;;
     lift (page_set_default_timeout 30000))
    (fun e => raise e).

(** [recreate_browser_context] *)
Definition recreate_browser_context : M W unit :=
  try_except
    (page <- gets has_page ;;
     when page page_close ;;
     context <- gets has_context ;;
     when context context_close ;;
     browser_new_context clean_context ;;
     context_new_page ;;
     clear_browser_data ;;
     page_set_default_timeout 30000)
    (fun e => raise e).

(** [navigate_to_site] *)
Definition navigate_to_site : M (Scraper * W) unit :=
  try_except
    (lift clear_browser_data ;;
     target <- self (fun s => target_url (config s)) ;;
     response <- lift (page_goto target "networkidle") ;;
     match response with
     | Some 200 =>
         lift (page_wait_for_load_state "domcontentloaded") ;;
         lift detect_and_close_modals ;;
         stamp <- lift (gets now_stamp) ;;
         lift (page_screenshot ("screenshot_step2_" ++ stamp ++ ".png"))
     | _ => ret tt
     end)
    (fun e => raise e).

(** The two searches of [fill_rut_form]: the first selector that finds an
    element; a selector that finds none or raises is passed over. *)
Definition first_found (selectors : list string) : M W (option E) :=
  for_first selectors (fun selector =>
    try_except
      (found <- wait_for_selector selector 5000 ;;
       match found with
       | Some element => ret (Some element)     (* break *)
       | None => ret None
       end)
      (fun _ => ret None)).                      (* except: continue *)

(** [fill_rut_form] *)
Definition fill_rut_form (rut : option string) : M (Scraper * W) unit :=
  rut_ejemplo <- self rut_ejemplo ;;
  let rut_to_use := first_truthy rut None rut_ejemplo in
  lift (try_except
    (detect_and_close_modals ;;
     rut_input <- first_found rut_selectors ;;
     match rut_input with
     | None => raise "No se pudo encontrar el campo de RUT"
     | Some rut_input =>
         (* Método 1 *)
         element_click rut_input ;;
         wait_for_timeout 300 ;;
         element_press rut_input "Control+a" ;;
         wait_for_timeout 200 ;;
         element_press rut_input "Delete" ;;
         wait_for_timeout 300 ;;
         (* Método 2 *)
         current_value <- element_input_value rut_input ;;
         when (truthy current_value && truthy (strip current_value))
           (eval_clear_field rut_field_selector ;;
            wait_for_timeout 300 ;;
            current_value <- element_input_value rut_input ;;
            when (truthy current_value && truthy (strip current_value))
              (element_click rut_input ;;
               wait_for_timeout 200 ;;
               for_ (range 0 (len current_value + 5) 1) (fun _ =>
                 element_press rut_input "Backspace" ;;
                 wait_for_timeout 50) ;;
               wait_for_timeout 300)) ;;
         element_input_value rut_input ;;
         element_fill rut_input rut_to_use ;;
         wait_for_timeout 500 ;;
         filled_value <- element_input_value rut_input ;;
         when (negb (String.eqb filled_value rut_to_use))
           (element_click rut_input ;;
            element_press rut_input "Control+a" ;;
            element_press rut_input "Delete" ;;
            wait_for_timeout 300 ;;
            element_type rut_input rut_to_use 100 ;;
            wait_for_timeout 300 ;;
            final_value <- element_input_value rut_input ;;
            when (negb (String.eqb final_value rut_to_use))
              (raise ("No se pudo ingresar el RUT correctamente. Esperado: '"
                        ++ rut_to_use ++ "', Actual: '" ++ final_value ++ "'"))) ;;
         detect_and_close_modals ;;
         submit_button <- first_found submit_selectors ;;
         match submit_button with
         | None => raise "No se pudo encontrar el botón de envío"
         | Some submit_button =>
             element_click submit_button ;;
             wait_for_load_state "networkidle" 30000 ;;
             detect_and_close_modals ;;
             ret tt
         end
     end)
    (fun e => raise e)).

(** [cleanup] *)
Definition cleanup (force_close : bool) : M W unit :=
  try_except
    (when force_close
       (page <- gets has_page ;;
        when page page_close ;;
        context <- gets has_context ;;
        when context context_close ;;
        browser <- gets has_browser ;;
        when browser browser_close ;;
        playwright <- gets has_playwright ;;
        when playwright playwright_stop))
    (fun _ => ret tt).

(** The methods of the browser, called where [self] and the local
    [result] are in the state. *)
Definition on_browser {A} (m : M W A) : M (Result * (Scraper * W)) A :=
  lift (lift m).

(** [run_single_check]: what follows the handling of an error, for the
    [action] that came back. *)
Definition act_on (fuel : nat) (o : Outcome) (action : string)
  : M (Result * (Scraper * W)) (option Result) :=
  if String.eqb action "exit" then ret (Some (Checked o None))
  else if String.eqb action "retry" then
    set_local (Checked o (Some "retry")) ;;
    ret (Some (Checked o (Some "retry")))
  else if String.eqb action "continue" then
    set_local (Checked o (Some "continue")) ;;
    ret (Some (Checked o (Some "continue")))
  else if String.eqb action "continue_from_current" then
    cfg <- lift (self config) ;;
    again <- on_browser (check_availability cfg fuel) ;;
    match again with
    | None => ret None
    | Some o' =>
        set_local (Checked o' None) ;;
        ret (Some (Checked o' None))
    end
  else ret (Some (Checked o None)).

(** The body of its [try]. *)
Definition run_single_check_try (fuel : nat) (rut_to_use : string)
    (is_continuous : bool) : M (Result * (Scraper * W)) (option Result) :=
  browser <- on_browser (gets has_browser) ;;
  page <- on_browser (gets has_page) ;;
  when (negb browser || negb page) (lift initialize_browser) ;;
  count <- lift (self attempt_count) ;;
  when (1 <? count) (on_browser recreate_browser_context) ;;
  lift navigate_to_site ;;
  lift (fill_rut_form (Some rut_to_use)) ;;
  cfg <- lift (self config) ;;
  checked <- on_browser (check_availability cfg fuel) ;;
  match checked with
  | None => ret None
  | Some o =>
      set_local (Checked o None) ;;
      if needs_error_handling o then
        if is_continuous then
          action <- on_browser (handle_error_automatically o) ;;
          act_on fuel o action
        else
          action <- on_browser (handle_error_interactively o fuel) ;;
          match action with
          | None => ret None
          | Some action => act_on fuel o action
          end
      else ret (Some (Checked o None))
  end.

(** The test of its [finally]. *)
Definition should_close (result : Result) (is_continuous : bool) : bool :=
  negb (opt_in (get_action result) ["retry"; "continue"; "continue_from_current"]
        || opt_in (get_status result) ["user_interrupted"; "max_retries_exceeded"]
        || is_continuous).

(** [run_single_check] *)
Definition run_single_check (fuel : nat) (rut : option string)
    (is_continuous : bool) : M (Scraper * W) (option Result) :=
  assign (fun s => set_attempt_count (attempt_count s + 1) s) ;;
  rut_to_use <- self (fun s => first_truthy rut (user_rut s) (rut_ejemplo s)) ;;
  with_local Empty
    (returned <- try_except
       (run_single_check_try fuel rut_to_use is_continuous)
       (fun e =>
          ts <- on_browser (gets now_isoformat) ;;
          ret (Some (Failed ("Error durante verificación: " ++ e) ts))) ;;
     match returned with
     | None => ret None
     | Some _ =>
         (* finally *)
         result <- get_local ;;
         when (should_close result is_continuous) (on_browser (cleanup true)) ;;
         ret returned
     end).

(** The countdown of [run_continuous_monitoring]. *)
Definition countdown (wait_seconds : Z) : M W unit :=
  for_ (range wait_seconds 0 (-60)) (fun remaining =>
    let minutes_left := remaining / 60 in
    when (0 <? minutes_left) (asyncio_sleep 60)).

(** Its loop. *)
Fixpoint monitoring_loop (fuel : nat) (rut_to_use : string)
  : M (Scraper * W) (option unit) :=
  match fuel with
  | O => ret None
  | S fuel' =>
      checked <- run_single_check fuel' (Some rut_to_use) true ;;
      match checked with
      | None => ret None
      | Some result =>
          if opt_is (get_action result) "exit" then ret (Some tt)      (* break *)
          else if opt_is (get_action result) "retry_without_restart" then
            lift clear_browser_data ;;
            target <- self (fun s => target_url (config s)) ;;
            lift (page_goto target "networkidle") ;;
            monitoring_loop fuel' rut_to_use                            (* continue *)
          else if opt_is (get_action result) "retry" then
            monitoring_loop fuel' rut_to_use                            (* continue *)
          else
            when (negb (opt_in (get_action result)
                          ["retry"; "continue"; "retry_without_restart"]))
              (interval <- self retry_interval ;;
               lift (countdown (interval * 60))) ;;
            monitoring_loop fuel' rut_to_use
      end
  end.

(** [run_continuous_monitoring] *)
Definition run_continuous_monitoring (fuel : nat) (rut : option string)
  : M (Scraper * W) (option unit) :=
  rut_to_use <- self (fun s => first_truthy rut (user_rut s) (rut_ejemplo s)) ;;
  try_except
    (monitoring_loop fuel rut_to_use)
    (fun _ => ret (Some tt)).

End Session.

(** ** A desk for the session

    The page [on] behind a console: the state is the list of the lines
    still to be typed, and [input] takes the first of them or raises
    [EOFError] when there is none left.  The text field reads back [field]
    whatever is written to it, and [goto] answers [response]. *)

Record desk : Type := {
  on : page;
  field : string;
  response : option Z;
  up : bool                      (* the handles are set *)
}.

(** A call on the page, the typed lines left as they are. *)
Definition hold {A} (m : M unit A) : M (list string) A :=
  fun lines => (fst (m tt), lines).

Definition seated (d : desk) : Browser (list string) nat := {|
  page_url := fun _ => at_url (on d);
  now_isoformat := fun _ => clock (on d);
  now_stamp := fun _ => clock (on d);
  page_content := hold (@page_content unit nat (still (on d)));
  page_screenshot := fun path => hold (@page_screenshot unit nat (still (on d)) path);
  query_selector := fun sel => hold (@query_selector unit nat (still (on d)) sel);
  query_selector_all := fun sel => hold (@query_selector_all unit nat (still (on d)) sel);
  wait_for_selector := fun sel t => hold (@wait_for_selector unit nat (still (on d)) sel t);
  wait_for_timeout := fun t => hold (@wait_for_timeout unit nat (still (on d)) t);
  wait_for_load_state := fun st t => hold (@wait_for_load_state unit nat (still (on d)) st t);
  keyboard_press := fun k => hold (@keyboard_press unit nat (still (on d)) k);
  page_click := fun sel x y => hold (@page_click unit nat (still (on d)) sel x y);
  element_query_selector := fun e sel =>
    hold (@element_query_selector unit nat (still (on d)) e sel);
  element_click := fun e => hold (@element_click unit nat (still (on d)) e);
  element_text_content := fun e => hold (@element_text_content unit nat (still (on d)) e);
  eval_is_visible := fun e => hold (@eval_is_visible unit nat (still (on d)) e);
  eval_is_still_visible := fun e => hold (@eval_is_still_visible unit nat (still (on d)) e);
  eval_force_hide := fun e => hold (@eval_force_hide unit nat (still (on d)) e);
  eval_is_loading := hold (@eval_is_loading unit nat (still (on d)));
  eval_specialties := hold (@eval_specialties unit nat (still (on d)));
  eval_table_info := hold (@eval_table_info unit nat (still (on d)))
|}.

Definition done : M (list string) unit := fun lines => (Ret tt, lines).

Definition typing (d : desk) : Session (list string) nat := {|
  input := fun _ lines =>
    match lines with
    | line :: lines' => (Ret line, lines')
    | [] => (Raise "EOF when reading a line", [])
    end;
  asyncio_sleep := fun _ => done;
  has_playwright := fun _ => up d;
  has_browser := fun _ => up d;
  has_context := fun _ => up d;
  has_page := fun _ => up d;
  playwright_start := done;
  browser_launch := fun _ _ _ => done;
  browser_new_context := fun _ => done;
  context_new_page := done;
  page_set_default_timeout := fun _ => done;
  page_close := done;
  context_close := done;
  browser_close := done;
  playwright_stop := done;
  context_clear_cookies := done;
  eval_clear_local_storage := done;
  eval_clear_session_storage := done;
  eval_clear_indexed_db := done;
  eval_clear_web_sql := done;
  eval_clear_application_cache := done;
  eval_clear_form_fields := done;
  page_goto := fun _ _ lines => (Ret (response d), lines);
  page_wait_for_load_state := fun _ => done;
  element_press := fun _ _ => done;
  element_input_value := fun _ lines => (Ret (field d), lines);
  element_fill := fun _ _ => done;
  element_type := fun _ _ _ => done;
  eval_clear_field := fun _ => done
|}.

(** The scraper as [__init__] leaves it when no variable of the
    environment is set. *)
Definition default_scraper : Scraper := {|
  config := default_config;
  retry_interval := 30;
  rut_ejemplo := "25334838-0";
  headless_mode := false;
  browser_type := "chromium";
  attempt_count := 0;
  user_rut := None;
  operation_type := None
|}.

(** A desk at the page [p] whose field holds [value]. *)
Definition desk_at (p : page) (value : string) : desk :=
  {| on := p; field := value; response := Some 200; up := true |}.

(** What is typed at the first dialogue: nothing, a wrong check
    character, the example of the program with periods, a wrong option and
    the second option between blanks. *)
Definition typed_lines : list string :=
  [ ""; "18977386-3"; " 18.977.386-2 "; "3"; " 2 " ].

(** The desks of the examples: the page that says that there are no hours
    and the page of the timeout banner, with a field that takes the
    identifier; the same with a field that stays empty; and a server that
    answers 500. *)
Definition no_hours_desk : desk := desk_at no_hours_page "25334838-0".
Definition timeout_desk : desk := desk_at timeout_page "25334838-0".
Definition stuck_desk : desk := desk_at no_hours_page EmptyString.
Definition refused_desk : desk :=
  {| on := no_hours_page; field := "25334838-0"; response := Some 500; up := true |}.

(** The dictionary of a check at the desk [d], two turns allowed; the
    empty one if none comes back. *)
Definition checked (d : desk) (lines : list string) (is_continuous : bool) : Result :=
  match fst (run_single_check (B := seated d) (T := typing d) 2 None is_continuous
               (default_scraper, lines)) with
  | Ret (Some r) => r
  | _ => Empty
  end.

(** ** Vocabulary of the statements on the session *)

(** What a scraper has once a valid identifier is stored. *)
Definition rut_stored (before after : Scraper) : Prop :=
  (exists numero,
     user_rut after
     = Some (numero ++ "-" ++ String (expected_check numero) EmptyString)
     /\ all_digits numero = true
     /\ (String.length numero = 7 \/ String.length numero = 8)%nat)
  /\ after = set_user_rut (user_rut after) before.

(** The actions the interactive handler can answer. *)
Definition chosen_actions : list string :=
  ["continue"; "retry"; "continue_from_current"; "exit"].

(** What the dictionary of a check says about its ['action']. *)
Definition action_rule (is_continuous : bool) (r : Result) : Prop :=
  r <> Empty
  /\ (get_action r = None
      \/ (get_action r = Some "continue"
          /\ get_available r = Some false
          /\ (is_continuous = true -> get_status r = Some "no_availability_error"))
      \/ (get_action r = Some "retry"
          /\ is_continuous = false
          /\ get_available r = Some false)).


(** From a state in [I], [m] raises. *)
Definition raises_in {S A} (I : S -> Prop) (m : M S A) : Prop :=
  forall s, I s -> exists e s', m s = (Raise e, s').

(** [m] keeps the state in [I], whether it returns or raises. *)
Definition keeps {S A} (I : S -> Prop) (m : M S A) : Prop :=
  forall s r s', I s -> m s = (r, s') -> I s'.

(** A page under a dialog that every dismissal leaves where it is: no
    call fails, and the dialog stays visible. *)
Definition page_under_stubborn_dialog (u content : string) : page :=
  {| at_url := u; html := content;
     matching := fun sel => if String.eqb sel ("[role=" ++ q "dialog" ++ "]")
                            then [7%nat] else [];
     shown := fun e => Nat.eqb e 7; texts := fun _ => None;
     close_control := false; button := true; dismiss_fails := false;
     screenshot_fails := false; selectors_fail := false;
     body_loading := false; page_info := no_info;
     clock := "2025-01-01T00:00:00" |}.

(** The statuses of [_continue_availability_check], of the click loop and
    of [check_availability]. *)
Definition continued_statuses : list string :=
  ["no_availability_content"; "availability_found"; "possible_availability";
   "uncertain"; "error"].

Definition loop_statuses : list string :=
  ["no_availability_error"; "unknown_error"; "no_availability_content";
   "availability_found"; "possible_availability"; "uncertain"; "error"].

Definition known_statuses : list string :=
  ["timeout_error"; "no_availability_error"; "unknown_error"; "estatus_error";
   "no_availability"; "no_availability_content"; "availability_found";
   "possible_availability"; "uncertain"; "error"].

(** The ['status'] of [o] is one of [l]. *)
Definition status_in (l : list string) (o : Outcome) : Prop :=
  in_list (status o) l = true.

(** ** The guard under watch

    What [_detect_and_close_modals] answers depends on the page as it is
    at each of its probes, and its dismissals may change the page.  To say
    so for every browser, the browser is put under watch: [watched B]
    behaves as [B] and keeps, next to the state of [B], a mark that is set
    when a visibility probe of the guard answers [True]. *)

Definition watch {W : Type} (m : M W bool) : M (bool * W) bool :=
  fun s => match m (snd s) with
           | (Ret v, w') => (Ret v, (fst s || v, w'))
           | (Raise e, w') => (Raise e, (fst s, w'))
           end.

Definition watched {W E : Type} (B : Browser W E) : Browser (bool * W) E := {|
  page_url := fun s => page_url (snd s);
  now_isoformat := fun s => now_isoformat (snd s);
  now_stamp := fun s => now_stamp (snd s);
  page_content := lift page_content;
  page_screenshot := fun path => lift (page_screenshot path);
  query_selector := fun sel => lift (query_selector sel);
  query_selector_all := fun sel => lift (query_selector_all sel);
  wait_for_selector := fun sel timeout => lift (wait_for_selector sel timeout);
  wait_for_timeout := fun ms => lift (wait_for_timeout ms);
  wait_for_load_state := fun st timeout => lift (wait_for_load_state st timeout);
  keyboard_press := fun key => lift (keyboard_press key);
  page_click := fun sel x y => lift (page_click sel x y);
  element_query_selector := fun e sel => lift (element_query_selector e sel);
  element_click := fun e => lift (element_click e);
  element_text_content := fun e => lift (element_text_content e);
  eval_is_visible := fun e => watch (eval_is_visible e);
  eval_is_still_visible := fun e => lift (eval_is_still_visible e);
  eval_force_hide := fun e => lift (eval_force_hide e);
  eval_is_loading := lift eval_is_loading;
  eval_specialties := lift eval_specialties;
  eval_table_info := lift eval_table_info
|}.

(** A page that does not stand still: its overlays are up until the
    Escape key, or the hiding script, takes them away.  The state tells
    whether they are up. *)
Definition closing (p : page) : Browser bool nat := {|
  page_url := fun _ => at_url p;
  now_isoformat := fun _ => clock p;
  now_stamp := fun _ => clock p;
  page_content := fun (up : bool) => (Ret (html p), up);
  page_screenshot := fun _ (up : bool) => (Ret tt, up);
  query_selector := fun sel (up : bool) => (Ret (hd_error (matching p sel)), up);
  query_selector_all := fun sel (up : bool) =>
    (Ret (if up then matching p sel else []), up);
  wait_for_selector := fun sel _ (up : bool) =>
    if button p then (Ret (Some 0%nat), up) else (Raise "Timeout exceeded", up);
  wait_for_timeout := fun _ (up : bool) => (Ret tt, up);
  wait_for_load_state := fun _ _ (up : bool) => (Ret tt, up);
  keyboard_press := fun _ _ => (Ret tt, false);
  page_click := fun _ _ _ (up : bool) => (Ret tt, up);
  element_query_selector := fun _ _ (up : bool) =>
    (Ret (if close_control p then Some 1%nat else None), up);
  element_click := fun _ (up : bool) => (Ret tt, up);
  element_text_content := fun e (up : bool) => (Ret (texts p e), up);
  eval_is_visible := fun e (up : bool) => (Ret (up && shown p e), up);
  eval_is_still_visible := fun e (up : bool) => (Ret (up && shown p e), up);
  eval_force_hide := fun _ _ => (Ret tt, false);
  eval_is_loading := fun (up : bool) => (Ret (body_loading p), up);
  eval_specialties := fun (up : bool) => (Ret (page_info p), up);
  eval_table_info := fun (up : bool) => (Ret tt, up)
|}.

(** The page [p] when its content cannot be read: [page.content()]
    raises, every other call is answered as on [still p]. *)
Definition unreadable (p : page) : Browser unit nat := {|
  page_url := fun _ => at_url p;
  now_isoformat := fun _ => clock p;
  now_stamp := fun _ => clock p;
  page_content := fun w => (Raise "Target closed", w);
  page_screenshot := fun _ w =>
    if screenshot_fails p then (Raise "Target closed", w) else (Ret tt, w);
  query_selector := fun sel => answer (hd_error (matching p sel));
  query_selector_all := fun sel w =>
    if selectors_fail p then (Raise "Target closed", w)
    else (Ret (matching p sel), w);
  wait_for_selector := fun sel _ w =>
    if button p then (Ret (Some 0%nat), w) else (Raise "Timeout exceeded", w);
  wait_for_timeout := fun _ => answer tt;
  wait_for_load_state := fun _ _ => answer tt;
  keyboard_press := fun _ => dismissal p;
  page_click := fun _ _ _ => dismissal p;
  element_query_selector := fun _ _ =>
    answer (if close_control p then Some 1%nat else None);
  element_click := fun _ => answer tt;
  element_text_content := fun e => answer (texts p e);
  eval_is_visible := fun e => answer (shown p e);
  eval_is_still_visible := fun e => answer (shown p e);
  eval_force_hide := fun _ => dismissal p;
  eval_is_loading := answer (body_loading p);
  eval_specialties := answer (page_info p);
  eval_table_info := answer tt
|}.

(** [m'], on the watched browser, is [m] and leaves the mark alone. *)
Definition erases {W A : Type} (m' : M (bool * W) A) (m : M W A) : Prop :=
  forall mark w,
    m' (mark, w) = (let '(r, w') := m w in (r, (mark, w'))).

(** [m'], on the watched browser, is [m], and the mark follows the local
    [modal_found] of the guard. *)
Definition tracks {W A : Type} (m' : M (bool * (bool * W)) A)
    (m : M (bool * W) A) : Prop :=
  forall found w,
    m' (found, (found, w))
    = (let '(r, (found', w')) := m (found, w) in (r, (found', (found', w')))).

(** ** The keyword rules for every text

    The keyword and structure rules once more, with [str.lower] as a
    parameter: [lower_of] is whatever the conversion makes of the content,
    accented capitals included.  With [lower] for it these are the rules
    of [classify_content]. *)
Definition classify_content_with {W E : Type} {B : Browser W E}
    (lower_of : string -> string) (current_url page_content : string)
  : M W Outcome :=
  let content_lower := lower_of page_content in
  match first_keyword no_availability_keywords content_lower with
  | Some keyword =>
      ts <- gets now_isoformat ;;
      ret (outcome (Some false) "no_availability_content"
             ("Detectado en contenido: " ++ keyword) current_url ts)
  | None =>
      match first_keyword availability_keywords content_lower with
      | Some keyword =>
          ts <- gets now_isoformat ;;
          ret (outcome (Some true) "availability_found"
                 ("Disponibilidad detectada: " ++ keyword) current_url ts)
      | None =>
          found <- probe_next_step current_url ;;
          match found with
          | Some o => ret o
          | None =>
              ts <- gets now_isoformat ;;
              ret (outcome None "uncertain"
                     "No se pudo determinar la disponibilidad automáticamente"
                     current_url ts)
          end
      end
  end.

(** * Properties *)

(** ** Characters and strings *)

Lemma upper_ascii_idem (c : ascii) : upper_ascii (upper_ascii c) = upper_ascii c.
Proof.
  destruct c as [b0 b1 b2 b3 b4 b5 b6 b7].
  destruct b0, b1, b2, b3, b4, b5, b6, b7; reflexivity.
Qed.

Lemma upper_ascii_space (c : ascii) :
  Ascii.eqb (upper_ascii c) " " = Ascii.eqb c " ".
Proof.
  destruct c as [b0 b1 b2 b3 b4 b5 b6 b7].
  destruct b0, b1, b2, b3, b4, b5, b6, b7; reflexivity.
Qed.

Lemma upper_ascii_period (c : ascii) :
  Ascii.eqb (upper_ascii c) "." = Ascii.eqb c ".".
Proof.
  destruct c as [b0 b1 b2 b3 b4 b5 b6 b7].
  destruct b0, b1, b2, b3, b4, b5, b6, b7; reflexivity.
Qed.

Lemma upper_ascii_dash (c : ascii) :
  Ascii.eqb (upper_ascii c) "-" = Ascii.eqb c "-".
Proof.
  destruct c as [b0 b1 b2 b3 b4 b5 b6 b7].
  destruct b0, b1, b2, b3, b4, b5, b6, b7; reflexivity.
Qed.

(** A digit is not a dash, and its value is below ten. *)
Lemma is_digit_not_dash (c : ascii) :
  (is_digit c || Ascii.eqb c "K") = true -> Ascii.eqb c "-" = false.
Proof.
  destruct c as [b0 b1 b2 b3 b4 b5 b6 b7].
  destruct b0, b1, b2, b3, b4, b5, b6, b7; vm_compute; congruence.
Qed.

Lemma append_assoc (a b c : string) : (a ++ b) ++ c = a ++ (b ++ c).
Proof. induction a as [|x a IH]; simpl; [reflexivity | now rewrite IH]. Qed.

Lemma append_nil_r (a : string) : a ++ EmptyString = a.
Proof. induction a as [|x a IH]; simpl; [reflexivity | now rewrite IH]. Qed.

Lemma length_append (a b : string) :
  String.length (a ++ b) = (String.length a + String.length b)%nat.
Proof. induction a as [|x a IH]; simpl; [reflexivity | now rewrite IH]. Qed.

Lemma prefix_append (a b : string) : String.prefix a (a ++ b) = true.
Proof.
  induction a as [|x a IH]; simpl; [destruct b; reflexivity|].
  destruct (ascii_dec x x); [assumption | congruence].
Qed.

Lemma prefix_split (a s : string) :
  String.prefix a s = true -> exists b, s = a ++ b.
Proof.
  revert s; induction a as [|x a IH]; intros s H.
  - exists s; reflexivity.
  - destruct s as [|y s]; simpl in H; [discriminate|].
    destruct (ascii_dec x y) as [->|]; [|discriminate].
    destruct (IH _ H) as [b ->]. exists b; reflexivity.
Qed.

Lemma contains_eq (needle hay : string) :
  contains needle hay =
  if String.prefix needle hay then true
  else match hay with
       | EmptyString => false
       | String _ hay' => contains needle hay'
       end.
Proof. destruct hay; reflexivity. Qed.

Lemma contains_prefix (needle hay : string) :
  String.prefix needle hay = true -> contains needle hay = true.
Proof. intros H. rewrite contains_eq, H. reflexivity. Qed.

(** [needle in hay] holds exactly when [hay] is [a + needle + b]. *)
Lemma contains_spec (needle hay : string) :
  contains needle hay = true <-> exists a b, hay = a ++ needle ++ b.
Proof.
  split.
  - induction hay as [|y hay IH]; rewrite contains_eq.
    + destruct (String.prefix needle EmptyString) eqn:P; [|discriminate].
      intros _. destruct (prefix_split _ _ P) as [b Hb].
      exists EmptyString, b; exact Hb.
    + destruct (String.prefix needle (String y hay)) eqn:P.
      * intros _. destruct (prefix_split _ _ P) as [b Hb].
        exists EmptyString, b; exact Hb.
      * intros H. destruct (IH H) as (a & b & ->).
        exists (String y a), b; reflexivity.
  - intros (a & b & ->). induction a as [|x a IH].
    + cbn [append]. apply contains_prefix, prefix_append.
    + change (String x a ++ needle ++ b) with (String x (a ++ needle ++ b)).
      rewrite contains_eq, IH.
      destruct (String.prefix _ _); reflexivity.
Qed.

Lemma contains_trans (a b c : string) :
  contains a b = true -> contains b c = true -> contains a c = true.
Proof.
  rewrite !contains_spec. intros (x & y & ->) (u & v & ->).
  exists (u ++ x), (y ++ v). now rewrite !append_assoc.
Qed.

(** ** The regular expression of the validator *)

Lemma re_match_nil (s : string) : re_match [] s = true.
Proof. reflexivity. Qed.

Lemma re_match_one (p : ascii -> bool) (r : regex) (s : string) :
  re_match (One p :: r) s =
  match s with
  | String c s' => p c && re_match r s'
  | EmptyString => false
  end.
Proof.
  unfold re_match; destruct s as [|c s]; cbn [match_here]; [reflexivity|].
  destruct (p c); [|reflexivity].
  destruct (match_here r s); reflexivity.
Qed.

Lemma re_match_opt (p : ascii -> bool) (r : regex) (s : string) :
  re_match (Opt p :: r) s =
  match s with
  | String c s' => (p c && re_match r s') || re_match r s
  | EmptyString => re_match r s
  end.
Proof.
  unfold re_match; destruct s as [|c s]; cbn [match_here]; [reflexivity|].
  destruct (p c); [|reflexivity].
  destruct (match_here r s); reflexivity.
Qed.

Lemma re_match_look (q : string -> bool) (r : regex) (s : string) :
  re_match (Look q :: r) s = q s && re_match r s.
Proof. unfold re_match; cbn [match_here]. destruct (q s); reflexivity. Qed.

(** [n] characters of a class in a row. *)
Lemma re_match_repeat (p : ascii -> bool) (n : nat) (r : regex) (s : string) :
  re_match (repeat (One p) n ++ r)%list s = true <->
  exists a b, s = a ++ b /\ String.length a = n
              /\ (forall c, In c (list_ascii_of_string a) -> p c = true)
              /\ re_match r b = true.
Proof.
  revert s; induction n as [|n IH]; intros s; cbn [repeat app].
  - split.
    + intros H. exists EmptyString, s. repeat split; auto; intros c [].
    + intros (a & b & -> & L & _ & H). destruct a; [exact H | discriminate].
  - rewrite re_match_one. destruct s as [|c s].
    + split; [discriminate|].
      intros (a & b & Hs & L & _). destruct a; discriminate.
    + rewrite andb_true_iff, IH. split.
      * intros (Pc & a & b & -> & L & Ha & H).
        exists (String c a), b. repeat split; cbn; auto.
        intros x [<-|Hx]; auto.
      * intros (a & b & Hs & L & Ha & H).
        destruct a as [|x a]; [discriminate|].
        injection Hs as -> ->. split; [apply Ha; left; reflexivity|].
        exists a, b. repeat split; auto.
        intros y Hy; apply Ha; right; exact Hy.
Qed.

Lemma all_digits_In (s : string) :
  all_digits s = true <->
  forall c, In c (list_ascii_of_string s) -> is_digit c = true.
Proof.
  induction s as [|x s IH]; cbn.
  - split; [intros _ c [] | reflexivity].
  - rewrite andb_true_iff, IH. split.
    + intros [Hx Hs] c [<-|Hc]; auto.
    + intros H; split; [apply H; left; reflexivity|].
      intros c Hc; apply H; right; exact Hc.
Qed.

Lemma all_digits_app (a b : string) :
  all_digits (a ++ b) = all_digits a && all_digits b.
Proof.
  induction a as [|x a IH]; cbn; [reflexivity|].
  now rewrite IH, andb_assoc.
Qed.

Lemma rut_tail_spec (s : string) :
  re_match rut_tail s = true <->
  exists c tail, s = String "-" (String c tail)
                 /\ (is_digit c || Ascii.eqb c "K") = true
                 /\ at_dollar tail = true.
Proof.
  unfold rut_tail. rewrite re_match_one. destruct s as [|d s].
  - split; [discriminate | intros (c & t & H & _); discriminate].
  - rewrite re_match_one. destruct s as [|c s].
    + rewrite andb_false_r. split; [discriminate | intros (c & t & H & _); discriminate].
    + rewrite re_match_look, re_match_nil, andb_true_r. unfold lit.
      rewrite !andb_true_iff, Ascii.eqb_eq. split.
      * intros (-> & Hc & Ht). exists c, s. auto.
      * intros (c' & t & H & Hc & Ht). injection H as -> -> ->. auto.
Qed.

Lemma rut_pattern_eq : rut_pattern = (repeat (One is_digit) 7 ++ Opt is_digit :: rut_tail)%list.
Proof. reflexivity. Qed.

(** A text matches [^\d{7,8}-[\dK]$] exactly when it is 7 or 8 digits, a
    dash, a digit or K and then nothing, or just a final line feed. *)
Lemma rut_pattern_spec (s : string) :
  re_match rut_pattern s = true <->
  exists numero c tail,
    s = numero ++ String "-" (String c tail)
    /\ all_digits numero = true
    /\ (String.length numero = 7 \/ String.length numero = 8)%nat
    /\ (is_digit c || Ascii.eqb c "K") = true
    /\ at_dollar tail = true.
Proof.
  rewrite rut_pattern_eq, re_match_repeat. split.
  - intros (a & b & -> & L & Ha & H).
    rewrite re_match_opt in H. destruct b as [|x b].
    + apply rut_tail_spec in H. destruct H as (c & t & H & _); discriminate.
    + apply orb_true_iff in H. destruct H as [H|H].
      * apply andb_true_iff in H. destruct H as [Hx H].
        apply rut_tail_spec in H. destruct H as (c & t & -> & Hc & Ht).
        exists (a ++ String x EmptyString), c, t.
        rewrite append_assoc, all_digits_app, length_append, L. cbn.
        rewrite Hx. repeat split; auto.
        rewrite andb_true_r. apply all_digits_In, Ha.
      * apply rut_tail_spec in H. destruct H as (c & t & H & Hc & Ht).
        exists a, c, t. rewrite H. repeat split; auto.
        apply all_digits_In, Ha.
  - intros (numero & c & t & -> & Hd & [L|L] & Hc & Ht).
    + exists numero, (String "-" (String c t)). repeat split; auto.
      * apply all_digits_In, Hd.
      * rewrite re_match_opt. apply orb_true_iff. right.
        apply rut_tail_spec. exists c, t. auto.
    + (* eight digits: the last one is taken by the optional digit *)
      assert (exists a x, numero = a ++ String x EmptyString /\ String.length a = 7%nat)
        as (a & x & -> & La).
      { do 8 (destruct numero as [|? numero]; [discriminate|]).
        destruct numero; [|discriminate].
        eexists (String _ (String _ (String _ (String _ (String _ (String _ (String _ EmptyString))))))), _.
        split; reflexivity. }
      rewrite all_digits_app in Hd. apply andb_true_iff in Hd.
      destruct Hd as [Hda Hdx]. cbn in Hdx. rewrite andb_true_r in Hdx.
      exists a, (String x (String "-" (String c t))).
      rewrite append_assoc. repeat split; auto.
      * apply all_digits_In, Hda.
      * rewrite re_match_opt, Hdx. apply orb_true_iff. left.
        apply rut_tail_spec. exists c, t. auto.
Qed.

(** ** The checksum loop against the weighted sum *)

Lemma weight_succ (i : nat) :
  (if weight i + 1 >? 7 then 2 else weight i + 1) = weight (S i).
Proof.
  unfold weight.
  pose proof (Nat.mod_upper_bound i 6 ltac:(discriminate)) as Hi.
  pose proof (Nat.mod_upper_bound (S i) 6 ltac:(discriminate)) as HS.
  pose proof (Nat.div_mod_eq i 6) as Ei.
  pose proof (Nat.div_mod_eq (S i) 6) as ES.
  destruct (2 + Z.of_nat (i mod 6) + 1 >? 7) eqn:C.
  - apply Z.gtb_lt in C. lia.
  - assert (~ 7 < 2 + Z.of_nat (i mod 6) + 1) as C'.
    { intro H. apply Z.gtb_lt in H. congruence. }
    lia.
Qed.

Lemma checksum_loop (digits : list ascii) (i : nat) (suma : Z) :
  fold_left checksum_step digits (suma, weight i)
  = (suma + weighted_sum_from i digits, weight (i + length digits)).
Proof.
  revert i suma; induction digits as [|d ds IH]; intros i suma; cbn [fold_left].
  - cbn [weighted_sum_from length]. now rewrite Z.add_0_r, Nat.add_0_r.
  - unfold checksum_step at 2. rewrite weight_succ, IH.
    cbn [weighted_sum_from length].
    replace (S i + length ds)%nat with (i + S (length ds))%nat by lia.
    f_equal. lia.
Qed.

Lemma str_of_digit (v : Z) :
  1 <= v <= 9 -> str_of_Z v = String (ascii_of_nat (Z.to_nat (48 + v))) EmptyString.
Proof.
  intros H.
  assert (v = 1 \/ v = 2 \/ v = 3 \/ v = 4 \/ v = 5 \/ v = 6 \/ v = 7 \/ v = 8 \/ v = 9)
    as C by lia.
  repeat (destruct C as [-> | C]; [reflexivity|]). subst; reflexivity.
Qed.

(** The loop of the program computes the check character of the
    specification. *)
Lemma dv_calculado_spec (numero : string) :
  dv_calculado numero = String (expected_check numero) EmptyString.
Proof.
  unfold dv_calculado, expected_check, weighted_sum, check_char.
  change (0, 2) with (0, weight 0). rewrite checksum_loop.
  rewrite Z.add_0_l.
  set (suma := weighted_sum_from 0 _).
  pose proof (Z.mod_pos_bound suma 11 ltac:(lia)) as Hm.
  destruct (11 - suma mod 11 =? 11) eqn:E11; [reflexivity|].
  destruct (11 - suma mod 11 =? 10) eqn:E10; [reflexivity|].
  apply Z.eqb_neq in E11, E10. apply str_of_digit. lia.
Qed.

(** ** [split] on the dash *)

Lemma split_char_clean (sep : ascii) (s : string) :
  (forall c, In c (list_ascii_of_string s) -> Ascii.eqb c sep = false) ->
  split_char sep s = [s].
Proof.
  induction s as [|x s IH]; intros H; cbn [split_char]; [reflexivity|].
  rewrite (H x) by (left; reflexivity).
  rewrite IH; [reflexivity|]. intros c Hc; apply H; right; exact Hc.
Qed.

Lemma split_char_at (sep : ascii) (a b : string) :
  (forall c, In c (list_ascii_of_string a) -> Ascii.eqb c sep = false) ->
  split_char sep (a ++ String sep b) = a :: split_char sep b.
Proof.
  induction a as [|x a IH]; intros H; cbn [append split_char].
  - rewrite Ascii.eqb_refl. reflexivity.
  - rewrite (H x) by (left; reflexivity).
    rewrite IH; [reflexivity|]. intros c Hc; apply H; right; exact Hc.
Qed.

Lemma digit_not_dash (c : ascii) : is_digit c = true -> Ascii.eqb c "-" = false.
Proof. intros H. apply is_digit_not_dash. rewrite H. reflexivity. Qed.

Lemma at_dollar_cases (t : string) :
  at_dollar t = true -> t = EmptyString \/ t = LF.
Proof.
  unfold at_dollar. rewrite orb_true_iff, !String.eqb_eq. tauto.
Qed.

(** ** [_validate_rut] *)

(** On a text that is already clean: valid exactly when well formed with
    the expected check character. *)
Lemma validate_clean_spec (s : string) :
  (if negb (re_match rut_pattern s) then false
   else match split_char "-" s with
        | [numero; dv] => String.eqb dv (dv_calculado numero)
        | _ => false
        end) = true
  <-> exists numero c, rut_format s numero c /\ c = expected_check numero.
Proof.
  split.
  - destruct (re_match rut_pattern s) eqn:F; [|discriminate]. cbn [negb].
    apply rut_pattern_spec in F.
    destruct F as (numero & c & t & -> & Hd & L & Hc & Ht).
    rewrite split_char_at
      by (intros x Hx; apply digit_not_dash; revert x Hx; apply all_digits_In, Hd).
    rewrite split_char_clean.
    2:{ intros x [<-|Hx]; [apply is_digit_not_dash, Hc|].
        destruct (at_dollar_cases _ Ht) as [->| ->]; [destruct Hx|].
        destruct Hx as [<-|[]]. reflexivity. }
    rewrite dv_calculado_spec, String.eqb_eq. intros H. injection H as -> ->.
    exists numero, (expected_check numero). split; [|reflexivity].
    repeat split; auto.
    apply orb_true_iff in Hc. rewrite Ascii.eqb_eq in Hc. exact Hc.
  - intros (numero & c & (-> & Hd & L & Hc) & ->).
    assert ((is_digit (expected_check numero)
             || Ascii.eqb (expected_check numero) "K") = true) as Hc'.
    { apply orb_true_iff. rewrite Ascii.eqb_eq. exact Hc. }
    assert (re_match rut_pattern
              (numero ++ "-" ++ String (expected_check numero) EmptyString) = true) as F.
    { apply rut_pattern_spec. exists numero, (expected_check numero), EmptyString.
      repeat split; auto. }
    rewrite F. cbn [negb append].
    rewrite split_char_at
      by (intros x Hx; apply digit_not_dash; revert x Hx; apply all_digits_In, Hd).
    rewrite split_char_clean.
    2:{ intros x [<-|[]]. apply is_digit_not_dash, Hc'. }
    rewrite dv_calculado_spec. apply String.eqb_refl.
Qed.

Lemma validate_rut_spec (raw : string) :
  validate_rut raw = true
  <-> exists numero c, rut_format (clean_rut raw) numero c /\ c = expected_check numero.
Proof. unfold validate_rut. apply validate_clean_spec. Qed.

(** ** [clean_rut]: spaces and periods out, the rest in upper case *)

Lemma clean_rut_cons (c : ascii) (s : string) :
  clean_rut (String c s)
  = if kept c then String (upper_ascii c) (clean_rut s) else clean_rut s.
Proof.
  unfold clean_rut, upper, kept. cbn [remove_char].
  destruct (Ascii.eqb c " ") eqn:Sp; cbn [negb andb]; [reflexivity|].
  cbn [remove_char]. destruct (Ascii.eqb c "."); reflexivity.
Qed.

Lemma clean_rut_nil : clean_rut EmptyString = EmptyString.
Proof. reflexivity. Qed.

Lemma clean_rut_app (a b : string) :
  clean_rut (a ++ b) = clean_rut a ++ clean_rut b.
Proof.
  induction a as [|x a IH]; [reflexivity|].
  cbn [append]. rewrite !clean_rut_cons, IH. destruct (kept x); reflexivity.
Qed.

Lemma kept_upper (c : ascii) : kept (upper_ascii c) = kept c.
Proof. unfold kept. now rewrite upper_ascii_space, upper_ascii_period. Qed.

Lemma clean_rut_idem (s : string) : clean_rut (clean_rut s) = clean_rut s.
Proof.
  induction s as [|x s IH]; [reflexivity|].
  rewrite clean_rut_cons. destruct (kept x) eqn:K; [|exact IH].
  rewrite clean_rut_cons, kept_upper, K, upper_ascii_idem, IH. reflexivity.
Qed.

Lemma clean_rut_chars (s : string) :
  list_ascii_of_string (clean_rut s)
  = map upper_ascii (filter kept (list_ascii_of_string s)).
Proof.
  induction s as [|x s IH]; [reflexivity|].
  rewrite clean_rut_cons. cbn [list_ascii_of_string filter].
  destruct (kept x); cbn [list_ascii_of_string map]; now rewrite IH.
Qed.

(** ** Texts that end in a given character *)

Lemma append_last_inj (a b : string) (x y : ascii) :
  a ++ String x EmptyString = b ++ String y EmptyString -> a = b /\ x = y.
Proof.
  revert b; induction a as [|u a IH]; intros [|v b] H; cbn in H.
  - injection H as ->. auto.
  - injection H as -> H. destruct b; discriminate.
  - injection H as -> H. destruct a; discriminate.
  - injection H as -> H. destruct (IH _ H) as [-> ->]. auto.
Qed.

Lemma append_nonempty_last (s : string) :
  s <> EmptyString -> exists front c, s = front ++ String c EmptyString.
Proof.
  induction s as [|x s IH]; intros H; [congruence|].
  destruct s as [|y s].
  - exists EmptyString, x; reflexivity.
  - destruct IH as (front & c & Hs); [discriminate|].
    exists (String x front), c. cbn [append]. now rewrite <- Hs.
Qed.

Lemma substring_front (front rest : string) :
  substring 0 (String.length front) (front ++ rest) = front.
Proof.
  induction front as [|x front IH]; cbn.
  - destruct rest; reflexivity.
  - now rewrite IH.
Qed.

Lemma substring_last (front : string) (c : ascii) :
  substring (String.length front) 1 (front ++ String c EmptyString)
  = String c EmptyString.
Proof. induction front as [|x front IH]; cbn; [reflexivity | exact IH]. Qed.

(** Two texts cut at their first dash agree on both sides of it. *)
Lemma first_dash_inj (a a' x x' : string) :
  all_digits a = true -> all_digits a' = true ->
  a ++ String "-" x = a' ++ String "-" x' -> a = a' /\ x = x'.
Proof.
  revert a'; induction a as [|u a IH]; intros [|v a'] Ha Ha' H; cbn in H.
  - injection H as ->. auto.
  - injection H as <- _. cbn in Ha'. apply andb_true_iff in Ha'.
    destruct Ha' as [Hv _]. discriminate.
  - injection H as -> _. cbn in Ha. apply andb_true_iff in Ha.
    destruct Ha as [Hu _]. discriminate.
  - injection H as -> H. cbn in Ha, Ha'.
    apply andb_true_iff in Ha, Ha'.
    destruct (IH a' (proj2 Ha) (proj2 Ha') H) as [-> ->]. auto.
Qed.

(** ** [_format_rut] *)

Lemma format_rut_with_dash (raw : string) :
  contains "-" (clean_rut raw) = true -> format_rut raw = clean_rut raw.
Proof. intros H. unfold format_rut. rewrite H. reflexivity. Qed.

Lemma format_rut_short (raw : string) :
  (String.length (clean_rut raw) < 8)%nat -> format_rut raw = clean_rut raw.
Proof.
  intros H. unfold format_rut, len.
  destruct (Z.of_nat (String.length (clean_rut raw)) >=? 8) eqn:L.
  - apply Z.geb_le in L. lia.
  - now rewrite andb_false_r.
Qed.

Lemma format_rut_insert (raw front : string) (c : ascii) :
  clean_rut raw = front ++ String c EmptyString ->
  contains "-" (clean_rut raw) = false ->
  (8 <= String.length (clean_rut raw))%nat ->
  format_rut raw = front ++ "-" ++ String c EmptyString.
Proof.
  intros Hs Hd Hl. unfold format_rut, len. rewrite Hd. cbn [negb andb].
  destruct (Z.of_nat (String.length (clean_rut raw)) >=? 8) eqn:L.
  2:{ destruct (Z.geb_spec (Z.of_nat (String.length (clean_rut raw))) 8); [discriminate | lia]. }
  rewrite Hs, length_append. cbn [String.length].
  replace (String.length front + 1 - 1)%nat with (String.length front) by lia.
  now rewrite substring_front, substring_last.
Qed.

(** ** The identifier functions on code points *)

Lemma isascii_cons (c : ascii) (s : string) :
  isascii (String c s) = (code c <? 128) && isascii s.
Proof. reflexivity. Qed.

Lemma isascii_app (a b : string) : isascii (a ++ b) = isascii a && isascii b.
Proof.
  induction a as [|x a IH]; [reflexivity|].
  cbn [append]. rewrite !isascii_cons, IH. apply andb_assoc.
Qed.

Lemma code_inj (a b : ascii) : code a = code b -> a = b.
Proof.
  unfold code. intros H. apply Nat2Z.inj in H.
  rewrite <- (ascii_nat_embedding a), <- (ascii_nat_embedding b). now rewrite H.
Qed.

Lemma code_eqb (a b : ascii) : (code a =? code b) = Ascii.eqb a b.
Proof.
  destruct (Ascii.eqb a b) eqn:E.
  - apply Ascii.eqb_eq in E. subst. apply Z.eqb_refl.
  - apply Z.eqb_neq. intros H. apply code_inj in H. subst.
    rewrite Ascii.eqb_refl in E. discriminate.
Qed.

Lemma points_app (a b : string) :
  Text.points (a ++ b) = (Text.points a ++ Text.points b)%list.
Proof.
  unfold Text.points. induction a as [|x a IH]; [reflexivity|].
  cbn [append list_ascii_of_string map app]. now rewrite IH.
Qed.

Lemma points_inj (a b : string) : Text.points a = Text.points b -> a = b.
Proof.
  unfold Text.points. revert b; induction a as [|x a IH]; intros [|y b] H;
    cbn in H; try discriminate; [reflexivity|].
  injection H as Hx H. apply code_inj in Hx. subst. now rewrite (IH _ H).
Qed.

Lemma points_length (a : string) : length (Text.points a) = String.length a.
Proof.
  unfold Text.points. induction a as [|x a IH]; [reflexivity|].
  cbn. now rewrite IH.
Qed.

(** A text of code points that is cut in two is the text of two strings. *)
Lemma points_cut (s : string) (a b : Text.str) :
  Text.points s = (a ++ b)%list ->
  exists x y, s = x ++ y /\ Text.points x = a /\ Text.points y = b.
Proof.
  revert a; induction s as [|c s IH]; intros a H.
  - destruct a; [|discriminate]. destruct b; [|discriminate].
    exists EmptyString, EmptyString. auto.
  - destruct a as [|d a].
    + exists EmptyString, (String c s). auto.
    + cbn in H. injection H as <- H. destruct (IH _ H) as (x & y & -> & <- & <-).
      exists (String c x), y. auto.
Qed.

Lemma str_eqb_eq (a b : Text.str) : Text.str_eqb a b = true <-> a = b.
Proof.
  unfold Text.str_eqb. destruct (list_eq_dec Z.eq_dec a b); split; auto.
  discriminate.
Qed.

Section TextIdentifier.

Context {T : Text.Tables}.

Lemma text_re_match_nil (s : Text.str) : Text.re_match [] s = true.
Proof. reflexivity. Qed.

Lemma text_re_match_one (p : Z -> bool) (r : list Text.item) (s : Text.str) :
  Text.re_match (Text.One p :: r) s =
  match s with
  | c :: s' => p c && Text.re_match r s'
  | [] => false
  end.
Proof.
  unfold Text.re_match; destruct s as [|c s]; cbn [Text.match_here]; [reflexivity|].
  destruct (p c); [|reflexivity].
  destruct (Text.match_here r s); reflexivity.
Qed.

Lemma text_re_match_opt (p : Z -> bool) (r : list Text.item) (s : Text.str) :
  Text.re_match (Text.Opt p :: r) s =
  match s with
  | c :: s' => (p c && Text.re_match r s') || Text.re_match r s
  | [] => Text.re_match r s
  end.
Proof.
  unfold Text.re_match; destruct s as [|c s]; cbn [Text.match_here]; [reflexivity|].
  destruct (p c); [|reflexivity].
  destruct (Text.match_here r s); [reflexivity|].
  cbn [andb orb]. reflexivity.
Qed.

Lemma text_re_match_look (q : Text.str -> bool) (r : list Text.item) (s : Text.str) :
  Text.re_match (Text.Look q :: r) s = q s && Text.re_match r s.
Proof. unfold Text.re_match; cbn [Text.match_here]. destruct (q s); reflexivity. Qed.

Lemma text_re_match_repeat (p : Z -> bool) (n : nat) (r : list Text.item)
    (s : Text.str) :
  Text.re_match (repeat (Text.One p) n ++ r)%list s = true <->
  exists a b, s = (a ++ b)%list /\ length a = n
              /\ forallb p a = true
              /\ Text.re_match r b = true.
Proof.
  revert s; induction n as [|n IH]; intros s; cbn [repeat app].
  - split.
    + intros H. exists [], s. repeat split; auto.
    + intros (a & b & -> & L & _ & H). destruct a; [exact H | discriminate].
  - rewrite text_re_match_one. destruct s as [|c s].
    + split; [discriminate|].
      intros (a & b & Hs & L & _). destruct a; discriminate.
    + rewrite andb_true_iff, IH. split.
      * intros (Pc & a & b & -> & L & Ha & H).
        exists (c :: a), b. repeat split; cbn; auto.
        rewrite Pc. exact Ha.
      * intros (a & b & Hs & L & Ha & H).
        destruct a as [|x a]; [discriminate|].
        injection Hs as -> ->. cbn in Ha. apply andb_true_iff in Ha.
        destruct Ha as [Hx Ha]. split; [exact Hx|].
        exists a, b. repeat split; auto.
Qed.

Lemma text_rut_tail_spec (s : Text.str) :
  Text.re_match Text.rut_tail s = true <->
  exists c tail, s = 45 :: c :: tail
                 /\ (Text.is_decimal c || (c =? 75)) = true
                 /\ Text.at_dollar tail = true.
Proof.
  unfold Text.rut_tail. rewrite text_re_match_one. destruct s as [|d s].
  - split; [discriminate | intros (c & t & H & _); discriminate].
  - rewrite text_re_match_one. destruct s as [|c s].
    + rewrite andb_false_r. split; [discriminate | intros (c & t & H & _); discriminate].
    + rewrite text_re_match_look, text_re_match_nil, andb_true_r.
      rewrite !andb_true_iff, Z.eqb_eq. split.
      * intros (<- & Hc & Ht). exists c, s. auto.
      * intros (c' & t & H & Hc & Ht). injection H as -> -> ->. auto.
Qed.

Lemma text_rut_pattern_eq :
  Text.rut_pattern
  = (repeat (Text.One Text.is_decimal) 7 ++ Text.Opt Text.is_decimal :: Text.rut_tail)%list.
Proof. reflexivity. Qed.

(** A text matches [^\d{7,8}-[\dK]$] exactly when it is 7 or 8 decimal
    digits, a dash, a decimal digit or K and then nothing, or just a final
    line feed. *)
Lemma text_rut_pattern_spec (s : Text.str) :
  Text.re_match Text.rut_pattern s = true <->
  exists numero c tail,
    s = (numero ++ 45 :: c :: tail)%list
    /\ forallb Text.is_decimal numero = true
    /\ (length numero = 7 \/ length numero = 8)%nat
    /\ (Text.is_decimal c || (c =? 75)) = true
    /\ Text.at_dollar tail = true.
Proof.
  rewrite text_rut_pattern_eq, text_re_match_repeat. split.
  - intros (a & b & -> & L & Ha & H).
    rewrite text_re_match_opt in H. destruct b as [|x b].
    + apply text_rut_tail_spec in H. destruct H as (c & t & H & _); discriminate.
    + apply orb_true_iff in H. destruct H as [H|H].
      * apply andb_true_iff in H. destruct H as [Hx H].
        apply text_rut_tail_spec in H. destruct H as (c & t & -> & Hc & Ht).
        exists (a ++ [x])%list, c, t.
        rewrite <- app_assoc, forallb_app, length_app, L. cbn.
        rewrite Hx, Ha. repeat split; auto.
      * apply text_rut_tail_spec in H. destruct H as (c & t & H & Hc & Ht).
        exists a, c, t. rewrite H. repeat split; auto.
  - intros (numero & c & t & -> & Hd & [L|L] & Hc & Ht).
    + exists numero, (45 :: c :: t). repeat split; auto.
      rewrite text_re_match_opt. apply orb_true_iff. right.
      apply text_rut_tail_spec. exists c, t. auto.
    + (* eight digits: the last one is taken by the optional digit *)
      assert (exists a x, numero = (a ++ [x])%list /\ length a = 7%nat)
        as (a & x & -> & La).
      { do 8 (destruct numero as [|? numero]; [discriminate|]).
        destruct numero; [|discriminate].
        eexists [_; _; _; _; _; _; _], _. split; reflexivity. }
      rewrite forallb_app in Hd. apply andb_true_iff in Hd.
      destruct Hd as [Hda Hdx]. cbn in Hdx. rewrite andb_true_r in Hdx.
      exists a, (x :: 45 :: c :: t).
      rewrite <- app_assoc. repeat split; auto.
      rewrite text_re_match_opt, Hdx. apply orb_true_iff. left.
      apply text_rut_tail_spec. exists c, t. auto.
Qed.

(** The loop against the weighted sum. *)
Lemma text_checksum_loop (digits : Text.str) (i : nat) (suma : Z) :
  fold_left Text.checksum_step digits (suma, weight i)
  = (suma + Text.weighted_values i digits, weight (i + length digits)).
Proof.
  revert i suma; induction digits as [|d ds IH]; intros i suma; cbn [fold_left].
  - cbn [Text.weighted_values length]. now rewrite Z.add_0_r, Nat.add_0_r.
  - unfold Text.checksum_step at 2. rewrite weight_succ, IH.
    cbn [Text.weighted_values length].
    replace (S i + length ds)%nat with (i + S (length ds))%nat by lia.
    f_equal. lia.
Qed.

Lemma points_of_digit (v : Z) :
  1 <= v <= 9 -> Text.points (str_of_Z v) = [48 + v].
Proof.
  intros H.
  assert (v = 1 \/ v = 2 \/ v = 3 \/ v = 4 \/ v = 5 \/ v = 6 \/ v = 7 \/ v = 8 \/ v = 9)
    as C by lia.
  repeat (destruct C as [-> | C]; [reflexivity|]). subst; reflexivity.
Qed.

Lemma code_check_char (v : Z) :
  1 <= v <= 11 ->
  code (check_char v) = (if v =? 11 then 48 else if v =? 10 then 75 else 48 + v).
Proof.
  intros H.
  assert (v = 1 \/ v = 2 \/ v = 3 \/ v = 4 \/ v = 5 \/ v = 6 \/ v = 7 \/ v = 8
          \/ v = 9 \/ v = 10 \/ v = 11) as C by lia.
  repeat (destruct C as [-> | C]; [reflexivity|]). subst; reflexivity.
Qed.

(** The loop of the program computes the check character. *)
Lemma text_dv_calculado_spec (numero : Text.str) :
  Text.dv_calculado numero = [Text.expected_check numero].
Proof.
  unfold Text.dv_calculado, Text.expected_check.
  change (0, 2) with (0, weight 0). rewrite text_checksum_loop.
  rewrite Z.add_0_l.
  set (suma := Text.weighted_values 0 _).
  pose proof (Z.mod_pos_bound suma 11 ltac:(lia)) as Hm.
  rewrite code_check_char by lia.
  destruct (11 - suma mod 11 =? 11) eqn:E11; [reflexivity|].
  destruct (11 - suma mod 11 =? 10) eqn:E10; [reflexivity|].
  apply Z.eqb_neq in E11, E10. rewrite points_of_digit by lia. reflexivity.
Qed.

Lemma split_point_clean (sep : Z) (s : Text.str) :
  forallb (fun c => negb (c =? sep)) s = true ->
  Text.split_point sep s = [s].
Proof.
  induction s as [|x s IH]; intros H; cbn [Text.split_point]; [reflexivity|].
  cbn in H. apply andb_true_iff in H. destruct H as [Hx H].
  apply negb_true_iff in Hx. rewrite Hx, IH by exact H. reflexivity.
Qed.

Lemma split_point_at (sep : Z) (a b : Text.str) :
  forallb (fun c => negb (c =? sep)) a = true ->
  Text.split_point sep (a ++ sep :: b)%list = a :: Text.split_point sep b.
Proof.
  induction a as [|x a IH]; intros H; cbn [app Text.split_point].
  - rewrite Z.eqb_refl. reflexivity.
  - cbn in H. apply andb_true_iff in H. destruct H as [Hx H].
    apply negb_true_iff in Hx. rewrite Hx, IH by exact H. reflexivity.
Qed.

Lemma text_at_dollar_cases (t : Text.str) :
  Text.at_dollar t = true -> t = [] \/ t = [10].
Proof.
  destruct t as [|c [|d t]]; cbn; auto; [|discriminate].
  intros H. apply Z.eqb_eq in H. subst. auto.
Qed.

(** What the tables say on ASCII is all that the validator needs to know
    of them. *)
Hypothesis tables_on_ascii : Text.ascii_part T.

Lemma decimal_of_ascii (a : ascii) :
  code a < 128 ->
  Text.decimal_of (code a) = (if is_digit a then Some (int_of_digit a) else None).
Proof. intros H. exact (proj2 (tables_on_ascii a H)). Qed.

Lemma upper_of_ascii (a : ascii) :
  code a < 128 -> Text.upper_of (code a) = [code (upper_ascii a)].
Proof. intros H. exact (proj1 (tables_on_ascii a H)). Qed.

Lemma dash_not_decimal : Text.is_decimal 45 = false.
Proof.
  unfold Text.is_decimal. change 45 with (code "-").
  rewrite (decimal_of_ascii "-" ltac:(reflexivity)). reflexivity.
Qed.

Lemma line_feed_not_dash : (10 =? 45) = false.
Proof. reflexivity. Qed.

Lemma decimal_not_dash (c : Z) : Text.is_decimal c = true -> (c =? 45) = false.
Proof.
  intros H. apply Z.eqb_neq. intros ->. rewrite dash_not_decimal in H. discriminate.
Qed.

Lemma decimals_no_dash (s : Text.str) :
  forallb Text.is_decimal s = true ->
  forallb (fun c => negb (c =? 45)) s = true.
Proof.
  intros H. apply forallb_forall. intros c Hc.
  rewrite forallb_forall in H. rewrite (decimal_not_dash c (H c Hc)). reflexivity.
Qed.

Lemma decimal_of_digit (v : Z) :
  0 <= v <= 9 -> Text.decimal_of (48 + v) = Some v.
Proof.
  intros H.
  assert (v = 0 \/ v = 1 \/ v = 2 \/ v = 3 \/ v = 4 \/ v = 5 \/ v = 6 \/ v = 7
          \/ v = 8 \/ v = 9) as C by lia.
  assert (forall a : ascii,
            code a < 128 -> is_digit a = true ->
            Text.decimal_of (code a) = Some (code a - 48)) as D.
  { intros a Ha Hd. rewrite (decimal_of_ascii a Ha), Hd. reflexivity. }
  destruct C as [->|[->|[->|[->|[->|[->|[->|[->|[->| ->]]]]]]]]].
  - exact (D "0"%char ltac:(reflexivity) ltac:(reflexivity)).
  - exact (D "1"%char ltac:(reflexivity) ltac:(reflexivity)).
  - exact (D "2"%char ltac:(reflexivity) ltac:(reflexivity)).
  - exact (D "3"%char ltac:(reflexivity) ltac:(reflexivity)).
  - exact (D "4"%char ltac:(reflexivity) ltac:(reflexivity)).
  - exact (D "5"%char ltac:(reflexivity) ltac:(reflexivity)).
  - exact (D "6"%char ltac:(reflexivity) ltac:(reflexivity)).
  - exact (D "7"%char ltac:(reflexivity) ltac:(reflexivity)).
  - exact (D "8"%char ltac:(reflexivity) ltac:(reflexivity)).
  - exact (D "9"%char ltac:(reflexivity) ltac:(reflexivity)).
Qed.

Lemma expected_check_matches (numero : Text.str) :
  (Text.is_decimal (Text.expected_check numero)
   || (Text.expected_check numero =? 75)) = true
  /\ (Text.expected_check numero =? 45) = false.
Proof.
  unfold Text.expected_check.
  set (suma := Text.weighted_values 0 _).
  pose proof (Z.mod_pos_bound suma 11 ltac:(lia)) as Hm.
  set (v := 11 - suma mod 11).
  assert (1 <= v <= 11) as Hv by (unfold v; lia).
  clearbody v. clear Hm suma.
  rewrite (code_check_char v Hv).
  destruct (v =? 11) eqn:E11.
  { unfold Text.is_decimal. pose proof (decimal_of_digit 0 ltac:(lia)) as D0.
    change (48 + 0) with 48 in D0. rewrite D0. auto. }
  destruct (v =? 10) eqn:E10.
  { split; [apply orb_true_iff; right; reflexivity | reflexivity]. }
  apply Z.eqb_neq in E11, E10.
  unfold Text.is_decimal. rewrite (decimal_of_digit v ltac:(lia)).
  split; [reflexivity|]. apply Z.eqb_neq. lia.
Qed.

(** On a text that is already clean: valid exactly when well formed with
    the expected check character. *)
Lemma text_validate_clean_spec (s : Text.str) :
  (if negb (Text.re_match Text.rut_pattern s) then false
   else match Text.split_point 45 s with
        | [numero; dv] => Text.str_eqb dv (Text.dv_calculado numero)
        | _ => false
        end) = true
  <-> exists numero,
        s = (numero ++ [45; Text.expected_check numero])%list
        /\ forallb Text.is_decimal numero = true
        /\ (length numero = 7 \/ length numero = 8)%nat.
Proof.
  split.
  - destruct (Text.re_match Text.rut_pattern s) eqn:F; [|discriminate]. cbn [negb].
    apply text_rut_pattern_spec in F.
    destruct F as (numero & c & t & -> & Hd & L & Hc & Ht).
    rewrite split_point_at by (apply decimals_no_dash, Hd).
    assert ((c =? 45) = false) as Hcd.
    { apply orb_true_iff in Hc. destruct Hc as [Hc|Hc].
      - apply decimal_not_dash, Hc.
      - apply Z.eqb_eq in Hc. subst. reflexivity. }
    rewrite split_point_clean.
    2:{ cbn [forallb]. rewrite Hcd. cbn [negb andb].
        destruct (text_at_dollar_cases _ Ht) as [->| ->]; reflexivity. }
    rewrite text_dv_calculado_spec, str_eqb_eq. intros H. injection H as -> ->.
    exists numero. auto.
  - intros (numero & -> & Hd & L).
    destruct (expected_check_matches numero) as [Hc Hcd].
    assert (Text.re_match Text.rut_pattern
              (numero ++ [45; Text.expected_check numero])%list = true) as F.
    { apply text_rut_pattern_spec. exists numero, (Text.expected_check numero), [].
      repeat split; auto. }
    rewrite F. cbn [negb].
    rewrite split_point_at by (apply decimals_no_dash, Hd).
    rewrite split_point_clean by (cbn [forallb]; rewrite Hcd; reflexivity).
    rewrite text_dv_calculado_spec. apply str_eqb_eq. reflexivity.
Qed.

Lemma text_validate_rut_spec (raw : Text.str) :
  Text.validate_rut raw = true
  <-> exists numero,
        Text.clean_rut raw = (numero ++ [45; Text.expected_check numero])%list
        /\ forallb Text.is_decimal numero = true
        /\ (length numero = 7 \/ length numero = 8)%nat.
Proof. unfold Text.validate_rut. apply text_validate_clean_spec. Qed.

(** *** On ASCII text: the functions on [string] *)

Lemma isascii_In (s : string) :
  isascii s = true -> forall c, In c (list_ascii_of_string s) -> code c < 128.
Proof.
  unfold isascii. rewrite forallb_forall. intros H c Hc.
  apply Z.ltb_lt. exact (H c Hc).
Qed.

Lemma upper_ascii_isascii (c : ascii) : code c < 128 -> code (upper_ascii c) < 128.
Proof.
  intros H. unfold upper_ascii.
  destruct ((97 <=? code c) && (code c <=? 122)) eqn:E; [|exact H].
  apply andb_true_iff in E. destruct E as [E1 E2].
  apply Z.leb_le in E1, E2. unfold code in *.
  rewrite nat_ascii_embedding by lia. lia.
Qed.

Lemma text_upper_points (s : string) :
  isascii s = true -> Text.upper (Text.points s) = Text.points (upper s).
Proof.
  unfold Text.upper, Text.points, upper.
  induction s as [|c s IH]; intros H; [reflexivity|].
  rewrite isascii_cons in H. apply andb_true_iff in H. destruct H as [Hc H].
  apply Z.ltb_lt in Hc.
  cbn [list_ascii_of_string map flat_map map_str].
  rewrite (upper_of_ascii c Hc), IH by exact H. reflexivity.
Qed.

Lemma remove_point_points (old : ascii) (s : string) :
  Text.remove_point (code old) (Text.points s) = Text.points (remove_char old s).
Proof.
  unfold Text.remove_point, Text.points.
  induction s as [|c s IH]; [reflexivity|].
  cbn [list_ascii_of_string map filter remove_char].
  rewrite code_eqb. destruct (Ascii.eqb c old); cbn [negb]; [exact IH|].
  cbn [list_ascii_of_string map]. now rewrite IH.
Qed.

Lemma remove_char_isascii (old : ascii) (s : string) :
  isascii s = true -> isascii (remove_char old s) = true.
Proof.
  induction s as [|c s IH]; intros H; [reflexivity|].
  rewrite isascii_cons in H. apply andb_true_iff in H. destruct H as [Hc H].
  cbn [remove_char]. destruct (Ascii.eqb c old); [exact (IH H)|].
  rewrite isascii_cons, Hc, (IH H). reflexivity.
Qed.

Lemma upper_isascii (s : string) : isascii s = true -> isascii (upper s) = true.
Proof.
  unfold upper. induction s as [|c s IH]; intros H; [reflexivity|].
  rewrite isascii_cons in H. apply andb_true_iff in H. destruct H as [Hc H].
  cbn [map_str]. rewrite isascii_cons, (IH H), andb_true_r.
  apply Z.ltb_lt. apply upper_ascii_isascii. apply Z.ltb_lt. exact Hc.
Qed.

Lemma clean_rut_isascii (raw : string) :
  isascii raw = true -> isascii (clean_rut raw) = true.
Proof.
  intros H. unfold clean_rut. apply upper_isascii.
  do 2 apply remove_char_isascii. exact H.
Qed.

Lemma text_clean_rut_points (raw : string) :
  isascii raw = true ->
  Text.clean_rut (Text.points raw) = Text.points (clean_rut raw).
Proof.
  intros H. unfold Text.clean_rut, clean_rut.
  change 32 with (code " "). change 46 with (code ".").
  rewrite !remove_point_points.
  apply text_upper_points. do 2 apply remove_char_isascii. exact H.
Qed.

Lemma is_decimal_points (s : string) :
  isascii s = true ->
  forallb Text.is_decimal (Text.points s) = all_digits s.
Proof.
  unfold Text.points. induction s as [|c s IH]; intros H; [reflexivity|].
  rewrite isascii_cons in H. apply andb_true_iff in H. destruct H as [Hc H].
  apply Z.ltb_lt in Hc.
  cbn [list_ascii_of_string map forallb all_digits]. rewrite (IH H).
  unfold Text.is_decimal at 1. rewrite (decimal_of_ascii c Hc).
  destruct (is_digit c); reflexivity.
Qed.

Lemma weighted_values_points (digits : list ascii) (i : nat) :
  (forall c, In c digits -> is_digit c = true) ->
  Text.weighted_values i (map code digits) = weighted_sum_from i digits.
Proof.
  revert i; induction digits as [|d ds IH]; intros i H; [reflexivity|].
  cbn [map Text.weighted_values weighted_sum_from].
  rewrite IH by (intros c Hc; apply H; right; exact Hc).
  assert (is_digit d = true) as Hd by (apply H; left; reflexivity).
  unfold Text.int_of. rewrite decimal_of_ascii, Hd; [reflexivity|].
  unfold is_digit in Hd. apply andb_true_iff in Hd. destruct Hd as [_ Hd].
  apply Z.leb_le in Hd. lia.
Qed.

Lemma expected_check_points (numero : string) :
  all_digits numero = true ->
  Text.expected_check (Text.points numero) = code (expected_check numero).
Proof.
  intros Hd. unfold Text.expected_check, expected_check, weighted_sum, Text.points.
  rewrite <- map_rev. rewrite weighted_values_points; [reflexivity|].
  intros c Hc. apply in_rev in Hc. revert c Hc. apply all_digits_In, Hd.
Qed.

(** On ASCII text the two validators are one. *)
Lemma text_validate_rut_points (raw : string) :
  isascii raw = true -> Text.validate_rut (Text.points raw) = validate_rut raw.
Proof.
  intros H.
  pose proof (clean_rut_isascii raw H) as Hc.
  apply eq_true_iff_eq.
  rewrite text_validate_rut_spec, validate_rut_spec, text_clean_rut_points by exact H.
  split.
  - intros (numero & Es & Hd & L).
    destruct (points_cut _ _ _ Es) as (n & rest & En & Pn & Pr).
    rewrite En in Hc. rewrite isascii_app in Hc. apply andb_true_iff in Hc.
    destruct Hc as [Hn _].
    assert (all_digits n = true) as Hdn.
    { rewrite <- (is_decimal_points n Hn), Pn. exact Hd. }
    exists n, (expected_check n). split; [|reflexivity].
    assert (rest = "-" ++ String (expected_check n) EmptyString) as ->.
    { apply points_inj. rewrite Pr, <- Pn, (expected_check_points n Hdn).
      reflexivity. }
    repeat split; auto.
    + rewrite <- (points_length n), Pn. exact L.
    + pose proof (expected_check_matches numero) as [Hm _].
      rewrite <- Pn, (expected_check_points n Hdn) in Hm.
      apply orb_true_iff in Hm. destruct Hm as [Hm|Hm].
      * left. unfold Text.is_decimal in Hm.
        destruct (Z_lt_ge_dec (code (expected_check n)) 128) as [Hl|Hl].
        -- rewrite (decimal_of_ascii _ Hl) in Hm.
           destruct (is_digit (expected_check n)); [reflexivity | discriminate].
        -- exfalso. clear - Hl. unfold expected_check in Hl.
           set (v := 11 - weighted_sum n mod 11) in *.
           pose proof (Z.mod_pos_bound (weighted_sum n) 11 ltac:(lia)) as Hb.
           assert (1 <= v <= 11) as Hv by (unfold v; lia).
           rewrite (code_check_char v Hv) in Hl.
           destruct (v =? 11); [lia|]. destruct (v =? 10); lia.
      * right. apply Z.eqb_eq in Hm. apply code_inj. exact Hm.
  - intros (numero & c & (Es & Hd & L & _) & ->).
    exists (Text.points numero). rewrite Es.
    rewrite !points_app, (expected_check_points numero Hd).
    repeat split.
    + rewrite is_decimal_points; [exact Hd|].
      rewrite Es, isascii_app in Hc. apply andb_true_iff in Hc. exact (proj1 Hc).
    + rewrite points_length. exact L.
Qed.

End TextIdentifier.

(** *** [_format_rut] on code points *)

Section TextFormat.

Context {T : Text.Tables}.

Lemma text_format_rut_with_dash (raw : Text.str) :
  Text.has_point 45 (Text.clean_rut raw) = true ->
  Text.format_rut raw = Text.clean_rut raw.
Proof. intros H. unfold Text.format_rut. rewrite H. reflexivity. Qed.

Lemma text_format_rut_short (raw : Text.str) :
  (length (Text.clean_rut raw) < 8)%nat -> Text.format_rut raw = Text.clean_rut raw.
Proof.
  intros H. unfold Text.format_rut.
  destruct (Z.of_nat (length (Text.clean_rut raw)) >=? 8) eqn:L.
  - apply Z.geb_le in L. lia.
  - now rewrite andb_false_r.
Qed.

Lemma text_format_rut_insert (raw front : Text.str) (c : Z) :
  Text.clean_rut raw = (front ++ [c])%list ->
  Text.has_point 45 (Text.clean_rut raw) = false ->
  (8 <= length (Text.clean_rut raw))%nat ->
  Text.format_rut raw = (front ++ [45; c])%list.
Proof.
  intros Hs Hd Hl. unfold Text.format_rut. rewrite Hd. cbn [negb andb].
  destruct (Z.of_nat (length (Text.clean_rut raw)) >=? 8) eqn:L.
  2:{ destruct (Z.geb_spec (Z.of_nat (length (Text.clean_rut raw))) 8);
        [discriminate | lia]. }
  rewrite Hs, removelast_last, last_last. reflexivity.
Qed.

Lemma has_point_points (old : ascii) (s : string) :
  Text.has_point (code old) (Text.points s) = contains (String old EmptyString) s.
Proof.
  unfold Text.has_point, Text.points.
  induction s as [|c s IH].
  - cbn. destruct (ascii_dec old old); reflexivity.
  - cbn [list_ascii_of_string map existsb]. rewrite IH, code_eqb.
    rewrite (contains_eq _ (String c s)). cbn [String.prefix].
    destruct (Ascii.eqb old c) eqn:E.
    + apply Ascii.eqb_eq in E. subst. destruct (ascii_dec c c); [|congruence].
      destruct s; reflexivity.
    + destruct (ascii_dec old c) as [->|_]; [|reflexivity].
      rewrite Ascii.eqb_refl in E. discriminate.
Qed.

(** On ASCII text the two formatters are one. *)
Lemma text_format_rut_points (law : Text.ascii_part T) (raw : string) :
  isascii raw = true ->
  Text.format_rut (Text.points raw) = Text.points (format_rut raw).
Proof.
  intros H.
  pose proof (text_clean_rut_points law raw H) as Ec.
  destruct (contains "-" (clean_rut raw)) eqn:D.
  { rewrite (format_rut_with_dash raw D), text_format_rut_with_dash; [exact Ec|].
    rewrite Ec. change 45 with (code "-"). rewrite has_point_points. exact D. }
  destruct (Nat.lt_ge_cases (String.length (clean_rut raw)) 8) as [L|L].
  { rewrite (format_rut_short raw L), text_format_rut_short; [exact Ec|].
    rewrite Ec, points_length. exact L. }
  destruct (append_nonempty_last (clean_rut raw)) as (front & c & Hs).
  { intros E. rewrite E in L. cbn in L. lia. }
  rewrite (format_rut_insert raw front c Hs D L).
  rewrite (text_format_rut_insert (Text.points raw) (Text.points front) (code c)).
  - rewrite !points_app. reflexivity.
  - rewrite Ec, Hs, points_app. reflexivity.
  - rewrite Ec. change 45 with (code "-"). rewrite has_point_points. exact D.
  - rewrite Ec, points_length. exact L.
Qed.

End TextFormat.

Lemma sample_tables_on_ascii : Text.ascii_part Text.sample_tables.
Proof.
  intros a Ha.
  destruct a as [[] [] [] [] [] [] [] []];
    try (vm_compute in Ha; discriminate); split; vm_compute; reflexivity.
Qed.

Lemma remove_both (raw : Text.str) :
  Text.remove_point 46 (Text.remove_point 32 raw)
  = filter (fun c => negb (c =? 32) && negb (c =? 46)) raw.
Proof.
  unfold Text.remove_point. induction raw as [|c raw IH]; [reflexivity|].
  cbn [filter]. destruct (c =? 32); cbn [negb andb]; [exact IH|].
  cbn [filter]. destruct (c =? 46); cbn [negb]; now rewrite IH.
Qed.

Lemma expected_check_ascii {T : Text.Tables} (numero : Text.str) :
  In (Text.expected_check numero) (Text.points "0123456789K").
Proof.
  unfold Text.expected_check.
  set (suma := Text.weighted_values 0 _).
  pose proof (Z.mod_pos_bound suma 11 ltac:(lia)) as Hm.
  set (v := 11 - suma mod 11).
  assert (1 <= v <= 11) as Hv by (unfold v; lia).
  clearbody v. clear Hm suma.
  assert (v = 1 \/ v = 2 \/ v = 3 \/ v = 4 \/ v = 5 \/ v = 6 \/ v = 7 \/ v = 8
          \/ v = 9 \/ v = 10 \/ v = 11) as C by lia.
  repeat (destruct C as [-> | C]; [vm_compute; tauto|]).
  subst. vm_compute. tauto.
Qed.

(** ** The identifier validator: results *)

Example expected_check_18977386 : expected_check "18977386" = "2"%char.
Proof. reflexivity. Qed.

Example weights_cycle : map weight (seq 0 8) = [2; 3; 4; 5; 6; 7; 2; 3].
Proof. reflexivity. Qed.

(** C5.  [_validate_rut] answers [True] exactly when the input, with its
    spaces and periods removed and put in upper case, is 7 or 8 digits, a
    dash and the character that the weighted checksum of the digits
    expects (weights 2..7 cycling from the right; '0' for eleven, 'K' for
    ten, the digit otherwise).  The digits are those of [\d] and [int]:
    the decimal digits of any script, each with its value; the check
    character is an ASCII digit or K.  The cleaning keeps, in order and in
    upper case, the characters that are neither a space nor a period.  On
    ASCII text this is the validator on [string], for which the digits are
    '0' to '9'.  In particular "18977386-2" is valid. *)
Theorem validate_rut_checksum {T : Text.Tables} :
  Text.ascii_part T ->
  (forall raw,
     Text.clean_rut raw
     = flat_map Text.upper_of
         (filter (fun c => negb (c =? 32) && negb (c =? 46)) raw))
  /\ (forall raw,
        Text.validate_rut raw = true <->
        exists numero,
          Text.clean_rut raw = (numero ++ [45; Text.expected_check numero])%list
          /\ forallb Text.is_decimal numero = true
          /\ (length numero = 7 \/ length numero = 8)%nat)
  /\ (forall numero,
        Text.expected_check numero
        = code (check_char (11 - Text.weighted_values 0 (rev numero) mod 11))
        /\ In (Text.expected_check numero) (Text.points "0123456789K"))
  /\ (forall raw : string,
        isascii raw = true ->
        Text.validate_rut (Text.points raw) = validate_rut raw
        /\ (validate_rut raw = true <->
            exists numero c,
              rut_format (clean_rut raw) numero c /\ c = expected_check numero))
  /\ Text.validate_rut (Text.points "18977386-2") = true.
Proof.
  intros law.
  split; [intros raw; unfold Text.clean_rut, Text.upper; now rewrite remove_both|].
  split; [intros raw; apply (text_validate_rut_spec law)|].
  split; [intros numero; split; [reflexivity | apply expected_check_ascii]|].
  split.
  - intros raw H. split; [apply (text_validate_rut_points law raw H)|].
    apply validate_rut_spec.
  - rewrite (text_validate_rut_points law "18977386-2" eq_refl). reflexivity.
Qed.

(** With the tables of the examples: the identifier of the program, and
    the same with the digits of its body in their full-width forms. *)
Lemma validate_rut_checksum_witness :
  Text.validate_rut (T := Text.sample_tables) (Text.points "18977386-2") = true
  /\ Text.validate_rut (T := Text.sample_tables) Text.full_width_rut = true
  /\ exists numero,
       Text.clean_rut (T := Text.sample_tables) Text.full_width_rut
       = (numero ++ [45; Text.expected_check (T := Text.sample_tables) numero])%list
       /\ forallb (Text.is_decimal (T := Text.sample_tables)) numero = true
       /\ (length numero = 7 \/ length numero = 8)%nat.
Proof.
  split; [|split].
  - exact (proj2 (proj2 (proj2 (proj2
             (validate_rut_checksum (T := Text.sample_tables) sample_tables_on_ascii))))).
  - vm_compute. reflexivity.
  - apply (proj1 (proj2 (validate_rut_checksum (T := Text.sample_tables)
                           sample_tables_on_ascii)) Text.full_width_rut).
    vm_compute. reflexivity.
Defined.

(** A valid identifier stays valid under [_format_rut]. *)
Lemma validate_format_rut (raw : string) :
  validate_rut raw = true -> validate_rut (format_rut raw) = true.
Proof.
  intros V. pose proof V as V'. apply validate_rut_spec in V'.
  destruct V' as (numero & c & (Hs & _) & _).
  rewrite format_rut_with_dash.
  - unfold validate_rut in *. now rewrite clean_rut_idem.
  - apply contains_spec. exists numero, (String c EmptyString). exact Hs.
Qed.

(** Changing the check character to one with another upper-case form
    breaks validity. *)
Lemma validate_mutated_check (pre post : string) (c0 c' : ascii) :
  validate_rut (pre ++ String c0 post) = true ->
  kept c0 = true ->
  clean_rut post = EmptyString ->
  upper_ascii c' <> upper_ascii c0 ->
  validate_rut (pre ++ String c' post) = false.
Proof.
  intros V K0 Hpost Hneq.
  apply validate_rut_spec in V.
  destruct V as (numero & c & (Hs & Hd & _ & _) & Hc).
  rewrite clean_rut_app, clean_rut_cons, K0, Hpost in Hs.
  change (numero ++ "-" ++ String c EmptyString)
    with (numero ++ String "-" EmptyString ++ String c EmptyString) in Hs.
  rewrite <- append_assoc in Hs.
  apply append_last_inj in Hs. destruct Hs as [Hpre Hc0].
  destruct (validate_rut (pre ++ String c' post)) eqn:V'; [|reflexivity].
  exfalso. apply validate_rut_spec in V'.
  destruct V' as (numero' & c2 & (Hs' & Hd' & _ & _) & Hc2).
  rewrite clean_rut_app, clean_rut_cons, Hpost, Hpre in Hs'.
  rewrite append_assoc in Hs'. cbn [append] in Hs'.
  apply first_dash_inj in Hs'; auto.
  destruct Hs' as [<- Hx].
  destruct (kept c'); [|discriminate].
  injection Hx as Hx. apply Hneq. congruence.
Qed.




(** C7, as the program has it.  [_format_rut] removes the spaces and the
    periods (no other blank character), puts the rest in upper case and,
    when the result has no dash and at least eight characters, inserts a
    dash before its last character; a result with a dash, or shorter than
    eight characters, is returned as it is.  The characters are code
    points and the upper case is that of [str.upper], whatever the text;
    on ASCII text this is the formatter on [string]. *)
Theorem format_rut_normalizes {T : Text.Tables} (raw : Text.str) :
  Text.clean_rut raw
  = flat_map Text.upper_of
      (filter (fun c => negb (c =? 32) && negb (c =? 46)) raw)
  /\ (Text.has_point 45 (Text.clean_rut raw) = false ->
      (8 <= length (Text.clean_rut raw))%nat ->
      exists front c,
        Text.clean_rut raw = (front ++ [c])%list
        /\ Text.format_rut raw = (front ++ [45; c])%list)
  /\ (Text.has_point 45 (Text.clean_rut raw) = true
      \/ (length (Text.clean_rut raw) < 8)%nat ->
      Text.format_rut raw = Text.clean_rut raw)
  /\ (Text.ascii_part T ->
      forall s : string,
        isascii s = true ->
        Text.format_rut (Text.points s) = Text.points (format_rut s)).
Proof.
  split; [unfold Text.clean_rut, Text.upper; now rewrite remove_both|]. split; [|split].
  - intros Hd Hl.
    destruct (exists_last (l := Text.clean_rut raw)) as (front & c & Hs).
    { intros E. rewrite E in Hl. cbn in Hl. lia. }
    exists front, c. split; [exact Hs|].
    now apply text_format_rut_insert.
  - intros [H|H]; [now apply text_format_rut_with_dash | now apply text_format_rut_short].
  - intros law s Hs. exact (text_format_rut_points law s Hs).
Qed.

Lemma format_rut_normalizes_witness :
  (exists front c,
     Text.clean_rut (T := Text.sample_tables) (Text.points " 18.977.386k")
     = (front ++ [c])%list
     /\ Text.format_rut (T := Text.sample_tables) (Text.points " 18.977.386k")
        = (front ++ [45; c])%list)
  /\ Text.format_rut (T := Text.sample_tables) (Text.points "1234567")
     = Text.clean_rut (T := Text.sample_tables) (Text.points "1234567")
  /\ Text.format_rut (T := Text.sample_tables) (Text.points " 18.977.386k")
     = Text.points "18977386-K"
  /\ Text.format_rut (T := Text.sample_tables) [49; 50; 51; 52; 53; 54; 233]
     = [49; 50; 51; 52; 53; 54; 201]
  /\ Text.format_rut (T := Text.sample_tables) [49; 50; 51; 52; 53; 54; 55; 233]
     = [49; 50; 51; 52; 53; 54; 55; 45; 201]
  /\ Text.format_rut (T := Text.sample_tables) [49; 50; 51; 52; 53; 54; 223]
     = [49; 50; 51; 52; 53; 54; 83; 45; 83].
Proof.
  split; [|split; [|repeat split; vm_compute; reflexivity]].
  - apply (proj1 (proj2 (format_rut_normalizes (T := Text.sample_tables)
                           (Text.points " 18.977.386k"))));
      [vm_compute; reflexivity | vm_compute; lia].
  - apply (proj1 (proj2 (proj2 (format_rut_normalizes (T := Text.sample_tables)
                                  (Text.points "1234567"))))).
    right. vm_compute. lia.
Defined.

(** C7 as stated fails twice: a result of seven characters without a dash
    gets none, and a tab is a blank that stays. *)
Lemma format_rut_short_counterexample :
  contains "-" (clean_rut "1234567") = false
  /\ format_rut "1234567" = "1234567"
  /\ contains "-" (format_rut "1234567") = false
  /\ format_rut ("12345678" ++ TAB ++ "9") = "12345678" ++ TAB ++ "-9".
Proof. repeat split. Qed.

(** ** Running computations *)

Section Rules.

Context {S : Type}.

Lemma bind_ret_eq {A B} (m : M S A) (k : A -> M S B) (s s' : S) (a : A) :
  m s = (Ret a, s') -> bind m k s = k a s'.
Proof. intros H. unfold bind. now rewrite H. Qed.

Lemma bind_raise_eq {A B} (m : M S A) (k : A -> M S B) (s s' : S) (e : string) :
  m s = (Raise e, s') -> bind m k s = (Raise e, s').
Proof. intros H. unfold bind. now rewrite H. Qed.

Lemma try_ret_eq {A} (m : M S A) (h : string -> M S A) (s s' : S) (a : A) :
  m s = (Ret a, s') -> try_except m h s = (Ret a, s').
Proof. intros H. unfold try_except. now rewrite H. Qed.

Lemma try_raise_eq {A} (m : M S A) (h : string -> M S A) (s s' : S) (e : string) :
  m s = (Raise e, s') -> try_except m h s = h e s'.
Proof. intros H. unfold try_except. now rewrite H. Qed.

(** *** No fault leaves *)

Lemma never_raises_ret {A} (a : A) : never_raises (ret a : M S A).
Proof. intros s. exists a, s. reflexivity. Qed.

Lemma never_raises_gets {A} (f : S -> A) : never_raises (gets f).
Proof. intros s. exists (f s), s. reflexivity. Qed.

Lemma never_raises_bind {A B} (m : M S A) (k : A -> M S B) :
  never_raises m -> (forall a, never_raises (k a)) -> never_raises (bind m k).
Proof.
  intros Hm Hk s. destruct (Hm s) as (a & s1 & E).
  rewrite (bind_ret_eq _ _ _ _ _ E). apply Hk.
Qed.

(** A [try] whose handler cannot raise lets nothing through. *)
Lemma never_raises_try {A} (m : M S A) (h : string -> M S A) :
  (forall e, never_raises (h e)) -> never_raises (try_except m h).
Proof.
  intros Hh s. unfold try_except. destruct (m s) as [[a|e] s1].
  - exists a, s1. reflexivity.
  - apply Hh.
Qed.

Lemma never_raises_when (c : bool) (m : M S unit) :
  never_raises m -> never_raises (when c m).
Proof. intros H. destruct c; [exact H | apply never_raises_ret]. Qed.

Lemma never_raises_for_ {X} (l : list X) (body : X -> M S unit) :
  (forall x, never_raises (body x)) -> never_raises (for_ l body).
Proof.
  intros H. induction l as [|x l IH]; cbn [for_].
  - apply never_raises_ret.
  - apply never_raises_bind; [apply H | intros _; exact IH].
Qed.

Lemma never_raises_for_first {X A} (l : list X) (body : X -> M S (option A)) :
  (forall x, never_raises (body x)) -> never_raises (for_first l body).
Proof.
  intros H. induction l as [|x l IH]; cbn [for_first].
  - apply never_raises_ret.
  - apply never_raises_bind; [apply H|].
    intros [a|]; [apply never_raises_ret | exact IH].
Qed.

(** *** What is returned *)

Lemma returns_ret {A} (a : A) (P : A -> Prop) : P a -> returns (ret a : M S A) P.
Proof. intros H s a' s' E. injection E as <- _. exact H. Qed.

Lemma returns_bind {A B} (m : M S A) (k : A -> M S B) (P : B -> Prop) :
  (forall a, returns (k a) P) -> returns (bind m k) P.
Proof.
  intros Hk s b s' E. unfold bind in E. destruct (m s) as [[a|e] s1].
  - exact (Hk a _ _ _ E).
  - discriminate.
Qed.

Lemma returns_bind_with {A B} (m : M S A) (k : A -> M S B)
    (Q : A -> Prop) (P : B -> Prop) :
  returns m Q -> (forall a, Q a -> returns (k a) P) -> returns (bind m k) P.
Proof.
  intros Hm Hk s b s' E. unfold bind in E. destruct (m s) as [[a|e] s1] eqn:Em.
  - exact (Hk a (Hm _ _ _ Em) _ _ _ E).
  - discriminate.
Qed.

Lemma returns_try {A} (m : M S A) (h : string -> M S A) (P : A -> Prop) :
  returns m P -> (forall e, returns (h e) P) -> returns (try_except m h) P.
Proof.
  intros Hm Hh s a s' E. unfold try_except in E.
  destruct (m s) as [[a0|e] s1] eqn:Em.
  - injection E as <- _. exact (Hm _ _ _ Em).
  - exact (Hh e _ _ _ E).
Qed.

Lemma returns_weaken {A} (m : M S A) (P Q : A -> Prop) :
  returns m P -> (forall a, P a -> Q a) -> returns m Q.
Proof. intros H HPQ s a s' E. apply HPQ. exact (H _ _ _ E). Qed.

Lemma returns_for_first {X A} (l : list X) (body : X -> M S (option A))
    (P : A -> Prop) :
  (forall x, returns (body x) (if_some P)) -> returns (for_first l body) (if_some P).
Proof.
  intros H. induction l as [|x l IH]; cbn [for_first].
  - apply returns_ret. intros a E; discriminate.
  - apply returns_bind_with with (Q := if_some P); [apply H|].
    intros [a|] Ha; [apply returns_ret; exact Ha | exact IH].
Qed.

End Rules.

(** *** Locals *)

Lemma with_local_never_raises {L W A} (l0 : L) (m : M (L * W) A) :
  never_raises m -> never_raises (with_local l0 m).
Proof.
  intros H w. unfold with_local. destruct (H (l0, w)) as (a & [l w'] & E).
  rewrite E. exists a, w'. reflexivity.
Qed.

Lemma lift_ret_eq {L W A} (m : M W A) (l : L) (w w' : W) (r : res A) :
  m w = (r, w') -> lift m (l, w) = (r, (l, w')).
Proof. intros H. unfold lift. cbn [fst snd]. now rewrite H. Qed.

(** ** The interstitial guard *)

Section Guard.

Context {W E : Type} {B : Browser W E}.

Lemma close_modal_never_raises (modal : E) (selector : string) :
  never_raises (close_modal modal selector).
Proof. apply never_raises_try. intros _. apply never_raises_ret. Qed.

Lemma detect_and_close_modals_never_raises :
  never_raises detect_and_close_modals.
Proof. apply never_raises_try. intros _. apply never_raises_ret. Qed.

(** The probe reports the elements [elems] and their visibility [vis],
    whatever else the page does. *)
Variable elems : string -> list E.
Variable vis : E -> bool.
Hypothesis probe_elements :
  forall selector w, fst (query_selector_all selector w) = Ret (elems selector).
Hypothesis probe_visible :
  forall e w, fst (eval_is_visible e w) = Ret (vis e).

Lemma check_modal_flag (selector : string) (modal : E) (found : bool) (w : W) :
  exists r w',
    check_modal selector modal (found, w) = (r, (found || vis modal, w'))
    /\ (r = Ret tt \/ vis modal = true).
Proof.
  unfold check_modal.
  destruct (eval_is_visible modal w) as [r1 w1] eqn:E1.
  pose proof (probe_visible modal w) as Hv. rewrite E1 in Hv. cbn in Hv. subst r1.
  rewrite (bind_ret_eq _ _ _ _ _ (lift_ret_eq _ found _ _ _ E1)).
  destruct (vis modal); cbn [when].
  - unfold bind at 1. cbn [set_local snd].
    destruct (close_modal_never_raises modal selector w1) as (closed & w2 & E2).
    rewrite (bind_ret_eq _ _ _ _ _ (lift_ret_eq _ true _ _ _ E2)).
    destruct closed; cbn [when].
    + destruct (wait_for_timeout 1000 w2) as [r3 w3] eqn:E3.
      rewrite (lift_ret_eq _ true _ _ _ E3). exists r3, w3.
      rewrite orb_true_r. auto.
    + exists (Ret tt), w2. rewrite orb_true_r. auto.
  - exists (Ret tt), w1. rewrite orb_false_r. auto.
Qed.

Lemma modals_loop_flag (selector : string) (modals : list E) (found : bool) (w : W) :
  exists r w',
    for_ modals (check_modal selector) (found, w)
    = (r, (found || existsb vis modals, w')).
Proof.
  revert found w; induction modals as [|modal modals IH]; intros found w;
    cbn [for_ existsb].
  - exists (Ret tt), w. rewrite orb_false_r. reflexivity.
  - destruct (check_modal_flag selector modal found w) as (r & w1 & E1 & Hr).
    destruct r as [[]|e].
    + rewrite (bind_ret_eq _ _ _ _ _ E1).
      destruct (IH (found || vis modal) w1) as (r2 & w2 & E2).
      exists r2, w2. rewrite E2, orb_assoc. reflexivity.
    + rewrite (bind_raise_eq _ _ _ _ _ E1).
      destruct Hr as [Hr|Hr]; [discriminate|].
      exists (Raise e), w1. rewrite Hr, !orb_true_r. reflexivity.
Qed.

Lemma check_selector_flag (selector : string) (found : bool) (w : W) :
  exists w',
    check_selector selector (found, w)
    = (Ret tt, (found || existsb vis (elems selector), w')).
Proof.
  unfold check_selector.
  destruct (query_selector_all selector w) as [r1 w1] eqn:E1.
  pose proof (probe_elements selector w) as Hq. rewrite E1 in Hq. cbn in Hq. subst r1.
  destruct (modals_loop_flag selector (elems selector) found w1) as (r & w2 & E2).
  unfold try_except.
  rewrite (bind_ret_eq _ _ _ _ _ (lift_ret_eq _ found _ _ _ E1)), E2.
  destruct r as [[]|e]; exists w2; reflexivity.
Qed.

Lemma selectors_loop_flag (selectors : list string) (found : bool) (w : W) :
  exists w',
    for_ selectors check_selector (found, w)
    = (Ret tt,
       (found || existsb (fun selector => existsb vis (elems selector)) selectors, w')).
Proof.
  revert found w; induction selectors as [|selector selectors IH]; intros found w;
    cbn [for_ existsb].
  - exists w. rewrite orb_false_r. reflexivity.
  - destruct (check_selector_flag selector found w) as (w1 & E1).
    rewrite (bind_ret_eq _ _ _ _ _ E1).
    destruct (IH (found || existsb vis (elems selector)) w1) as (w2 & E2).
    exists w2. rewrite E2, orb_assoc. reflexivity.
Qed.

(** What the guard answers on such a probe. *)
Lemma detect_and_close_modals_flag (w : W) :
  exists w',
    detect_and_close_modals w
    = (Ret (existsb (fun selector => existsb vis (elems selector)) modal_selectors), w').
Proof.
  unfold detect_and_close_modals.
  destruct (selectors_loop_flag modal_selectors false w) as (w1 & E1).
  exists w1. apply try_ret_eq. unfold with_local.
  rewrite (bind_ret_eq _ _ _ _ _ E1). reflexivity.
Qed.

End Guard.

(** *** Every browser: the answer is the mark of the watch *)

Section Watch.

Context {W E : Type} {B : Browser W E}.

Lemma erases_lift {A} (m : M W A) : erases (lift m) m.
Proof. intros mark w. unfold lift. cbn [fst snd]. destruct (m w); reflexivity. Qed.

Lemma erases_ret {A} (a : A) : erases (W := W) (ret a) (ret a).
Proof. intros mark w. reflexivity. Qed.

Lemma erases_bind {A C} (m' : M (bool * W) A) (m : M W A)
    (k' : A -> M (bool * W) C) (k : A -> M W C) :
  erases m' m -> (forall a, erases (k' a) (k a)) -> erases (bind m' k') (bind m k).
Proof.
  intros Hm Hk mark w. unfold bind. rewrite Hm.
  destruct (m w) as [[a|e] w1]; [apply Hk | reflexivity].
Qed.

Lemma erases_try {A} (m' : M (bool * W) A) (m : M W A)
    (h' : string -> M (bool * W) A) (h : string -> M W A) :
  erases m' m -> (forall e, erases (h' e) (h e)) ->
  erases (try_except m' h') (try_except m h).
Proof.
  intros Hm Hh mark w. unfold try_except. rewrite Hm.
  destruct (m w) as [[a|e] w1]; [reflexivity | apply Hh].
Qed.

Lemma erases_for_first {X A} (l : list X)
    (body' : X -> M (bool * W) (option A)) (body : X -> M W (option A)) :
  (forall x, erases (body' x) (body x)) ->
  erases (for_first l body') (for_first l body).
Proof.
  intros Hb. induction l as [|x l IH]; cbn [for_first]; [apply erases_ret|].
  apply erases_bind; [apply Hb|]. intros [a|]; [apply erases_ret | exact IH].
Qed.

(** The dismissal makes no visibility probe of the guard's kind. *)
Lemma close_modal_erases (modal : E) (selector : string) :
  erases (close_modal (B := watched B) modal selector)
         (close_modal (B := B) modal selector).
Proof.
  unfold close_modal.
  apply erases_try; [|intros _; apply erases_ret].
  apply erases_bind.
  - apply erases_for_first. intros close_selector.
    apply erases_try; [|intros _; apply erases_ret].
    apply erases_bind; [exact (erases_lift _)|].
    intros [button|]; [|apply erases_ret].
    apply erases_bind; [exact (erases_lift _)|]. intros _.
    apply erases_bind; [exact (erases_lift _)|]. intros _.
    apply erases_ret.
  - intros [r|]; [apply erases_ret|].
    apply erases_bind; [exact (erases_lift _)|]. intros _.
    apply erases_bind; [exact (erases_lift _)|]. intros _.
    apply erases_bind; [exact (erases_lift _)|]. intros is_still_visible.
    destruct (negb is_still_visible); [apply erases_ret|].
    apply erases_bind; [exact (erases_lift _)|]. intros _.
    apply erases_bind; [exact (erases_lift _)|]. intros _.
    apply erases_bind; [exact (erases_lift _)|]. intros _.
    apply erases_ret.
Qed.

Lemma tracks_ret {A} (a : A) : tracks (W := W) (ret a) (ret a).
Proof. intros found w. reflexivity. Qed.

Lemma tracks_get_local : tracks (W := W) get_local get_local.
Proof. intros found w. reflexivity. Qed.

Lemma tracks_lift {A} (m' : M (bool * W) A) (m : M W A) :
  erases m' m -> tracks (lift m') (lift m).
Proof.
  intros Hm found w. unfold lift. cbn [fst snd]. rewrite Hm.
  destruct (m w); reflexivity.
Qed.

Lemma tracks_bind {A C} (m' : M (bool * (bool * W)) A) (m : M (bool * W) A)
    (k' : A -> M (bool * (bool * W)) C) (k : A -> M (bool * W) C) :
  tracks m' m -> (forall a, tracks (k' a) (k a)) -> tracks (bind m' k') (bind m k).
Proof.
  intros Hm Hk found w. unfold bind. rewrite Hm.
  destruct (m (found, w)) as [[a|e] [found1 w1]]; [apply Hk | reflexivity].
Qed.

Lemma tracks_try {A} (m' : M (bool * (bool * W)) A) (m : M (bool * W) A)
    (h' : string -> M (bool * (bool * W)) A) (h : string -> M (bool * W) A) :
  tracks m' m -> (forall e, tracks (h' e) (h e)) ->
  tracks (try_except m' h') (try_except m h).
Proof.
  intros Hm Hh found w. unfold try_except. rewrite Hm.
  destruct (m (found, w)) as [[a|e] [found1 w1]]; [reflexivity | apply Hh].
Qed.

Lemma tracks_when (c : bool) (m' : M (bool * (bool * W)) unit)
    (m : M (bool * W) unit) :
  tracks m' m -> tracks (when c m') (when c m).
Proof. intros Hm. destruct c; [exact Hm | apply tracks_ret]. Qed.

Lemma tracks_for_ {X} (l : list X) (body' : X -> M (bool * (bool * W)) unit)
    (body : X -> M (bool * W) unit) :
  (forall x, tracks (body' x) (body x)) -> tracks (for_ l body') (for_ l body).
Proof.
  intros Hb. induction l as [|x l IH]; cbn [for_]; [apply tracks_ret|].
  apply tracks_bind; [apply Hb | intros _; exact IH].
Qed.

(** After a probe that answered [True] the mark and the local are both
    set; the rest of the body touches neither. *)
Lemma check_modal_tracks (selector : string) (modal : E) :
  tracks (check_modal (B := watched B) selector modal)
         (check_modal (B := B) selector modal).
Proof.
  assert (tracks
            (closed <- lift (close_modal (B := watched B) modal selector) ;;
             when closed (lift (wait_for_timeout (Browser := watched B) 1000)))
            (closed <- lift (close_modal (B := B) modal selector) ;;
             when closed (lift (wait_for_timeout (Browser := B) 1000)))) as Ht.
  { apply tracks_bind; [apply tracks_lift, close_modal_erases|].
    intros closed. apply tracks_when, tracks_lift. exact (erases_lift _). }
  intros found w. unfold check_modal.
  destruct (eval_is_visible modal w) as [[v|e] w1] eqn:Ev.
  - assert (lift (eval_is_visible (Browser := watched B) modal) (found, (found, w))
            = (Ret v, (found, (found || v, w1)))) as El.
    { unfold lift. cbn [fst snd eval_is_visible watched]. unfold watch.
      cbn [fst snd]. rewrite Ev. reflexivity. }
    rewrite (bind_ret_eq _ _ _ _ _ El).
    rewrite (bind_ret_eq _ _ _ _ _ (lift_ret_eq _ found _ _ _ Ev)).
    destruct v; cbn [when].
    + rewrite orb_true_r.
      rewrite (bind_ret_eq (set_local true) _ (found, (true, w1)) (true, (true, w1))
                 tt eq_refl).
      rewrite (bind_ret_eq (set_local true) _ (found, w1) (true, w1) tt eq_refl).
      exact (Ht true w1).
    + rewrite orb_false_r. reflexivity.
  - assert (lift (eval_is_visible (Browser := watched B) modal) (found, (found, w))
            = (Raise e, (found, (found, w1)))) as El.
    { unfold lift. cbn [fst snd eval_is_visible watched]. unfold watch.
      cbn [fst snd]. rewrite Ev. reflexivity. }
    rewrite (bind_raise_eq _ _ _ _ _ El).
    rewrite (bind_raise_eq _ _ _ _ _ (lift_ret_eq _ found _ _ _ Ev)).
    reflexivity.
Qed.

Lemma check_selector_tracks (selector : string) :
  tracks (check_selector (B := watched B) selector)
         (check_selector (B := B) selector).
Proof.
  unfold check_selector.
  apply tracks_try; [|intros _; apply tracks_ret].
  apply tracks_bind; [apply tracks_lift; exact (erases_lift _)|].
  intros modals. apply tracks_for_. intros modal. apply check_modal_tracks.
Qed.

Lemma check_selector_never_raises (selector : string) :
  never_raises (check_selector (B := B) selector).
Proof. apply never_raises_try. intros _. apply never_raises_ret. Qed.

(** The answer of the guard is the mark that its run leaves. *)
Lemma detect_and_close_modals_watched (w : W) :
  exists found w',
    detect_and_close_modals (B := B) w = (Ret found, w')
    /\ detect_and_close_modals (B := watched B) (false, w)
       = (Ret found, (found, w')).
Proof.
  assert (tracks
            (for_ modal_selectors (check_selector (B := watched B)) ;; get_local)
            (for_ modal_selectors (check_selector (B := B)) ;; get_local)) as Ht.
  { apply tracks_bind; [|intros _; apply tracks_get_local].
    apply tracks_for_. intros selector. apply check_selector_tracks. }
  specialize (Ht false w).
  destruct (never_raises_for_ modal_selectors (check_selector (B := B))
              check_selector_never_raises (false, w)) as ([] & [found w'] & Ef).
  assert ((for_ modal_selectors (check_selector (B := B)) ;; get_local) (false, w)
          = (Ret found, (found, w'))) as Eb.
  { unfold bind. rewrite Ef. reflexivity. }
  rewrite Eb in Ht.
  exists found, w'. split.
  - unfold detect_and_close_modals, try_except, with_local. rewrite Eb. reflexivity.
  - unfold detect_and_close_modals, try_except, with_local. rewrite Ht. reflexivity.
Qed.

(** A probe that never answers [True] leaves the local as it is. *)
Hypothesis nothing_visible :
  forall e w, fst (eval_is_visible e w) <> Ret true.

Lemma check_modal_quiet (selector : string) (modal : E) (found : bool) (w : W) :
  exists r w', check_modal selector modal (found, w) = (r, (found, w')).
Proof.
  unfold check_modal, bind, lift. cbn [fst snd].
  pose proof (nothing_visible modal w) as Hn.
  destruct (eval_is_visible modal w) as [[[|]|e] w1]; cbn [fst] in Hn.
  - congruence.
  - eexists _, w1. reflexivity.
  - eexists _, w1. reflexivity.
Qed.

Lemma modals_loop_quiet (selector : string) (modals : list E) (found : bool) (w : W) :
  exists r w', for_ modals (check_modal selector) (found, w) = (r, (found, w')).
Proof.
  revert w; induction modals as [|modal modals IH]; intros w; cbn [for_].
  - eexists _, w. reflexivity.
  - destruct (check_modal_quiet selector modal found w) as (r & w1 & E1).
    unfold bind. rewrite E1. destruct r as [[]|e]; [apply IH|].
    eexists _, w1. reflexivity.
Qed.

Lemma check_selector_quiet (selector : string) (found : bool) (w : W) :
  exists w', check_selector selector (found, w) = (Ret tt, (found, w')).
Proof.
  unfold check_selector, try_except, bind, lift. cbn [fst snd].
  destruct (query_selector_all selector w) as [[modals|e] w1].
  - destruct (modals_loop_quiet selector modals found w1) as (r & w2 & E2).
    fold (@bind (bool * W)) in *. rewrite E2.
    destruct r as [[]|e]; exists w2; reflexivity.
  - exists w1. reflexivity.
Qed.

Lemma selectors_loop_quiet (selectors : list string) (found : bool) (w : W) :
  exists w', for_ selectors check_selector (found, w) = (Ret tt, (found, w')).
Proof.
  revert w; induction selectors as [|selector selectors IH]; intros w; cbn [for_].
  - exists w. reflexivity.
  - destruct (check_selector_quiet selector found w) as (w1 & E1).
    unfold bind. rewrite E1. apply IH.
Qed.

Lemma detect_and_close_modals_quiet (w : W) :
  exists w', detect_and_close_modals w = (Ret false, w').
Proof.
  destruct (selectors_loop_quiet modal_selectors false w) as (w1 & E1).
  exists w1. unfold detect_and_close_modals, try_except, with_local, bind.
  rewrite E1. reflexivity.
Qed.

End Watch.

Section Raised.

Context {W E : Type} {B : Browser W E}.

(** Once set, the local stays set. *)
Lemma check_modal_set (selector : string) (modal : E) (w : W) :
  exists r w', check_modal selector modal (true, w) = (r, (true, w')).
Proof.
  unfold check_modal, bind, lift, when, set_local. cbn [fst snd].
  destruct (eval_is_visible modal w) as [[[|]|e] w1]; cbn [fst snd].
  - destruct (close_modal modal selector w1) as [[[|]|e] w2]; cbn [fst snd].
    + destruct (wait_for_timeout 1000 w2) as [r w3]. eexists _, w3. reflexivity.
    + eexists _, w2. reflexivity.
    + eexists _, w2. reflexivity.
  - eexists _, w1. reflexivity.
  - eexists _, w1. reflexivity.
Qed.

Lemma modals_loop_set (selector : string) (modals : list E) (w : W) :
  exists r w', for_ modals (check_modal selector) (true, w) = (r, (true, w')).
Proof.
  revert w; induction modals as [|modal modals IH]; intros w; cbn [for_].
  - eexists _, w. reflexivity.
  - destruct (check_modal_set selector modal w) as (r & w1 & E1).
    unfold bind. rewrite E1. destruct r as [[]|e]; [apply IH|].
    eexists _, w1. reflexivity.
Qed.

Lemma check_selector_set (selector : string) (w : W) :
  exists w', check_selector selector (true, w) = (Ret tt, (true, w')).
Proof.
  unfold check_selector, try_except.
  unfold bind at 1. unfold lift. cbn [fst snd].
  destruct (query_selector_all selector w) as [[modals|e] w1].
  - destruct (modals_loop_set selector modals w1) as (r & w2 & E2).
    rewrite E2. destruct r as [[]|e]; exists w2; reflexivity.
  - exists w1. reflexivity.
Qed.

Lemma selectors_loop_set (selectors : list string) (w : W) :
  exists w', for_ selectors check_selector (true, w) = (Ret tt, (true, w')).
Proof.
  revert w; induction selectors as [|selector selectors IH]; intros w; cbn [for_].
  - exists w. reflexivity.
  - destruct (check_selector_set selector w) as (w1 & E1).
    unfold bind. rewrite E1. apply IH.
Qed.

Lemma check_modal_hit (selector : string) (modal : E) (found : bool) (w w1 : W) :
  eval_is_visible modal w = (Ret true, w1) ->
  exists r w', check_modal selector modal (found, w) = (r, (true, w')).
Proof.
  intros Hv. unfold check_modal, bind, lift, when, set_local. cbn [fst snd].
  rewrite Hv. cbn [fst snd].
  destruct (close_modal modal selector w1) as [[[|]|e] w2]; cbn [fst snd].
  - destruct (wait_for_timeout 1000 w2) as [r w3]. eexists _, w3. reflexivity.
  - eexists _, w2. reflexivity.
  - eexists _, w2. reflexivity.
Qed.

(** The first element of the first selector, visible when it is probed:
    the guard answers [True], whatever the dismissal then does to the
    page. *)
Lemma detect_and_close_modals_first (w w1 w2 : W) (modal : E) (modals : list E) :
  query_selector_all ".modal" w = (Ret (modal :: modals), w1) ->
  eval_is_visible modal w1 = (Ret true, w2) ->
  exists w', detect_and_close_modals w = (Ret true, w').
Proof.
  intros Hq Hv.
  assert (exists w3, check_selector ".modal" (false, w) = (Ret tt, (true, w3)))
    as (w3 & E3).
  { unfold check_selector, try_except.
    unfold bind at 1. unfold lift at 1. cbn [fst snd]. rewrite Hq.
    cbn [for_]. unfold bind at 1.
    destruct (check_modal_hit ".modal" modal false w1 w2 Hv) as (r & w4 & E4).
    rewrite E4. destruct r as [[]|e].
    - destruct (modals_loop_set ".modal" modals w4) as (r & w5 & E5).
      rewrite E5. destruct r as [[]|e]; exists w5; reflexivity.
    - exists w4. reflexivity. }
  destruct (selectors_loop_set (tl modal_selectors) w3) as (w4 & E4).
  exists w4. unfold detect_and_close_modals, try_except, with_local.
  change modal_selectors with (".modal" :: tl modal_selectors).
  cbn [for_]. unfold bind. rewrite E3, E4. reflexivity.
Qed.

End Raised.

(** C9.  [_detect_and_close_modals] never raises, and it answers [True]
    exactly when one of its visibility probes, made on the elements of the
    overlay selectors as the page has them at that moment, answers [True]:
    for every browser, the answer is the mark that the run leaves on the
    watched browser.  What the dismissal does plays no part: it may find
    no close control, fail, or take the overlay away.  So the guard
    answers [False] when no probe answers [True], and [True] as soon as
    one does, for instance the first; and on a page whose probes do not
    change it answers [True] exactly when some overlay selector has a
    visible element. *)
Theorem detect_and_close_modals_presence {W E : Type} {B : Browser W E} :
  never_raises detect_and_close_modals
  /\ (forall w, exists found w',
        detect_and_close_modals (B := B) w = (Ret found, w')
        /\ detect_and_close_modals (B := watched B) (false, w)
           = (Ret found, (found, w')))
  /\ ((forall e w, fst (eval_is_visible e w) <> Ret true) ->
      forall w, exists w', detect_and_close_modals w = (Ret false, w'))
  /\ (forall w w1 w2 modal modals,
        query_selector_all ".modal" w = (Ret (modal :: modals), w1) ->
        eval_is_visible modal w1 = (Ret true, w2) ->
        exists w', detect_and_close_modals w = (Ret true, w'))
  /\ forall (elems : string -> list E) (vis : E -> bool),
       (forall selector w,
          fst (query_selector_all selector w) = Ret (elems selector)) ->
       (forall e w, fst (eval_is_visible e w) = Ret (vis e)) ->
       forall w, exists found w',
         detect_and_close_modals w = (Ret found, w')
         /\ (found = true <->
             exists selector e,
               In selector modal_selectors /\ In e (elems selector)
               /\ vis e = true).
Proof.
  split; [apply detect_and_close_modals_never_raises|].
  split; [apply detect_and_close_modals_watched|].
  split; [apply detect_and_close_modals_quiet|].
  split; [apply detect_and_close_modals_first|].
  intros elems vis Hq Hv w.
  destruct (detect_and_close_modals_flag elems vis Hq Hv w) as (w' & Ew).
  eexists _, w'. split; [exact Ew|].
  rewrite existsb_exists. split.
  - intros (selector & Hs & He). apply existsb_exists in He.
    destruct He as (e & He & Hvis). exists selector, e. auto.
  - intros (selector & e & Hs & He & Hvis). exists selector. split; [exact Hs|].
    apply existsb_exists. exists e. auto.
Qed.

(** A visible dialog without a close control whose dismissal fails: the
    guard answers [True]; on a page without overlay it answers [False].
    And a dialog that the Escape key closes: the guard answers [True] and
    leaves the page without it, so that its next run answers [False]. *)
Lemma detect_and_close_modals_presence_witness :
  (exists found w',
     detect_and_close_modals (B := still (page_under_dialog site EmptyString)) tt
     = (Ret found, w')
     /\ (found = true <->
         exists selector e,
           In selector modal_selectors
           /\ In e (matching (page_under_dialog site EmptyString) selector)
           /\ shown (page_under_dialog site EmptyString) e = true))
  /\ on_page (page_under_dialog site EmptyString)
       (fun B => detect_and_close_modals) = Ret true
  /\ on_page (plain_page site EmptyString)
       (fun B => detect_and_close_modals) = Ret false
  /\ (exists w',
        detect_and_close_modals (B := still (plain_page site EmptyString)) tt
        = (Ret false, w'))
  /\ (exists found w',
        detect_and_close_modals
          (B := closing (page_under_stubborn_dialog site EmptyString)) true
        = (Ret found, w')
        /\ detect_and_close_modals
             (B := watched (closing (page_under_stubborn_dialog site EmptyString)))
             (false, true)
           = (Ret found, (found, w')))
  /\ detect_and_close_modals
       (B := closing (page_under_stubborn_dialog site EmptyString)) true
     = (Ret true, false)
  /\ detect_and_close_modals
       (B := closing (page_under_stubborn_dialog site EmptyString)) false
     = (Ret false, false).
Proof.
  split; [|split; [reflexivity|split; [reflexivity|split; [|split]]]].
  - apply (proj2 (proj2 (proj2 (proj2 (detect_and_close_modals_presence
                    (B := still (page_under_dialog site EmptyString))))))
             (matching (page_under_dialog site EmptyString))
             (shown (page_under_dialog site EmptyString)));
      intros; reflexivity.
  - apply (proj1 (proj2 (proj2 (detect_and_close_modals_presence
                    (B := still (plain_page site EmptyString)))))).
    intros e []. cbn. discriminate.
  - apply (proj1 (proj2 (detect_and_close_modals_presence
                    (B := closing (page_under_stubborn_dialog site EmptyString))))).
  - split; vm_compute; reflexivity.
Defined.

(** ** The automatic policy *)

(** [run_single_check] hands the policy the three error statuses only. *)
Lemma needs_error_handling_statuses (result : Outcome) :
  needs_error_handling result = true ->
  available result = Some false
  /\ in_list (status result)
       ["timeout_error"; "estatus_error"; "no_availability_error"] = true.
Proof.
  unfold needs_error_handling.
  destruct (available result) as [[|]|]; try discriminate. auto.
Qed.

(** C3, as the program has it.  [handle_error_automatically] always
    returns, and its answer is decided by the guard first: when the guard
    finds an overlay the answer is 'retry_without_restart' for every
    outcome; otherwise 'continue' is the answer for the statuses
    'no_availability_error' and 'no_availability_content' and
    'retry_without_restart' for every other status.  A 'timeout_error'
    therefore always yields 'retry_without_restart'. *)
Theorem handle_error_automatically_policy {W E : Type} {B : Browser W E}
    (error_info : Outcome) (w : W) :
  exists modal_closed action w',
    detect_and_close_modals w = (Ret modal_closed, w')
    /\ handle_error_automatically error_info w = (Ret action, w')
    /\ (status error_info = "timeout_error" -> action = "retry_without_restart")
    /\ (modal_closed = true -> action = "retry_without_restart")
    /\ (modal_closed = false ->
        in_list (status error_info)
          ["no_availability_error"; "no_availability_content"] = true ->
        action = "continue")
    /\ (in_list (status error_info)
          ["no_availability_error"; "no_availability_content"] = false ->
        action = "retry_without_restart").
Proof.
  destruct (detect_and_close_modals_never_raises w) as (modal_closed & w' & Ed).
  exists modal_closed.
  unfold handle_error_automatically.
  rewrite (bind_ret_eq _ _ _ _ _ Ed).
  destruct modal_closed.
  - exists "retry_without_restart", w'. repeat split; auto. discriminate.
  - destruct (in_list (status error_info) ["timeout_error"; "estatus_error"]) eqn:T.
    + exists "retry_without_restart", w'. repeat split; auto.
      intros _ H. exfalso. revert T H. unfold in_list. cbn [existsb].
      rewrite !orb_false_r, !orb_true_iff, !String.eqb_eq.
      intros [-> | ->] [H | H]; discriminate.
    + destruct (in_list (status error_info)
                  ["no_availability_error"; "no_availability_content"]) eqn:N.
      * exists "continue", w'. repeat split; auto; try discriminate.
        intros Hs. rewrite Hs in T. discriminate.
      * exists "retry_without_restart", w'. repeat split; auto; discriminate.
Qed.

Lemma handle_error_automatically_policy_witness :
  on_page (plain_page site EmptyString)
    (fun B => handle_error_automatically
                (outcome (Some false) "no_availability_error" "Sin disponibilidad" site
                   "2025-01-01T00:00:00"))
  = Ret "continue".
Proof.
  destruct (handle_error_automatically_policy
              (B := still (plain_page site EmptyString))
              (outcome (Some false) "no_availability_error" "Sin disponibilidad" site
                 "2025-01-01T00:00:00") tt)
    as (modal_closed & action & w' & Ed & Eh & _ & _ & Hc & _).
  unfold on_page. rewrite Eh. cbn [fst]. f_equal.
  apply Hc; [|reflexivity].
  assert (fst (detect_and_close_modals (B := still (plain_page site EmptyString)) tt)
          = Ret false) as F by reflexivity.
  rewrite Ed in F. cbn in F. now injection F.
Defined.

(** C3 as stated fails on both counts: with an overlay on the page a
    'no_availability_error' is answered by 'retry_without_restart', and so
    is, on any page, the unavailable outcome of the URL rule, whose status
    'no_availability' is in neither list. *)
Lemma handle_error_automatically_counterexample :
  on_page (page_under_dialog site EmptyString)
    (fun B => handle_error_automatically
                (outcome (Some false) "no_availability_error" "Sin disponibilidad" site
                   "2025-01-01T00:00:00"))
  = Ret "retry_without_restart"
  /\ on_page (plain_page site EmptyString)
       (fun B => handle_error_automatically
                   (outcome (Some false) "no_availability"
                      "No existen horas disponibles en la especialidad solicitada"
                      site "2025-01-01T00:00:00"))
     = Ret "retry_without_restart".
Proof. split; reflexivity. Qed.

(** ** The outcomes and their ['available'] field *)

Section Outcomes.

Context {W E : Type} {B : Browser W E}.
Variable cfg : Config.

Lemma error_result_consistent (found_errors : list string) (u ts : string) :
  consistent (error_result found_errors u ts).
Proof.
  unfold error_result.
  destruct (_ || _); [reflexivity|]. destruct (_ || _); reflexivity.
Qed.

Lemma error_result_status (found_errors : list string) (u ts : string) :
  in_list (status (error_result found_errors u ts)) error_statuses = true
  /\ available (error_result found_errors u ts) <> Some true.
Proof.
  unfold error_result.
  destruct (_ || _); [split; [reflexivity | discriminate]|].
  destruct (_ || _); split; try reflexivity; discriminate.
Qed.

Lemma check_error_messages_consistent :
  returns check_error_messages (if_some consistent).
Proof.
  apply returns_try; [|intros e; apply returns_ret; intros o H; discriminate].
  apply returns_bind; intros content.
  apply returns_bind; intros found_errors. cbv zeta.
  destruct (scan_patterns content found_errors) as [|x l] eqn:Sc.
  - apply returns_ret. intros o H; discriminate.
  - apply returns_bind; intros u. apply returns_bind; intros ts.
    apply returns_ret. intros o H. injection H as <-.
    apply error_result_consistent.
Qed.

Lemma probe_next_step_consistent (current_url : string) :
  returns (probe_next_step current_url) (if_some consistent).
Proof.
  apply returns_for_first. intros selector.
  apply returns_bind; intros [element|].
  - apply returns_bind; intros ts. apply returns_ret.
    intros o H. injection H as <-. reflexivity.
  - apply returns_ret. intros o H; discriminate.
Qed.

Lemma classify_content_consistent (current_url content : string) :
  returns (classify_content current_url content) consistent.
Proof.
  unfold classify_content. cbv zeta.
  destruct (first_keyword no_availability_keywords _) as [keyword|].
  { apply returns_bind; intros ts. apply returns_ret. reflexivity. }
  destruct (first_keyword availability_keywords _) as [keyword|].
  { apply returns_bind; intros ts. apply returns_ret. reflexivity. }
  apply returns_bind_with with (Q := if_some consistent);
    [apply probe_next_step_consistent|].
  intros [o|] Ho.
  - apply returns_ret. apply Ho. reflexivity.
  - apply returns_bind; intros ts. apply returns_ret. reflexivity.
Qed.

Lemma continue_availability_check_consistent :
  returns continue_availability_check consistent.
Proof.
  apply returns_try.
  - apply returns_bind; intros u. apply returns_bind; intros content.
    apply classify_content_consistent.
  - intros e. apply returns_bind; intros u. apply returns_bind; intros ts.
    apply returns_ret. reflexivity.
Qed.

Lemma judge_after_click_consistent :
  returns judge_after_click (if_return consistent).
Proof.
  apply returns_bind_with with (Q := if_some consistent);
    [apply check_error_messages_consistent|].
  intros [error_info|] He.
  - destruct (in_list _ _).
    + apply returns_bind; intros _. apply returns_ret. exact I.
    + apply returns_ret. apply He. reflexivity.
  - apply returns_bind_with with (Q := consistent);
      [apply continue_availability_check_consistent|].
    intros o Ho. apply returns_ret. exact Ho.
Qed.

Lemma click_attempt_consistent (retry_count : Z) :
  returns (click_attempt retry_count) (if_return consistent).
Proof.
  apply returns_bind; intros _.
  apply returns_bind; intros [button|].
  - apply returns_bind; intros _. apply returns_bind; intros _.
    apply returns_bind; intros _. apply returns_bind; intros [|].
    + apply returns_bind; intros _. apply returns_ret. exact I.
    + apply returns_bind; intros stamp. apply returns_bind; intros _.
      apply judge_after_click_consistent.
  - apply returns_bind; intros _. apply returns_ret. exact I.
Qed.

Lemma click_turn_consistent (retry_count : Z) :
  returns (click_turn retry_count) (if_return consistent).
Proof.
  apply returns_try; [apply click_attempt_consistent|].
  intros e. apply returns_bind; intros _. apply returns_ret. exact I.
Qed.

Lemma click_loop_consistent (fuel : nat) (retry_count : Z) :
  returns (click_especialidad_button_with_modal_retry fuel retry_count)
    (if_some consistent).
Proof.
  revert retry_count; induction fuel as [|fuel IH]; intros retry_count;
    cbn [click_especialidad_button_with_modal_retry].
  - apply returns_ret. intros o H; discriminate.
  - apply returns_bind_with with (Q := if_return consistent);
      [apply click_turn_consistent|].
    intros [|o] Ho; [apply IH|].
    apply returns_ret. intros o' H. injection H as <-. exact Ho.
Qed.

Lemma estatus_errors_consistent (current_url : string) :
  returns (estatus_errors current_url) (if_some consistent).
Proof.
  apply returns_bind; intros [[o|info]|];
    try (apply returns_ret; intros o' H; discriminate).
  destruct (errors info).
  - apply returns_ret; intros o' H; discriminate.
  - apply returns_bind; intros ts. apply returns_ret.
    intros o' H. injection H as <-. reflexivity.
Qed.

Lemma classify_page_consistent (fuel : nat) (current_url : string) :
  returns (classify_page cfg fuel current_url) (if_some consistent).
Proof.
  unfold classify_page. destruct (_ || _).
  - apply returns_bind_with with (Q := if_some consistent);
      [apply check_error_messages_consistent|].
    intros [error_info|] He; [apply returns_ret; exact He|].
    apply returns_bind_with with (Q := if_some consistent).
    { destruct (contains "estatus.aspx" current_url);
        [apply estatus_errors_consistent|].
      apply returns_ret; intros o H; discriminate. }
    intros [o|] Ho; [apply returns_ret; exact Ho|].
    apply click_loop_consistent.
  - destruct (contains (error_url_pattern cfg) current_url).
    + apply returns_bind; intros ts. apply returns_ret.
      intros o H. injection H as <-. reflexivity.
    + apply returns_bind; intros content.
      apply returns_bind_with with (Q := consistent);
        [apply classify_content_consistent|].
      intros o Ho. apply returns_ret. intros o' H. injection H as <-. exact Ho.
Qed.

Lemma check_availability_consistent (fuel : nat) :
  returns (check_availability cfg fuel) (if_some consistent).
Proof.
  apply returns_try.
  - apply returns_bind; intros current_url. apply classify_page_consistent.
  - intros e. apply returns_bind; intros u. apply returns_bind; intros ts.
    apply returns_ret. intros o H. injection H as <-. reflexivity.
Qed.

End Outcomes.

(** The table of [available_of_status], read row by row. *)
Lemma available_of_status_rows (st : string) :
  (available_of_status st = Some true <->
   st = "availability_found" \/ st = "possible_availability")
  /\ (available_of_status st = Some false <->
      st = "no_availability" \/ st = "no_availability_content"
      \/ st = "no_availability_error" \/ st = "timeout_error"
      \/ st = "estatus_error")
  /\ (available_of_status st = None <->
      ~ In st ["availability_found"; "possible_availability"; "no_availability";
               "no_availability_content"; "no_availability_error";
               "timeout_error"; "estatus_error"]).
Proof.
  unfold available_of_status, in_list. cbn [existsb In].
  destruct (String.eqb_spec st "availability_found") as [->|N1];
    [cbn; intuition (discriminate || auto)|].
  destruct (String.eqb_spec st "possible_availability") as [->|N2];
    [cbn; intuition (discriminate || auto)|].
  destruct (String.eqb_spec st "no_availability") as [->|N3];
    [cbn; intuition (discriminate || auto)|].
  destruct (String.eqb_spec st "no_availability_content") as [->|N4];
    [cbn; intuition (discriminate || auto)|].
  destruct (String.eqb_spec st "no_availability_error") as [->|N5];
    [cbn; intuition (discriminate || auto)|].
  destruct (String.eqb_spec st "timeout_error") as [->|N6];
    [cbn; intuition (discriminate || auto)|].
  destruct (String.eqb_spec st "estatus_error") as [->|N7];
    [cbn; intuition (discriminate || auto)|].
  cbn. intuition (discriminate || congruence).
Qed.

(** C10.  In every dictionary returned by [check_availability],
    [_continue_availability_check], [_check_error_messages] or the click
    loop, and in the one the loop builds on an interrupt, ['available'] is
    the value [available_of_status] gives for its ['status']: [True] for
    'availability_found' and 'possible_availability', [False] for
    'no_availability', 'no_availability_content', 'no_availability_error',
    'timeout_error' and 'estatus_error', [None] for every other status. *)
Theorem available_determined_by_status {W E : Type} {B : Browser W E}
    (cfg : Config) :
  (forall fuel, returns (check_availability cfg fuel) (if_some consistent))
  /\ returns continue_availability_check consistent
  /\ returns check_error_messages (if_some consistent)
  /\ (forall fuel retry_count,
        returns (click_especialidad_button_with_modal_retry fuel retry_count)
          (if_some consistent))
  /\ (forall retry_count u ts,
        consistent (user_interrupted_result retry_count u ts))
  /\ (forall st,
        (available_of_status st = Some true <->
         st = "availability_found" \/ st = "possible_availability")
        /\ (available_of_status st = Some false <->
            st = "no_availability" \/ st = "no_availability_content"
            \/ st = "no_availability_error" \/ st = "timeout_error"
            \/ st = "estatus_error")
        /\ (available_of_status st = None <->
            ~ In st ["availability_found"; "possible_availability";
                     "no_availability"; "no_availability_content";
                     "no_availability_error"; "timeout_error";
                     "estatus_error"])).
Proof.
  split; [intros fuel; apply check_availability_consistent|].
  split; [apply continue_availability_check_consistent|].
  split; [apply check_error_messages_consistent|].
  split; [intros fuel n; apply click_loop_consistent|].
  split; [intros n u ts; reflexivity|].
  exact available_of_status_rows.
Qed.

(** ** The classifier *)

Section Classifier.

Context {W E : Type} {B : Browser W E}.
Variable cfg : Config.

Lemma check_error_messages_never_raises : never_raises check_error_messages.
Proof. apply never_raises_try. intros _. apply never_raises_ret. Qed.

Lemma continue_availability_check_never_raises :
  never_raises continue_availability_check.
Proof.
  apply never_raises_try. intros e.
  apply never_raises_bind; [apply never_raises_gets | intros u].
  apply never_raises_bind; [apply never_raises_gets | intros ts].
  apply never_raises_ret.
Qed.

Lemma check_availability_never_raises (fuel : nat) :
  never_raises (check_availability cfg fuel).
Proof.
  apply never_raises_try. intros e.
  apply never_raises_bind; [apply never_raises_gets | intros u].
  apply never_raises_bind; [apply never_raises_gets | intros ts].
  apply never_raises_ret.
Qed.

(** A fault that reaches the handler of [check_availability] becomes the
    'error' outcome. *)
Lemma check_availability_fault (fuel : nat) (w w' : W) (e : string) :
  check_availability_body cfg fuel w = (Raise e, w') ->
  check_availability cfg fuel w
  = (Ret (Some (error_outcome e (page_url w') (now_isoformat w'))), w').
Proof.
  intros H. unfold check_availability.
  rewrite (try_raise_eq _ _ _ _ _ H). reflexivity.
Qed.

Lemma check_availability_settled (fuel : nat) (w w1 : W) (u : string) :
  settle_page w = (Ret u, w1) ->
  check_availability cfg fuel w
  = try_except (classify_page cfg fuel u)
      (fun e => u <- gets page_url ;; ts <- gets now_isoformat ;;
                ret (Some (error_outcome e u ts))) w1.
Proof.
  intros H. unfold check_availability, check_availability_body, try_except.
  rewrite (bind_ret_eq _ _ _ _ _ H). reflexivity.
Qed.

(** Outside 'paso-1.aspx' and 'estatus.aspx' the rules always return a
    dictionary. *)
Lemma classify_page_outside (fuel : nat) (u : string) :
  contains "paso-1.aspx" u = false -> contains "estatus.aspx" u = false ->
  returns (classify_page cfg fuel u) (fun r => r <> None).
Proof.
  intros H1 H2. unfold classify_page. rewrite H1, H2. cbn [orb].
  destruct (contains (error_url_pattern cfg) u).
  - apply returns_bind; intros ts. apply returns_ret. discriminate.
  - apply returns_bind; intros content. apply returns_bind; intros o.
    apply returns_ret. discriminate.
Qed.

Lemma check_availability_outside (fuel : nat) (w w1 : W) (u : string) :
  settle_page w = (Ret u, w1) ->
  contains "paso-1.aspx" u = false -> contains "estatus.aspx" u = false ->
  exists o w', check_availability cfg fuel w = (Ret (Some o), w').
Proof.
  intros Hs H1 H2. rewrite (check_availability_settled _ _ _ _ Hs).
  unfold try_except.
  destruct (classify_page cfg fuel u w1) as [[r|e] w2] eqn:Ec.
  - pose proof (classify_page_outside fuel u H1 H2 _ _ _ Ec) as Hr.
    destruct r as [o|]; [|congruence]. exists o, w2. reflexivity.
  - eexists _, w2. reflexivity.
Qed.

(** The URL rule. *)
Lemma check_availability_url_rule (fuel : nat) (w w1 : W) (u : string) :
  settle_page w = (Ret u, w1) ->
  contains "paso-1.aspx" u = false -> contains "estatus.aspx" u = false ->
  contains (error_url_pattern cfg) u = true ->
  check_availability cfg fuel w
  = (Ret (Some (outcome (Some false) "no_availability"
                  "No existen horas disponibles en la especialidad solicitada"
                  u (now_isoformat w1))), w1).
Proof.
  intros Hs H1 H2 H3. rewrite (check_availability_settled _ _ _ _ Hs).
  unfold classify_page. rewrite H1, H2, H3. reflexivity.
Qed.

End Classifier.

(** ** Faults and termination of the classifier *)

Lemma bare_page_turn (u : string) (retry_count : Z) :
  click_turn (B := still (bare_page u)) retry_count tt = (Ret Continue, tt).
Proof.
  unfold click_turn, click_attempt, when, try_except, bind.
  destruct (retry_count =? 1); reflexivity.
Qed.

Lemma bare_page_loop (u : string) (fuel : nat) (retry_count : Z) :
  click_especialidad_button_with_modal_retry (B := still (bare_page u))
    fuel retry_count tt
  = (Ret None, tt).
Proof.
  revert retry_count; induction fuel as [|fuel IH]; intros retry_count;
    cbn [click_especialidad_button_with_modal_retry]; [reflexivity|].
  rewrite (bind_ret_eq _ _ _ _ _ (bare_page_turn u (retry_count + 1))).
  apply IH.
Qed.

(** On a bare page at 'paso-1.aspx' or 'estatus.aspx' the classifier is
    still in its click loop after any number of turns. *)
Lemma check_availability_bare_page (cfg : Config) (u : string) (fuel : nat) :
  contains "paso-1.aspx" u || contains "estatus.aspx" u = true ->
  on_page (bare_page u) (fun B => check_availability cfg fuel) = Ret None.
Proof.
  intros Hu. unfold on_page.
  rewrite (check_availability_settled (B := still (bare_page u))
             cfg fuel tt tt u eq_refl).
  unfold try_except, classify_page. rewrite Hu.
  rewrite (bind_ret_eq (S := unit) (check_error_messages (B := still (bare_page u)))
             _ tt tt None eq_refl).
  assert ((if contains "estatus.aspx" u
           then estatus_errors (B := still (bare_page u)) u
           else ret None) tt = (Ret None, tt)) as He.
  { destruct (contains "estatus.aspx" u); reflexivity. }
  rewrite (bind_ret_eq _ _ _ _ _ He).
  rewrite bare_page_loop. reflexivity.
Qed.

Lemma check_availability_empty_step_page (fuel : nat) :
  on_page empty_step_page (fun B => check_availability default_config fuel)
  = Ret None.
Proof. apply check_availability_bare_page. reflexivity. Qed.


(** The scan's own fault: the page content cannot be read. *)
Lemma check_error_messages_fault {W E : Type} {B : Browser W E} (w w' : W) (e : string) :
  page_content w = (Raise e, w') -> check_error_messages w = (Ret None, w').
Proof.
  intros H. unfold check_error_messages.
  rewrite (try_raise_eq _ _ _ _ _ (bind_raise_eq _ _ _ _ _ H)). reflexivity.
Qed.



(** ** The URL rule *)

(** Under the default configuration a URL that has the pattern has
    'paso-1.aspx' as well, and is taken by the rule before. *)
Lemma default_pattern_shadowed (u : string) :
  contains (error_url_pattern default_config) u = true ->
  contains "paso-1.aspx" u = true.
Proof. apply contains_trans. reflexivity. Qed.

(** C1, as the program has it.  Once the first steps of
    [check_availability] have gone through, a URL that has the configured
    pattern and neither 'paso-1.aspx' nor 'estatus.aspx' is answered by
    the unavailable outcome 'no_availability', before the content and the
    structure of the page are looked at.  URLs with 'paso-1.aspx' or
    'estatus.aspx' go to the error scan and the click loop first. *)
Theorem url_pattern_rule {W E : Type} {B : Browser W E} (cfg : Config)
    (fuel : nat) (w w1 : W) (u : string) :
  settle_page w = (Ret u, w1) ->
  contains "paso-1.aspx" u = false ->
  contains "estatus.aspx" u = false ->
  contains (error_url_pattern cfg) u = true ->
  check_availability cfg fuel w
  = (Ret (Some (outcome (Some false) "no_availability"
                  "No existen horas disponibles en la especialidad solicitada"
                  u (now_isoformat w1))), w1).
Proof. apply check_availability_url_rule. Qed.

(** The rule at work on a page whose content speaks of availability. *)
Lemma url_pattern_rule_witness :
  on_page (plain_page (site ++ "paso-2.aspx?Error=No%20existen%20horas%20disponibles")
             "<html>Seleccione fecha</html>")
    (fun B => check_availability query_config 1)
  = Ret (Some (outcome (Some false) "no_availability"
                 "No existen horas disponibles en la especialidad solicitada"
                 (site ++ "paso-2.aspx?Error=No%20existen%20horas%20disponibles")
                 "2025-01-01T00:00:00")).
Proof.
  unfold on_page.
  rewrite (url_pattern_rule
             (B := still (plain_page
                            (site ++ "paso-2.aspx?Error=No%20existen%20horas%20disponibles")
                            "<html>Seleccione fecha</html>"))
             query_config 1 tt tt
             (site ++ "paso-2.aspx?Error=No%20existen%20horas%20disponibles"));
    vm_compute; reflexivity.
Defined.

(** C1 as stated fails under the default configuration, where the URL of
    the redirect page has the pattern: when that page shows the message
    the answer comes from the error scan, with status
    'no_availability_error'; when it shows nothing the click loop never
    returns. *)
Lemma url_pattern_rule_counterexample :
  contains (error_url_pattern default_config)
    (site ++ "paso-1.aspx?Error=No%20existen%20horas%20disponibles") = true
  /\ verdict
       (on_page (plain_page
                   (site ++ "paso-1.aspx?Error=No%20existen%20horas%20disponibles")
                   "<html><b>Atención! Error: No existen horas disponibles</b></html>")
          (fun B => check_availability default_config 1))
     = Some (Some false, "no_availability_error")
  /\ ~ exists fuel o,
        on_page (bare_page
                   (site ++ "paso-1.aspx?Error=No%20existen%20horas%20disponibles"))
          (fun B => check_availability default_config fuel)
        = Ret (Some o).
Proof.
  split; [vm_compute; reflexivity|]. split; [vm_compute; reflexivity|].
  intros (fuel & o & H).
  rewrite check_availability_bare_page in H by (vm_compute; reflexivity).
  discriminate.
Qed.

(** ** Which contents carry an error marker

    The scan finds 'Error:' and the timeout and no-hours phrasings in any
    letter case, wherever they stand in the content. *)

(** The scan only ever appends to [found_errors]. *)
Lemma add_match_grows (found_errors : list string) (m : string) :
  exists more, add_match found_errors m = (found_errors ++ more)%list.
Proof.
  unfold add_match. destruct (_ && _).
  - eexists; reflexivity.
  - exists []. now rewrite app_nil_r.
Qed.

Lemma add_matches_grow (ms found_errors : list string) :
  exists more, fold_left add_match ms found_errors = (found_errors ++ more)%list.
Proof.
  revert found_errors; induction ms as [|m ms IH]; intros found_errors; cbn [fold_left].
  - exists []. now rewrite app_nil_r.
  - destruct (add_match_grows found_errors m) as (more1 & ->).
    destruct (IH (found_errors ++ more1)%list) as (more2 & ->).
    exists (more1 ++ more2)%list. now rewrite app_assoc.
Qed.

Lemma add_pattern_grows (content : string) (found_errors : list string) (p : regex) :
  exists more, add_pattern content found_errors p = (found_errors ++ more)%list.
Proof. apply add_matches_grow. Qed.

Lemma add_patterns_grow (content : string) (ps : list regex)
    (found_errors : list string) :
  exists more,
    fold_left (add_pattern content) ps found_errors = (found_errors ++ more)%list.
Proof.
  revert found_errors; induction ps as [|p ps IH]; intros found_errors; cbn [fold_left].
  - exists []. now rewrite app_nil_r.
  - destruct (add_pattern_grows content found_errors p) as (more1 & ->).
    destruct (IH (found_errors ++ more1)%list) as (more2 & ->).
    exists (more1 ++ more2)%list. now rewrite app_assoc.
Qed.

(** A marker in the content leaves [found_errors] non-empty, whatever the
    selectors had found. *)
Lemma marker_found (content : string) (found_errors : list string) :
  has_error_marker content = true -> scan_patterns content found_errors <> [].
Proof.
  unfold has_error_marker. intros H.
  destruct found_errors as [|x l].
  - destruct (scan_patterns content []); [discriminate | discriminate].
  - unfold scan_patterns.
    destruct (add_patterns_grow content error_patterns (x :: l)) as (more & ->).
    discriminate.
Qed.

Lemma map_str_app_inv (f : ascii -> ascii) (s x y : string) :
  map_str f s = x ++ y ->
  exists sx sy, s = sx ++ sy /\ map_str f sx = x /\ map_str f sy = y.
Proof.
  revert s; induction x as [|c x IH]; intros s H.
  - exists EmptyString, s. auto.
  - destruct s as [|d s]; [discriminate|]. cbn in H. injection H as Hc Hs.
    destruct (IH _ Hs) as (sx & sy & -> & Hx & Hy).
    exists (String d sx), sy. cbn. rewrite Hc, Hx. auto.
Qed.

Lemma is_space_lower (x : ascii) : is_space (lower_ascii x) = is_space x.
Proof.
  destruct x as [b0 b1 b2 b3 b4 b5 b6 b7].
  destruct b0, b1, b2, b3, b4, b5, b6, b7; reflexivity.
Qed.

Lemma is_lt_lower (x : ascii) :
  Ascii.eqb (lower_ascii x) "<" = Ascii.eqb x "<".
Proof.
  destruct x as [b0 b1 b2 b3 b4 b5 b6 b7].
  destruct b0, b1, b2, b3, b4, b5, b6, b7; reflexivity.
Qed.

(** A character that matches a letter is neither a blank nor ['<']. *)
Lemma ilit_plain (c x : ascii) :
  is_space (lower_ascii c) = false ->
  Ascii.eqb (lower_ascii c) "<" = false ->
  ilit c x = true ->
  is_space x = false /\ Ascii.eqb x "<" = false.
Proof.
  unfold ilit. intros Hs Hl H. apply Ascii.eqb_eq in H.
  rewrite <- is_space_lower, <- is_lt_lower, H. auto.
Qed.

(** A text equal to [L] up to letter case matches [itext L]. *)
Lemma match_itext (L : string) (r : regex) (b1 b2 : string) :
  lower b1 = lower L ->
  match_here r b2 <> None ->
  match_here (itext L ++ r)%list (b1 ++ b2) <> None.
Proof.
  revert b1; induction L as [|c L IH]; intros b1 H Hr.
  - destruct b1; [exact Hr | discriminate].
  - destruct b1 as [|x b1]; [discriminate|].
    cbn in H. injection H as Hx Hb.
    cbn [itext chars app append match_here].
    unfold ilit at 1. rewrite Hx, Ascii.eqb_refl.
    specialize (IH b1 Hb Hr). unfold itext in IH.
    destruct (match_here (chars ilit L ++ r)%list (b1 ++ b2)); [discriminate|].
    congruence.
Qed.

(** What matches [itext (c L') r] begins with a character that matches
    [c]. *)
Lemma match_itext_head (c : ascii) (L' : string) (r : regex) (s : string) (n : nat) :
  match_here (itext (String c L') ++ r)%list s = Some n ->
  exists x s' k, s = String x s' /\ ilit c x = true /\ n = S k.
Proof.
  cbn [itext chars app match_here]. destruct s as [|x s]; [discriminate|].
  destruct (ilit c x) eqn:Hx; [|discriminate].
  destruct (match_here _ s) as [k|]; [|discriminate].
  intros H. injection H as <-. exists x, s, k. auto.
Qed.

(** [findall] finds something when the pattern matches somewhere. *)
Lemma findall_nonempty (r : regex) (a b : string) :
  match_here r b <> None -> b <> EmptyString -> findall r (a ++ b) <> [].
Proof.
  intros Hm Hb. unfold findall. induction a as [|x a IH].
  - destruct b as [|y b]; [congruence|]. cbn [append findall_from].
    destruct (match_here r (String y b)); [discriminate | congruence].
  - cbn [append findall_from].
    destruct (match_here r (String x (a ++ b))); [discriminate | exact IH].
Qed.

(** Every text [findall] lists is the text of a match. *)
Lemma findall_head (r : regex) (skip : nat) (s m : string) (rest : list string) :
  findall_from r skip s = m :: rest ->
  exists s' n, match_here r s' = Some n /\ m = substring 0 n s'.
Proof.
  revert skip; induction s as [|x s IH]; intros skip H; cbn [findall_from] in H.
  - discriminate.
  - destruct skip as [|k]; [|exact (IH _ H)].
    destruct (match_here r (String x s)) as [n|] eqn:Em.
    + injection H as <- _. exists (String x s), n. auto.
    + exact (IH _ H).
Qed.

Lemma rstrip_nonempty (x : ascii) (t : string) :
  is_space x = false -> rstrip (String x t) <> EmptyString.
Proof.
  intros Hx. cbn [rstrip]. destruct (rstrip t); [rewrite Hx|]; discriminate.
Qed.

(** The cleaned text of a match that begins with a plain character is not
    empty. *)
Lemma clean_text_nonempty (x : ascii) (t : string) :
  is_space x = false -> Ascii.eqb x "<" = false ->
  is_empty (strip (sub_empty tag_pattern (String x t))) = false.
Proof.
  intros Hs Hl. unfold sub_empty, tag_pattern. cbn [sub_empty_from match_here].
  unfold lit at 1. rewrite Hl. unfold strip. cbn [lstrip]. rewrite Hs.
  unfold is_empty. apply String.eqb_neq. now apply rstrip_nonempty.
Qed.

Lemma add_match_nonempty (found_errors : list string) (m : string) :
  is_empty (strip (sub_empty tag_pattern m)) = false ->
  add_match found_errors m <> [].
Proof.
  intros H. unfold add_match. rewrite H. cbn [negb andb].
  destruct (in_list _ found_errors) eqn:Hin; cbn [negb].
  - destruct found_errors; [discriminate Hin | discriminate].
  - destruct found_errors; discriminate.
Qed.

(** A pattern that begins with a literal text finds it in any letter
    case, at any place. *)
Lemma add_pattern_finds (c : ascii) (L' : string) (r : regex)
    (content : string) (found_errors : list string) :
  is_space (lower_ascii c) = false ->
  Ascii.eqb (lower_ascii c) "<" = false ->
  (forall s, match_here r s <> None) ->
  contains (lower (String c L')) (lower content) = true ->
  add_pattern content found_errors (itext (String c L') ++ r)%list <> [].
Proof.
  intros Hs Hl Hr Hc.
  apply contains_spec in Hc. destruct Hc as (a' & b' & Hc).
  destruct (map_str_app_inv _ _ _ _ Hc) as (a & b & -> & _ & Hb).
  destruct (map_str_app_inv _ _ _ _ Hb) as (b1 & b2 & -> & Hb1 & _).
  assert (findall (itext (String c L') ++ r)%list (a ++ b1 ++ b2) <> []) as Hf.
  { apply findall_nonempty.
    - apply match_itext; [exact Hb1 | apply Hr].
    - destruct b1; [discriminate Hb1 | discriminate]. }
  unfold add_pattern.
  destruct (findall _ (a ++ b1 ++ b2)) as [|m rest] eqn:Ef; [congruence|].
  destruct (findall_head _ _ _ _ _ Ef) as (s' & n & Em & ->).
  destruct (match_itext_head _ _ _ _ _ Em) as (x & s'' & k & -> & Hx & ->).
  destruct (ilit_plain c x Hs Hl Hx) as [Hxs Hxl].
  cbn [fold_left substring].
  pose proof (add_match_nonempty found_errors _
                (clean_text_nonempty x (substring 0 k s'') Hxs Hxl)) as Hn.
  destruct (add_matches_grow rest
              (add_match found_errors (String x (substring 0 k s'')))) as (more & ->).
  destruct (add_match found_errors (String x (substring 0 k s''))); [congruence|].
  discriminate.
Qed.

Lemma scan_finds (content : string) (p : regex) (ps : list regex)
    (found_errors : list string) :
  In p ps ->
  (forall found, add_pattern content found p <> []) ->
  fold_left (add_pattern content) ps found_errors <> [].
Proof.
  intros Hin Hp. revert found_errors.
  induction ps as [|p0 ps IH]; intros found_errors; [destruct Hin|].
  cbn [fold_left]. destruct Hin as [->|Hin]; [|now apply IH].
  destruct (add_patterns_grow content ps (add_pattern content found_errors p))
    as (more & ->).
  specialize (Hp found_errors).
  destruct (add_pattern content found_errors p); [congruence | discriminate].
Qed.

Lemma lazy_rest_matches (s : string) :
  match_here [lazy_any; Look lt_or_dollar] s <> None.
Proof.
  induction s as [|x s IH].
  - discriminate.
  - cbn [match_here lazy_any] in *.
    destruct (lt_or_dollar (String x s)); [discriminate|].
    unfold any_char at 1.
    match goal with |- option_map S ?t <> None => destruct t end;
      [discriminate | congruence].
Qed.

Lemma has_error_marker_intro (content : string) (p : regex) :
  In p error_patterns ->
  (forall found, add_pattern content found p <> []) ->
  has_error_marker content = true.
Proof.
  intros Hin Hp. unfold has_error_marker.
  pose proof (scan_finds content p error_patterns [] Hin Hp) as H.
  unfold scan_patterns. destruct (fold_left _ _ _); [congruence | reflexivity].
Qed.

(** 'Error:', the timeout phrasing and the no-hours phrasings are error
    markers, in any letter case. *)
Lemma error_texts_are_markers (content : string) :
  contains "error:" (lower content) = true
  \/ contains "tiempo máximo de espera" (lower content) = true
  \/ contains "no existen horas disponibles" (lower content) = true
  \/ contains "sin disponibilidad" (lower content) = true ->
  has_error_marker content = true.
Proof.
  intros [H|[H|[H|H]]].
  - apply has_error_marker_intro
      with (p := (itext "Error:" ++ [lazy_any; Look lt_or_dollar])%list).
    + right; left; reflexivity.
    + intros found. apply add_pattern_finds; auto. apply lazy_rest_matches.
  - apply has_error_marker_intro
      with (p := (itext "tiempo máximo de espera" ++ [])%list).
    + do 4 right; left; reflexivity.
    + intros found. apply add_pattern_finds; auto. discriminate.
  - apply has_error_marker_intro
      with (p := (itext "no existen horas disponibles" ++ [])%list).
    + do 5 right; left; reflexivity.
    + intros found. apply add_pattern_finds; auto. discriminate.
  - apply has_error_marker_intro
      with (p := (itext "sin disponibilidad" ++ [])%list).
    + do 6 right; left; reflexivity.
    + intros found. apply add_pattern_finds; auto. discriminate.
Qed.

(** ** The error scan before the keywords *)

Section Priority.

Context {W E : Type} {B : Browser W E}.
Variable cfg : Config.

Lemma collect_selector_never_raises (selector : string) :
  never_raises (collect_selector selector).
Proof. apply never_raises_try. intros _. apply never_raises_ret. Qed.

Lemma collect_never_raises :
  never_raises
    (with_local ([] : list string)
       (for_ error_selectors collect_selector ;; get_local)).
Proof.
  apply with_local_never_raises.
  apply never_raises_bind.
  - apply never_raises_for_. apply collect_selector_never_raises.
  - intros _ s. exists (fst s), s. reflexivity.
Qed.

(** With a marker in the content the scan returns one of its three error
    dictionaries. *)
Lemma check_error_messages_finds (w w1 : W) (content : string) :
  page_content w = (Ret content, w1) ->
  has_error_marker content = true ->
  exists o w',
    check_error_messages w = (Ret (Some o), w')
    /\ in_list (status o) error_statuses = true
    /\ available o <> Some true.
Proof.
  intros Hc Hm. unfold check_error_messages.
  destruct (collect_never_raises w1) as (found_errors & w2 & Ef).
  pose proof (marker_found content found_errors Hm) as Hn.
  exists (error_result (scan_patterns content found_errors)
            (page_url w2) (now_isoformat w2)), w2.
  split.
  - apply try_ret_eq.
    rewrite (bind_ret_eq _ _ _ _ _ Hc), (bind_ret_eq _ _ _ _ _ Ef). cbv zeta.
    destruct (scan_patterns content found_errors) as [|x l]; [congruence|].
    reflexivity.
  - apply error_result_status.
Qed.

(** On 'paso-1.aspx' and 'estatus.aspx' the scan comes first. *)
Lemma check_availability_error_first (fuel : nat) (w w1 w2 : W) (u content : string) :
  settle_page w = (Ret u, w1) ->
  contains "paso-1.aspx" u || contains "estatus.aspx" u = true ->
  page_content w1 = (Ret content, w2) ->
  has_error_marker content = true ->
  exists o w',
    check_availability cfg fuel w = (Ret (Some o), w')
    /\ in_list (status o) error_statuses = true
    /\ available o <> Some true.
Proof.
  intros Hs Hu Hc Hm.
  destruct (check_error_messages_finds w1 w2 content Hc Hm) as (o & w' & Ee & Ho).
  exists o, w'. split; [|exact Ho].
  rewrite (check_availability_settled _ _ _ _ _ Hs).
  apply try_ret_eq. unfold classify_page. rewrite Hu.
  rewrite (bind_ret_eq _ _ _ _ _ Ee). reflexivity.
Qed.

(** After a click the scan comes first as well: the turn goes round again
    or returns an error dictionary. *)
Lemma judge_after_click_error_first (w w1 : W) (content : string) :
  page_content w = (Ret content, w1) ->
  has_error_marker content = true ->
  forall t w',
    judge_after_click w = (Ret t, w') ->
    if_return (fun o => in_list (status o) error_statuses = true
                        /\ available o <> Some true) t.
Proof.
  intros Hc Hm t w' Ej.
  destruct (check_error_messages_finds w w1 content Hc Hm) as (o & w2 & Ee & Ho).
  unfold judge_after_click in Ej. rewrite (bind_ret_eq _ _ _ _ _ Ee) in Ej.
  destruct (in_list (status o) transient_statuses).
  - unfold bind in Ej. destruct (wait_for_timeout 2000 w2) as [[[]|e] w3];
      [|discriminate].
    injection Ej as <- _. exact I.
  - injection Ej as <- _. exact Ho.
Qed.

(** Whatever the scan reports is one of its three error dictionaries. *)
Lemma check_error_messages_reports :
  returns check_error_messages
    (if_some (fun o => in_list (status o) error_statuses = true
                       /\ available o <> Some true)).
Proof.
  apply returns_try; [|intros e; apply returns_ret; intros o H; discriminate].
  apply returns_bind; intros content.
  apply returns_bind; intros found_errors. cbv zeta.
  destruct (scan_patterns content found_errors) as [|x l] eqn:Sc.
  - apply returns_ret. intros o H; discriminate.
  - apply returns_bind; intros u. apply returns_bind; intros ts.
    apply returns_ret. intros o H. injection H as <-.
    apply error_result_status.
Qed.

(** What the scan reports is what [check_availability] answers on
    'paso-1.aspx' and 'estatus.aspx'. *)
Lemma check_availability_reported (fuel : nat) (w w1 w2 : W) (u : string)
    (o : Outcome) :
  settle_page w = (Ret u, w1) ->
  contains "paso-1.aspx" u || contains "estatus.aspx" u = true ->
  check_error_messages w1 = (Ret (Some o), w2) ->
  check_availability cfg fuel w = (Ret (Some o), w2).
Proof.
  intros Hs Hu Ee.
  rewrite (check_availability_settled _ _ _ _ _ Hs).
  apply try_ret_eq. unfold classify_page. rewrite Hu.
  rewrite (bind_ret_eq _ _ _ _ _ Ee). reflexivity.
Qed.

(** And what a turn of the click loop answers, unless it is transient. *)
Lemma judge_after_click_reported (w w1 : W) (o : Outcome) (t : turn) (w' : W) :
  check_error_messages w = (Ret (Some o), w1) ->
  judge_after_click w = (Ret t, w') ->
  (in_list (status o) transient_statuses = true /\ t = Continue)
  \/ (in_list (status o) transient_statuses = false /\ t = Return o /\ w' = w1).
Proof.
  intros Ee Ej. unfold judge_after_click in Ej.
  rewrite (bind_ret_eq _ _ _ _ _ Ee) in Ej.
  destruct (in_list (status o) transient_statuses).
  - left. unfold bind in Ej. destruct (wait_for_timeout 2000 w1) as [[[]|e] w3];
      [|discriminate].
    injection Ej as <- _. auto.
  - right. injection Ej as <- <-. auto.
Qed.

(** Among the keywords those of unavailability come first. *)
Lemma classify_content_unavailable_first (u content keyword : string) (w : W) :
  first_keyword no_availability_keywords (lower content) = Some keyword ->
  classify_content u content w
  = (Ret (outcome (Some false) "no_availability_content"
            ("Detectado en contenido: " ++ keyword) u (now_isoformat w)), w).
Proof. intros H. unfold classify_content. cbv zeta. rewrite H. reflexivity. Qed.

Lemma first_keyword_some (keywords : list string) (content_lower keyword : string) :
  In keyword keywords -> contains keyword content_lower = true ->
  exists keyword',
    first_keyword keywords content_lower = Some keyword' /\ In keyword' keywords.
Proof.
  intros Hin Hc. unfold first_keyword.
  destruct (find (fun k => contains k content_lower) keywords) as [k|] eqn:Ef.
  - exists k. split; [reflexivity|]. apply find_some in Ef. tauto.
  - pose proof (find_none _ _ Ef keyword Hin) as Hn. cbv beta in Hn. congruence.
Qed.

End Priority.




(** ** The click loop, turn by turn *)

Section Loop.

Context {W E : Type} {B : Browser W E}.

(** A turn whose attempt returns is that attempt. *)
Lemma click_turn_of_attempt (retry_count : Z) (w w' : W) (t : turn) :
  click_attempt retry_count w = (Ret t, w') ->
  click_turn retry_count w = (Ret t, w').
Proof. intros H. unfold click_turn. now apply try_ret_eq. Qed.

(** A turn that says [continue] hands over to the next one; a turn that
    returns ends the loop with what it returns. *)
Lemma click_loop_step (fuel : nat) (retry_count : Z) (w w' : W) (t : turn) :
  click_turn (retry_count + 1) w = (Ret t, w') ->
  click_especialidad_button_with_modal_retry (S fuel) retry_count w
  = match t with
    | Continue =>
        click_especialidad_button_with_modal_retry fuel (retry_count + 1) w'
    | Return o => (Ret (Some o), w')
    end.
Proof.
  intros H. cbn [click_especialidad_button_with_modal_retry].
  rewrite (bind_ret_eq _ _ _ _ _ H). destruct t; reflexivity.
Qed.

Variables (fuel : nat) (retry_count : Z) (w0 w1 : W).

(** The turn has started: the table was looked at, on the first turn. *)
Hypothesis started :
  when (retry_count + 1 =? 1) eval_table_info w0 = (Ret tt, w1).

Lemma turn_button_missing (w2 w3 : W) :
  find_especialidad_button w1 = (Ret None, w2) ->
  wait_for_timeout 3000 w2 = (Ret tt, w3) ->
  click_especialidad_button_with_modal_retry (S fuel) retry_count w0
  = click_especialidad_button_with_modal_retry fuel (retry_count + 1) w3.
Proof.
  intros Hf Hw.
  rewrite (click_loop_step fuel retry_count w0 w3 Continue); [reflexivity|].
  apply click_turn_of_attempt. unfold click_attempt.
  rewrite (bind_ret_eq _ _ _ _ _ started), (bind_ret_eq _ _ _ _ _ Hf).
  rewrite (bind_ret_eq _ _ _ _ _ Hw). reflexivity.
Qed.

Variables (button : E) (w2 w3 w4 w5 : W) (before : bool).

(** The button was found and clicked, and the page settled. *)
Hypothesis found : find_especialidad_button w1 = (Ret (Some button), w2).
Hypothesis guarded : detect_and_close_modals w2 = (Ret before, w3).
Hypothesis clicked : element_click button w3 = (Ret tt, w4).
Hypothesis loaded : wait_for_load_state "networkidle" 30000 w4 = (Ret tt, w5).

Lemma click_attempt_after_click :
  click_attempt (retry_count + 1) w0
  = (modal_appeared <- detect_and_close_modals ;;
     if modal_appeared then wait_for_timeout 2000 ;; ret Continue
     else stamp <- gets now_stamp ;;
          page_screenshot ("screenshot_after_click_" ++ stamp ++ ".png") ;;
          judge_after_click) w5.
Proof.
  unfold click_attempt.
  rewrite (bind_ret_eq _ _ _ _ _ started), (bind_ret_eq _ _ _ _ _ found).
  rewrite (bind_ret_eq _ _ _ _ _ guarded), (bind_ret_eq _ _ _ _ _ clicked).
  rewrite (bind_ret_eq _ _ _ _ _ loaded). reflexivity.
Qed.

Lemma turn_overlay_after_click (w6 w7 : W) :
  detect_and_close_modals w5 = (Ret true, w6) ->
  wait_for_timeout 2000 w6 = (Ret tt, w7) ->
  click_especialidad_button_with_modal_retry (S fuel) retry_count w0
  = click_especialidad_button_with_modal_retry fuel (retry_count + 1) w7.
Proof.
  intros Hd Hw.
  rewrite (click_loop_step fuel retry_count w0 w7 Continue); [reflexivity|].
  apply click_turn_of_attempt. rewrite click_attempt_after_click.
  rewrite (bind_ret_eq _ _ _ _ _ Hd), (bind_ret_eq _ _ _ _ _ Hw). reflexivity.
Qed.

Variables (w6 w7 : W).

(** No overlay came up, and the screenshot was taken. *)
Hypothesis clear : detect_and_close_modals w5 = (Ret false, w6).
Hypothesis pictured :
  page_screenshot ("screenshot_after_click_" ++ now_stamp w6 ++ ".png") w6
  = (Ret tt, w7).

Lemma click_attempt_judged :
  click_attempt (retry_count + 1) w0 = judge_after_click w7.
Proof.
  rewrite click_attempt_after_click, (bind_ret_eq _ _ _ _ _ clear).
  unfold bind at 1. cbn [gets].
  rewrite (bind_ret_eq _ _ _ _ _ pictured). reflexivity.
Qed.

Lemma turn_transient_error (o : Outcome) (w8 w9 : W) :
  check_error_messages w7 = (Ret (Some o), w8) ->
  in_list (status o) transient_statuses = true ->
  wait_for_timeout 2000 w8 = (Ret tt, w9) ->
  click_especialidad_button_with_modal_retry (S fuel) retry_count w0
  = click_especialidad_button_with_modal_retry fuel (retry_count + 1) w9.
Proof.
  intros He Ht Hw.
  rewrite (click_loop_step fuel retry_count w0 w9 Continue); [reflexivity|].
  apply click_turn_of_attempt. rewrite click_attempt_judged.
  unfold judge_after_click.
  rewrite (bind_ret_eq _ _ _ _ _ He), Ht, (bind_ret_eq _ _ _ _ _ Hw). reflexivity.
Qed.

Lemma turn_other_error (o : Outcome) (w8 : W) :
  check_error_messages w7 = (Ret (Some o), w8) ->
  in_list (status o) transient_statuses = false ->
  click_especialidad_button_with_modal_retry (S fuel) retry_count w0
  = (Ret (Some o), w8).
Proof.
  intros He Ht.
  rewrite (click_loop_step fuel retry_count w0 w8 (Return o)); [reflexivity|].
  apply click_turn_of_attempt. rewrite click_attempt_judged.
  unfold judge_after_click.
  rewrite (bind_ret_eq _ _ _ _ _ He), Ht. reflexivity.
Qed.

Lemma turn_no_error (o : Outcome) (w8 w9 : W) :
  check_error_messages w7 = (Ret None, w8) ->
  continue_availability_check w8 = (Ret o, w9) ->
  click_especialidad_button_with_modal_retry (S fuel) retry_count w0
  = (Ret (Some o), w9).
Proof.
  intros He Hc.
  rewrite (click_loop_step fuel retry_count w0 w9 (Return o)); [reflexivity|].
  apply click_turn_of_attempt. rewrite click_attempt_judged.
  unfold judge_after_click.
  rewrite (bind_ret_eq _ _ _ _ _ He), (bind_ret_eq _ _ _ _ _ Hc). reflexivity.
Qed.

End Loop.

(** C4.  In every turn of the click loop, started from [w0] with the
    counter at [retry_count]: when the button is not found the loop waits
    3000 ms and starts the next turn; when the button is found and clicked
    and the guard then reports an overlay, it waits 2000 ms and starts the
    next turn; when no overlay is reported and the error scan answers a
    'timeout_error' or 'estatus_error' dictionary, it waits 2000 ms and
    starts the next turn; any other dictionary of the scan, and otherwise
    the dictionary of [_continue_availability_check], whatever it says,
    ends the loop and is returned as it is. *)
Theorem click_loop_turn {W E : Type} {B : Browser W E}
    (fuel : nat) (retry_count : Z) (w0 w1 : W) :
  when (retry_count + 1 =? 1) eval_table_info w0 = (Ret tt, w1) ->
  (forall w2 w3,
     find_especialidad_button w1 = (Ret None, w2) ->
     wait_for_timeout 3000 w2 = (Ret tt, w3) ->
     click_especialidad_button_with_modal_retry (S fuel) retry_count w0
     = click_especialidad_button_with_modal_retry fuel (retry_count + 1) w3)
  /\ (forall button w2 before w3 w4 w5,
        find_especialidad_button w1 = (Ret (Some button), w2) ->
        detect_and_close_modals w2 = (Ret before, w3) ->
        element_click button w3 = (Ret tt, w4) ->
        wait_for_load_state "networkidle" 30000 w4 = (Ret tt, w5) ->
        (forall w6 w7,
           detect_and_close_modals w5 = (Ret true, w6) ->
           wait_for_timeout 2000 w6 = (Ret tt, w7) ->
           click_especialidad_button_with_modal_retry (S fuel) retry_count w0
           = click_especialidad_button_with_modal_retry fuel (retry_count + 1) w7)
        /\ (forall w6 w7,
              detect_and_close_modals w5 = (Ret false, w6) ->
              page_screenshot
                ("screenshot_after_click_" ++ now_stamp w6 ++ ".png") w6
              = (Ret tt, w7) ->
              (forall o w8 w9,
                 check_error_messages w7 = (Ret (Some o), w8) ->
                 in_list (status o) ["timeout_error"; "estatus_error"] = true ->
                 wait_for_timeout 2000 w8 = (Ret tt, w9) ->
                 click_especialidad_button_with_modal_retry (S fuel) retry_count w0
                 = click_especialidad_button_with_modal_retry fuel
                     (retry_count + 1) w9)
              /\ (forall o w8,
                    check_error_messages w7 = (Ret (Some o), w8) ->
                    in_list (status o) ["timeout_error"; "estatus_error"] = false ->
                    click_especialidad_button_with_modal_retry (S fuel)
                      retry_count w0
                    = (Ret (Some o), w8))
              /\ (forall o w8 w9,
                    check_error_messages w7 = (Ret None, w8) ->
                    continue_availability_check w8 = (Ret o, w9) ->
                    click_especialidad_button_with_modal_retry (S fuel)
                      retry_count w0
                    = (Ret (Some o), w9)))).
Proof.
  intros Hs. split.
  - intros w2 w3. now apply turn_button_missing.
  - intros button w2 before w3 w4 w5 Hf Hg Hc Hl. split.
    + intros w6 w7. now apply (turn_overlay_after_click fuel retry_count w0 w1 Hs
                                 button w2 w3 w4 w5 before).
    + intros w6 w7 Hd Hp. split; [|split].
      * intros o w8 w9.
        now apply (turn_transient_error fuel retry_count w0 w1 Hs
                     button w2 w3 w4 w5 before Hf Hg Hc Hl w6 w7 Hd Hp).
      * intros o w8.
        now apply (turn_other_error fuel retry_count w0 w1 Hs
                     button w2 w3 w4 w5 before Hf Hg Hc Hl w6 w7 Hd Hp).
      * intros o w8 w9.
        now apply (turn_no_error fuel retry_count w0 w1 Hs
                     button w2 w3 w4 w5 before Hf Hg Hc Hl w6 w7 Hd Hp).
Qed.

(** One turn on five pages: without the button, under a dialog, with the
    timeout banner, with the no-hours text, with dates on offer. *)
Lemma click_loop_turn_witness :
  click_especialidad_button_with_modal_retry (B := still empty_step_page) 1 0 tt
  = click_especialidad_button_with_modal_retry (B := still empty_step_page) 0 1 tt
  /\ click_especialidad_button_with_modal_retry
       (B := still (page_under_dialog site EmptyString)) 1 0 tt
     = click_especialidad_button_with_modal_retry
         (B := still (page_under_dialog site EmptyString)) 0 1 tt
  /\ click_especialidad_button_with_modal_retry (B := still timeout_page) 1 0 tt
     = click_especialidad_button_with_modal_retry (B := still timeout_page) 0 1 tt
  /\ click_especialidad_button_with_modal_retry (B := still no_hours_page) 1 0 tt
     = (Ret (Some (scanned no_hours_page)), tt)
  /\ status (scanned no_hours_page) = "no_availability_error"
  /\ click_especialidad_button_with_modal_retry (B := still dates_page) 1 0 tt
     = (Ret (Some (continued dates_page)), tt)
  /\ status (continued dates_page) = "availability_found".
Proof.
  split; [|split; [|split; [|split; [|split; [|split]]]]].
  - apply (proj1 (click_loop_turn (B := still empty_step_page) 0 0 tt tt eq_refl)
             tt tt); vm_compute; reflexivity.
  - apply (proj1 (proj2 (click_loop_turn
                           (B := still (page_under_dialog site EmptyString))
                           0 0 tt tt eq_refl)
                    0%nat tt true tt tt tt
                    ltac:(vm_compute; reflexivity) ltac:(vm_compute; reflexivity)
                    ltac:(vm_compute; reflexivity) ltac:(vm_compute; reflexivity))
             tt tt); vm_compute; reflexivity.
  - apply (proj1 (proj2 (proj2 (click_loop_turn (B := still timeout_page)
                                  0 0 tt tt eq_refl)
                           0%nat tt false tt tt tt
                           ltac:(vm_compute; reflexivity) ltac:(vm_compute; reflexivity)
                           ltac:(vm_compute; reflexivity) ltac:(vm_compute; reflexivity))
                    tt tt ltac:(vm_compute; reflexivity) ltac:(vm_compute; reflexivity))
             (scanned timeout_page) tt tt); vm_compute; reflexivity.
  - apply (proj1 (proj2 (proj2 (proj2 (click_loop_turn (B := still no_hours_page)
                                  0 0 tt tt eq_refl)
                           0%nat tt false tt tt tt
                           ltac:(vm_compute; reflexivity) ltac:(vm_compute; reflexivity)
                           ltac:(vm_compute; reflexivity) ltac:(vm_compute; reflexivity))
                    tt tt ltac:(vm_compute; reflexivity) ltac:(vm_compute; reflexivity)))
             (scanned no_hours_page) tt); vm_compute; reflexivity.
  - vm_compute; reflexivity.
  - apply (proj2 (proj2 (proj2 (proj2 (click_loop_turn (B := still dates_page)
                                  0 0 tt tt eq_refl)
                           0%nat tt false tt tt tt
                           ltac:(vm_compute; reflexivity) ltac:(vm_compute; reflexivity)
                           ltac:(vm_compute; reflexivity) ltac:(vm_compute; reflexivity))
                    tt tt ltac:(vm_compute; reflexivity) ltac:(vm_compute; reflexivity)))
             (continued dates_page) tt tt); vm_compute; reflexivity.
  - vm_compute; reflexivity.
Defined.

(** * Further properties *)

(** ** The identifier validator, further *)

(** *** What the checksum catches *)

Lemma weighted_sum_from_app (i : nat) (x y : list ascii) :
  weighted_sum_from i (x ++ y)%list
  = weighted_sum_from i x + weighted_sum_from (i + length x) y.
Proof.
  revert i; induction x as [|d x IH]; intros i; cbn [app weighted_sum_from length].
  - rewrite Nat.add_0_r. lia.
  - rewrite IH. replace (S i + length x)%nat with (i + S (length x))%nat by lia. lia.
Qed.

Lemma list_ascii_app (a b : string) :
  list_ascii_of_string (a ++ b)
  = (list_ascii_of_string a ++ list_ascii_of_string b)%list.
Proof. induction a as [|x a IH]; cbn; [reflexivity | now rewrite IH]. Qed.

Lemma length_list_ascii (a : string) :
  length (list_ascii_of_string a) = String.length a.
Proof. induction a as [|x a IH]; cbn; [reflexivity | now rewrite IH]. Qed.

(** The sum of a body, around one of its digits. *)
Lemma weighted_sum_at (a b : string) (d : ascii) :
  weighted_sum (a ++ String d b)
  = weighted_sum_from 0 (rev (list_ascii_of_string b))
    + int_of_digit d * weight (String.length b)
    + weighted_sum_from (S (String.length b)) (rev (list_ascii_of_string a)).
Proof.
  unfold weighted_sum. rewrite list_ascii_app. cbn [list_ascii_of_string].
  rewrite rev_app_distr. cbn [rev]. rewrite <- app_assoc. cbn [app].
  rewrite weighted_sum_from_app. cbn [weighted_sum_from].
  rewrite length_rev, length_list_ascii. cbn [Nat.add]. lia.
Qed.

Lemma weight_range (i : nat) : 2 <= weight i <= 7.
Proof.
  unfold weight. pose proof (Nat.mod_upper_bound i 6 ltac:(discriminate)). lia.
Qed.

Lemma int_of_digit_range (d : ascii) : is_digit d = true -> 0 <= int_of_digit d <= 9.
Proof.
  unfold is_digit, int_of_digit. rewrite andb_true_iff, !Z.leb_le. lia.
Qed.

Lemma int_of_digit_inj (d d' : ascii) : int_of_digit d = int_of_digit d' -> d = d'.
Proof.
  unfold int_of_digit, code. intros H.
  assert (nat_of_ascii d = nat_of_ascii d') as E by lia.
  rewrite <- (ascii_nat_embedding d), <- (ascii_nat_embedding d'). now rewrite E.
Qed.

(** Eleven divides no product of a weight, or of a difference of
    neighbouring weights, with a difference of two decimal digits. *)
Lemma eleven_divides_not (w k s : Z) :
  1 <= w <= 7 -> -9 <= k <= 9 -> k <> 0 ->
  (s + w * k) mod 11 <> s mod 11.
Proof.
  intros Hw Hk Hk0 H.
  assert (w = 1 \/ w = 2 \/ w = 3 \/ w = 4 \/ w = 5 \/ w = 6 \/ w = 7) as C by lia.
  pose proof (Z.div_mod (s + w * k) 11 ltac:(lia)) as E1.
  pose proof (Z.div_mod s 11 ltac:(lia)) as E2.
  rewrite H in E1.
  destruct C as [->|[->|[->|[->|[->|[->| ->]]]]]]; lia.
Qed.

Lemma check_char_inj (v v' : Z) :
  1 <= v <= 11 -> 1 <= v' <= 11 -> check_char v = check_char v' -> v = v'.
Proof.
  intros Hv Hv'.
  assert (v = 1 \/ v = 2 \/ v = 3 \/ v = 4 \/ v = 5 \/ v = 6 \/ v = 7 \/ v = 8
          \/ v = 9 \/ v = 10 \/ v = 11) as C by lia.
  assert (v' = 1 \/ v' = 2 \/ v' = 3 \/ v' = 4 \/ v' = 5 \/ v' = 6 \/ v' = 7
          \/ v' = 8 \/ v' = 9 \/ v' = 10 \/ v' = 11) as C' by lia.
  repeat (destruct C as [->|C]);
    repeat (destruct C' as [->|C']); subst;
    first [reflexivity | (vm_compute; discriminate)].
Qed.

(** Bodies whose sums differ modulo eleven expect different check
    characters. *)
Lemma expected_check_differs (numero numero' : string) :
  weighted_sum numero mod 11 <> weighted_sum numero' mod 11 ->
  expected_check numero <> expected_check numero'.
Proof.
  intros H E. unfold expected_check in E.
  pose proof (Z.mod_pos_bound (weighted_sum numero) 11 ltac:(lia)).
  pose proof (Z.mod_pos_bound (weighted_sum numero') 11 ltac:(lia)).
  apply check_char_inj in E; lia.
Qed.

Lemma check_char_range (v : Z) :
  1 <= v <= 11 ->
  is_digit (check_char v) = true \/ check_char v = "K"%char.
Proof.
  intros Hv.
  assert (v = 1 \/ v = 2 \/ v = 3 \/ v = 4 \/ v = 5 \/ v = 6 \/ v = 7 \/ v = 8
          \/ v = 9 \/ v = 10 \/ v = 11) as C by lia.
  repeat (destruct C as [->|C]); subst;
    first [left; reflexivity | right; reflexivity].
Qed.

Lemma expected_check_range (numero : string) :
  is_digit (expected_check numero) = true \/ expected_check numero = "K"%char.
Proof.
  unfold expected_check. apply check_char_range.
  pose proof (Z.mod_pos_bound (weighted_sum numero) 11 ltac:(lia)). lia.
Qed.

(** A text of digits is clean already. *)
Lemma kept_digit (c : ascii) :
  (is_digit c || Ascii.eqb c "K") = true -> kept c = true /\ upper_ascii c = c.
Proof.
  destruct c as [b0 b1 b2 b3 b4 b5 b6 b7].
  destruct b0, b1, b2, b3, b4, b5, b6, b7; vm_compute; intuition congruence.
Qed.

Lemma clean_rut_digits (s : string) : all_digits s = true -> clean_rut s = s.
Proof.
  induction s as [|x s IH]; [reflexivity|]. cbn [all_digits].
  rewrite andb_true_iff. intros [Hx Hs].
  destruct (kept_digit x) as [K U]; [now rewrite Hx|].
  now rewrite clean_rut_cons, K, U, IH.
Qed.

(** The validator on a text that is a body of digits, a dash and one
    character. *)
Lemma validate_body_check (numero : string) (c : ascii) :
  all_digits numero = true ->
  (String.length numero = 7 \/ String.length numero = 8)%nat ->
  (validate_rut (numero ++ "-" ++ String c EmptyString) = true
   <-> upper_ascii c = expected_check numero).
Proof.
  intros Hd Hl. rewrite validate_rut_spec.
  change (numero ++ "-" ++ String c EmptyString)
    with (numero ++ String "-" (String c EmptyString)).
  rewrite clean_rut_app, (clean_rut_digits _ Hd), !clean_rut_cons, clean_rut_nil.
  change (kept "-") with true. cbv iota. change (upper_ascii "-") with "-"%char.
  split.
  - intros (numero' & c0 & (Hs & Hd' & _ & _) & ->).
    apply first_dash_inj in Hs; auto. destruct Hs as [<- Hx].
    destruct (kept c); [|discriminate]. now injection Hx.
  - intros Hc.
    assert ((is_digit (upper_ascii c) || Ascii.eqb (upper_ascii c) "K") = true) as Hr.
    { rewrite Hc. destruct (expected_check_range numero) as [H|H].
      - now rewrite H.
      - rewrite H. apply orb_true_r. }
    assert (kept c = true) as K.
    { rewrite <- kept_upper. now apply kept_digit. }
    rewrite K. exists numero, (upper_ascii c). split; [|exact Hc].
    repeat split; auto. rewrite Hc. apply expected_check_range.
Qed.

Lemma valid_body_length (numero : string) (c : ascii) :
  all_digits numero = true ->
  validate_rut (numero ++ "-" ++ String c EmptyString) = true ->
  (String.length numero = 7 \/ String.length numero = 8)%nat.
Proof.
  intros Hd V. apply validate_rut_spec in V.
  destruct V as (numero' & c0 & (Hs & Hd' & Hl & _) & _).
  change (numero ++ "-" ++ String c EmptyString)
    with (numero ++ String "-" (String c EmptyString)) in Hs.
  rewrite clean_rut_app, (clean_rut_digits _ Hd) in Hs.
  rewrite clean_rut_cons in Hs. change (kept "-") with true in Hs. cbv iota in Hs.
  change (upper_ascii "-") with "-"%char in Hs.
  apply first_dash_inj in Hs; auto. destruct Hs as [-> _]. exact Hl.
Qed.

(** X1.  For a body of 7 or 8 digits exactly one check character is
    valid, up to letter case: the one the checksum expects; it is a digit
    or K, so every body can be completed. *)
Theorem one_check_character (numero : string) (c : ascii) :
  all_digits numero = true ->
  (String.length numero = 7 \/ String.length numero = 8)%nat ->
  (validate_rut (numero ++ "-" ++ String c EmptyString) = true
   <-> upper_ascii c = expected_check numero)
  /\ validate_rut (numero ++ "-" ++ String (expected_check numero) EmptyString) = true
  /\ (is_digit (expected_check numero) = true \/ expected_check numero = "K"%char).
Proof.
  intros Hd Hl. split; [now apply validate_body_check|]. split.
  - apply validate_body_check; auto.
    destruct (kept_digit (expected_check numero)) as [_ U]; [|exact U].
    destruct (expected_check_range numero) as [H|H]; rewrite H;
      [reflexivity | apply orb_true_r].
  - apply expected_check_range.
Qed.

Lemma one_check_character_witness :
  (validate_rut ("25334838" ++ "-" ++ String "0" EmptyString) = true
   <-> upper_ascii "0" = expected_check "25334838")
  /\ validate_rut ("25334838" ++ "-"
                   ++ String (expected_check "25334838") EmptyString) = true
  /\ (is_digit (expected_check "25334838") = true
      \/ expected_check "25334838" = "K"%char).
Proof.
  apply (one_check_character "25334838" "0"); [reflexivity | right; reflexivity].
Defined.

(** X2.  In a valid identifier, replacing one digit of the body by another
    digit gives an invalid one. *)
Theorem single_digit_error_detected (a b : string) (d d' c : ascii) :
  all_digits a = true -> all_digits b = true ->
  is_digit d = true -> is_digit d' = true -> d' <> d ->
  validate_rut ((a ++ String d b) ++ "-" ++ String c EmptyString) = true ->
  validate_rut ((a ++ String d' b) ++ "-" ++ String c EmptyString) = false.
Proof.
  intros Ha Hb Hd Hd' Hn V.
  assert (all_digits (a ++ String d b) = true) as Hnum.
  { rewrite all_digits_app. cbn [all_digits]. now rewrite Ha, Hd, Hb. }
  assert (all_digits (a ++ String d' b) = true) as Hnum'.
  { rewrite all_digits_app. cbn [all_digits]. now rewrite Ha, Hd', Hb. }
  pose proof (valid_body_length _ _ Hnum V) as Hl.
  assert (String.length (a ++ String d' b) = 7 \/ String.length (a ++ String d' b) = 8)%nat
    as Hl'.
  { rewrite length_append in *. exact Hl. }
  apply (validate_body_check _ c Hnum Hl) in V.
  destruct (validate_rut ((a ++ String d' b) ++ "-" ++ String c EmptyString)) eqn:V';
    [|reflexivity].
  apply (validate_body_check _ c Hnum' Hl') in V'.
  exfalso. revert V'. rewrite V. apply expected_check_differs.
  rewrite !weighted_sum_at.
  pose proof (int_of_digit_range _ Hd). pose proof (int_of_digit_range _ Hd').
  pose proof (weight_range (String.length b)).
  assert (int_of_digit d' <> int_of_digit d) as Hne
    by (intros E; apply Hn; now apply int_of_digit_inj).
  set (R := weighted_sum_from 0 _). set (A := weighted_sum_from (S _) _).
  intros E. symmetry in E. revert E.
  replace (R + int_of_digit d' * weight (String.length b) + A)
    with ((R + int_of_digit d * weight (String.length b) + A)
          + weight (String.length b) * (int_of_digit d' - int_of_digit d)) by lia.
  apply eleven_divides_not; lia.
Qed.

Lemma single_digit_error_detected_witness :
  validate_rut (("189" ++ String "8" "7386") ++ "-" ++ String "2" EmptyString) = false.
Proof.
  apply (single_digit_error_detected "189" "7386" "7" "8" "2");
    try reflexivity. discriminate.
Defined.

Lemma weight_neighbours (i : nat) :
  weight (S i) - weight i = 1 \/ weight (S i) - weight i = -5.
Proof.
  rewrite <- weight_succ. pose proof (weight_range i).
  destruct (weight i + 1 >? 7) eqn:C.
  - apply Z.gtb_lt in C. lia.
  - lia.
Qed.

(** X3.  In a valid identifier, exchanging two neighbouring digits of the
    body that differ gives an invalid one. *)
Theorem transposition_detected (a b : string) (x y c : ascii) :
  all_digits a = true -> all_digits b = true ->
  is_digit x = true -> is_digit y = true -> x <> y ->
  validate_rut ((a ++ String x (String y b)) ++ "-" ++ String c EmptyString) = true ->
  validate_rut ((a ++ String y (String x b)) ++ "-" ++ String c EmptyString) = false.
Proof.
  intros Ha Hb Hx Hy Hn V.
  assert (all_digits (a ++ String x (String y b)) = true) as Hnum.
  { rewrite all_digits_app. cbn [all_digits]. now rewrite Ha, Hx, Hy, Hb. }
  assert (all_digits (a ++ String y (String x b)) = true) as Hnum'.
  { rewrite all_digits_app. cbn [all_digits]. now rewrite Ha, Hx, Hy, Hb. }
  pose proof (valid_body_length _ _ Hnum V) as Hl.
  assert (String.length (a ++ String y (String x b)) = 7
          \/ String.length (a ++ String y (String x b)) = 8)%nat as Hl'.
  { rewrite length_append in *. exact Hl. }
  apply (validate_body_check _ c Hnum Hl) in V.
  destruct (validate_rut ((a ++ String y (String x b)) ++ "-" ++ String c EmptyString))
    eqn:V'; [|reflexivity].
  apply (validate_body_check _ c Hnum' Hl') in V'.
  exfalso. revert V'. rewrite V. apply expected_check_differs.
  rewrite !weighted_sum_at.
  change (rev (list_ascii_of_string (String y b)))
    with (rev (list_ascii_of_string (EmptyString ++ String y b))).
  change (rev (list_ascii_of_string (String x b)))
    with (rev (list_ascii_of_string (EmptyString ++ String x b))).
  fold (weighted_sum (EmptyString ++ String y b)).
  fold (weighted_sum (EmptyString ++ String x b)).
  rewrite !weighted_sum_at. cbn [String.length list_ascii_of_string rev weighted_sum_from].
  pose proof (int_of_digit_range _ Hx). pose proof (int_of_digit_range _ Hy).
  assert (int_of_digit x <> int_of_digit y) as Hne
    by (intros E; apply Hn; now apply int_of_digit_inj).
  set (R := weighted_sum_from 0 _). set (A := weighted_sum_from (S (S _)) _).
  set (w0 := weight (String.length b)). set (w1 := weight (S (String.length b))).
  destruct (weight_neighbours (String.length b)) as [Hw|Hw]; fold w0 w1 in Hw.
  - replace (R + int_of_digit y * w0 + 0 + int_of_digit x * w1 + A)
      with ((R + int_of_digit x * w0 + 0 + int_of_digit y * w1 + A)
            + 1 * (int_of_digit x - int_of_digit y)) by lia.
    apply eleven_divides_not; lia.
  - replace (R + int_of_digit y * w0 + 0 + int_of_digit x * w1 + A)
      with ((R + int_of_digit x * w0 + 0 + int_of_digit y * w1 + A)
            + 5 * (int_of_digit y - int_of_digit x)) by lia.
    apply eleven_divides_not; lia.
Qed.

Lemma transposition_detected_witness :
  validate_rut (("1897" ++ String "7" (String "3" "86")) ++ "-"
                ++ String "2" EmptyString) = true
  /\ validate_rut (("1897" ++ String "3" (String "7" "86")) ++ "-"
                   ++ String "2" EmptyString) = false.
Proof.
  split; [reflexivity|].
  apply (transposition_detected "1897" "86" "7" "3" "2");
    try reflexivity. discriminate.
Defined.

(** *** Edge cases of the format *)

Lemma LF_kept : clean_rut LF = LF.
Proof. reflexivity. Qed.

(** X4.  The pattern admits a final line feed, the validator does not: no
    text that ends in a line feed is valid. *)
Theorem trailing_line_feed_rejected :
  (forall raw, validate_rut (raw ++ LF) = false)
  /\ re_match rut_pattern ("18977386-2" ++ LF) = true.
Proof.
  split; [|reflexivity].
  intros raw. destruct (validate_rut (raw ++ LF)) eqn:V; [|reflexivity].
  exfalso. apply validate_rut_spec in V.
  destruct V as (numero & c & (Hs & _ & _ & Hc) & _).
  rewrite clean_rut_app, LF_kept in Hs.
  change (numero ++ "-" ++ String c EmptyString)
    with (numero ++ String "-" EmptyString ++ String c EmptyString) in Hs.
  rewrite <- append_assoc in Hs. unfold LF in Hs.
  apply append_last_inj in Hs. destruct Hs as [_ <-].
  destruct Hc as [Hc|Hc]; discriminate.
Qed.

(** X5.  After the format test the unpacking of [split('-')] and the
    [int] of each character of the body cannot fail: the text splits in
    exactly two parts, and the first is a non-empty text of digits. *)
Theorem format_match_unpacks (s : string) :
  re_match rut_pattern s = true ->
  exists numero dv,
    split_char "-" s = [numero; dv]
    /\ all_digits numero = true
    /\ numero <> EmptyString.
Proof.
  intros F. apply rut_pattern_spec in F.
  destruct F as (numero & c & t & -> & Hd & L & Hc & Ht).
  exists numero, (String c t). split; [|split; [exact Hd|]].
  - rewrite split_char_at
      by (intros x Hx; apply digit_not_dash; revert x Hx; apply all_digits_In, Hd).
    rewrite split_char_clean; [reflexivity|].
    intros x [<-|Hx]; [apply is_digit_not_dash, Hc|].
    destruct (at_dollar_cases _ Ht) as [->| ->]; [destruct Hx|].
    destruct Hx as [<-|[]]. reflexivity.
  - intros ->. destruct L; discriminate.
Qed.

Lemma format_match_unpacks_witness :
  exists numero dv,
    split_char "-" "1000005-K" = [numero; dv]
    /\ all_digits numero = true
    /\ numero <> EmptyString.
Proof. apply (format_match_unpacks "1000005-K"). reflexivity. Defined.

(** *** [_format_rut] on its own results *)

Lemma clean_rut_length (s : string) :
  (String.length (clean_rut s) <= String.length s)%nat.
Proof.
  induction s as [|x s IH]; [cbn; lia|].
  rewrite clean_rut_cons. destruct (kept x); cbn [String.length]; lia.
Qed.

(** The parts of a clean text are clean. *)
Lemma clean_rut_parts (a b : string) :
  clean_rut (a ++ b) = a ++ b -> clean_rut a = a /\ clean_rut b = b.
Proof.
  revert b; induction a as [|x a IH]; intros b H; [auto|].
  cbn [append] in H. rewrite clean_rut_cons in H.
  destruct (kept x) eqn:K.
  - injection H as Hx H. destruct (IH _ H) as [Ha Hb].
    rewrite clean_rut_cons, K, Hx, Ha. auto.
  - exfalso. pose proof (clean_rut_length (a ++ b)) as L.
    rewrite H in L. cbn [String.length] in L. lia.
Qed.

Lemma format_rut_of_clean (raw : string) :
  format_rut (clean_rut raw) = format_rut raw.
Proof. unfold format_rut. now rewrite clean_rut_idem. Qed.

Lemma format_rut_clean (raw : string) :
  clean_rut (format_rut raw) = format_rut raw.
Proof.
  destruct (contains "-" (clean_rut raw)) eqn:D.
  { rewrite format_rut_with_dash by exact D. apply clean_rut_idem. }
  destruct (Nat.lt_ge_cases (String.length (clean_rut raw)) 8) as [L|L].
  { rewrite format_rut_short by exact L. apply clean_rut_idem. }
  destruct (append_nonempty_last (clean_rut raw)) as (front & c & Hs).
  { intros E. rewrite E in L. cbn in L. lia. }
  rewrite (format_rut_insert raw front c Hs D L).
  pose proof (clean_rut_idem raw) as I. rewrite Hs in I.
  destruct (clean_rut_parts _ _ I) as [Hf Hc].
  change (front ++ "-" ++ String c EmptyString)
    with (front ++ String "-" (String c EmptyString)).
  rewrite clean_rut_app, Hf, clean_rut_cons.
  change (kept "-") with true. cbv iota. change (upper_ascii "-") with "-"%char.
  now rewrite Hc.
Qed.

(** X6.  [_format_rut] is idempotent, and its result is always clean: no
    space, no period, no lower-case letter is left in it. *)
Theorem format_rut_idempotent (raw : string) :
  format_rut (format_rut raw) = format_rut raw
  /\ list_ascii_of_string (format_rut raw)
     = map upper_ascii (filter kept (list_ascii_of_string (format_rut raw))).
Proof.
  split.
  - destruct (contains "-" (clean_rut raw)) eqn:D.
    { rewrite (format_rut_with_dash raw D), format_rut_of_clean.
      exact (format_rut_with_dash raw D). }
    destruct (Nat.lt_ge_cases (String.length (clean_rut raw)) 8) as [L|L].
    { rewrite (format_rut_short raw L), format_rut_of_clean.
      exact (format_rut_short raw L). }
    destruct (append_nonempty_last (clean_rut raw)) as (front & c & Hs).
    { intros E. rewrite E in L. cbn in L. lia. }
    pose proof (format_rut_insert raw front c Hs D L) as F.
    pose proof (format_rut_clean raw) as C.
    rewrite (format_rut_with_dash (format_rut raw)); [exact C|].
    rewrite C, F. apply contains_spec.
    exists front, (String c EmptyString). reflexivity.
  - rewrite <- clean_rut_chars. now rewrite format_rut_clean.
Qed.

(** X7.  An identifier typed without its dash is not valid as it stands,
    but [_format_rut] puts the dash in: with a body of 7 or 8 digits
    followed by one character, the formatted text is valid exactly when
    that character is the expected check character. *)
Theorem dashless_identifier (raw numero : string) (c : ascii) :
  clean_rut raw = numero ++ String c EmptyString ->
  all_digits numero = true ->
  (String.length numero = 7 \/ String.length numero = 8)%nat ->
  validate_rut raw = false
  /\ (validate_rut (format_rut raw) = true <-> c = expected_check numero).
Proof.
  intros Hs Hd Hl.
  pose proof (clean_rut_idem raw) as I. rewrite Hs in I.
  destruct (clean_rut_parts _ _ I) as [_ Hc].
  rewrite clean_rut_cons, clean_rut_nil in Hc.
  destruct (kept c) eqn:K; [|discriminate]. injection Hc as Hc.
  split.
  - destruct (validate_rut raw) eqn:V; [|reflexivity]. exfalso.
    apply validate_rut_spec in V.
    destruct V as (numero' & c' & (Hs' & _) & _). rewrite Hs in Hs'.
    change (numero' ++ "-" ++ String c' EmptyString)
      with (numero' ++ String "-" EmptyString ++ String c' EmptyString) in Hs'.
    rewrite <- append_assoc in Hs'. apply append_last_inj in Hs'.
    destruct Hs' as [Hn _]. rewrite Hn, all_digits_app in Hd.
    apply andb_true_iff in Hd. destruct Hd as [_ Hd]. discriminate.
  - destruct (Ascii.eqb c "-") eqn:Dash.
    + apply Ascii.eqb_eq in Dash. subst c.
      rewrite format_rut_with_dash
        by (rewrite Hs; apply contains_spec; exists numero, EmptyString;
            now rewrite append_nil_r).
      split.
      * intros V. unfold validate_rut in V. rewrite clean_rut_idem in V.
        fold (validate_rut raw) in V. exfalso.
        apply validate_rut_spec in V.
        destruct V as (numero' & c' & (Hs' & _ & _ & Hc') & _). rewrite Hs in Hs'.
        change (numero' ++ "-" ++ String c' EmptyString)
          with (numero' ++ String "-" EmptyString ++ String c' EmptyString) in Hs'.
        rewrite <- append_assoc in Hs'. apply append_last_inj in Hs'.
        destruct Hs' as [_ <-]. destruct Hc' as [Hc'|Hc']; discriminate.
      * intros E. exfalso.
        destruct (expected_check_range numero) as [H|H]; rewrite <- E in H;
          discriminate.
    + assert (contains "-" (clean_rut raw) = false) as D.
      { destruct (contains "-" (clean_rut raw)) eqn:D; [|reflexivity]. exfalso.
        apply contains_spec in D. destruct D as (u & v & D). rewrite Hs in D.
        assert (In "-"%char (list_ascii_of_string (numero ++ String c EmptyString)))
          as Hin.
        { rewrite D, !list_ascii_app. apply in_or_app. right.
          apply in_or_app. left. left. reflexivity. }
        rewrite list_ascii_app in Hin. apply in_app_or in Hin.
        destruct Hin as [Hin|[Hin|[]]].
        - apply (proj1 (all_digits_In numero) Hd) in Hin. discriminate.
        - subst c. discriminate. }
      assert (8 <= String.length (clean_rut raw))%nat as L.
      { rewrite Hs, length_append. cbn [String.length]. lia. }
      rewrite (format_rut_insert raw numero c Hs D L).
      rewrite (validate_body_check numero c Hd Hl), Hc. tauto.
Qed.

Lemma dashless_identifier_witness :
  validate_rut " 18.977.3862" = false
  /\ (validate_rut (format_rut " 18.977.3862") = true
      <-> "2"%char = expected_check "18977386").
Proof.
  apply (dashless_identifier " 18.977.3862" "18977386" "2");
    [reflexivity | reflexivity | right; reflexivity].
Defined.

(** ** The error scan, further *)

(** *** What the scan adds *)

Lemma in_list_In (x : string) (l : list string) : in_list x l = true <-> In x l.
Proof.
  unfold in_list. rewrite existsb_exists. split.
  - intros (y & Hy & E). apply String.eqb_eq in E. now subst.
  - intros H. exists x. split; [exact H | apply String.eqb_refl].
Qed.

Lemma add_match_fresh (found_errors more : list string) (m : string) :
  fresh_in found_errors more ->
  exists more',
    add_match (found_errors ++ more) m = (found_errors ++ more')%list
    /\ fresh_in found_errors more'.
Proof.
  intros [Hnd Hm]. unfold add_match.
  set (clean_text := strip (sub_empty tag_pattern m)).
  destruct (is_empty clean_text) eqn:Em; cbn [negb andb].
  { exists more. split; [reflexivity | split; assumption]. }
  destruct (in_list clean_text (found_errors ++ more)) eqn:Ein; cbn [negb].
  { exists more. split; [reflexivity | split; assumption]. }
  exists (more ++ [clean_text])%list. split; [now rewrite app_assoc|].
  assert (~ In clean_text (found_errors ++ more)) as Hnin.
  { intros H. apply in_list_In in H. congruence. }
  split.
  - apply NoDup_app; [exact Hnd | repeat constructor; intros [] | ].
    intros x Hx [<-|[]]. apply Hnin. apply in_or_app. now right.
  - intros x Hx. apply in_app_or in Hx. destruct Hx as [Hx|[<-|[]]]; [now apply Hm|].
    split.
    + intros E. rewrite E in Em. discriminate.
    + intros H. apply Hnin. apply in_or_app. now left.
Qed.

Lemma add_matches_fresh (ms found_errors more : list string) :
  fresh_in found_errors more ->
  exists more',
    fold_left add_match ms (found_errors ++ more)%list = (found_errors ++ more')%list
    /\ fresh_in found_errors more'.
Proof.
  revert more; induction ms as [|m ms IH]; intros more H; cbn [fold_left].
  - exists more. auto.
  - destruct (add_match_fresh found_errors more m H) as (more1 & -> & H1).
    apply IH, H1.
Qed.

Lemma add_patterns_fresh (content : string) (ps : list regex)
    (found_errors more : list string) :
  fresh_in found_errors more ->
  exists more',
    fold_left (add_pattern content) ps (found_errors ++ more)%list
    = (found_errors ++ more')%list
    /\ fresh_in found_errors more'.
Proof.
  revert more; induction ps as [|p ps IH]; intros more H; cbn [fold_left].
  - exists more. auto.
  - destruct (add_matches_fresh (findall p content) found_errors more H)
      as (more1 & E1 & H1).
    unfold add_pattern at 2. rewrite E1. apply IH, H1.
Qed.

(** X8.  The pattern scan only appends to the list it is given, and what
    it appends is new: texts that are not empty, not in the list already
    and pairwise different.  From an empty list it yields a list without
    repetition. *)
Theorem scan_patterns_adds_new (content : string) (found_errors : list string) :
  (exists more,
     scan_patterns content found_errors = (found_errors ++ more)%list
     /\ NoDup more
     /\ forall m, In m more -> m <> EmptyString /\ ~ In m found_errors)
  /\ NoDup (scan_patterns content []).
Proof.
  split.
  - destruct (add_patterns_fresh content error_patterns found_errors [])
      as (more & E & Hnd & Hm).
    { split; [constructor | intros m []]. }
    rewrite app_nil_r in E. exists more. auto.
  - destruct (add_patterns_fresh content error_patterns [] [])
      as (more & E & Hnd & _).
    { split; [constructor | intros m []]. }
    unfold scan_patterns. cbn [app] in E. now rewrite E.
Qed.

(** *** Phrasings and the kind of error *)

Lemma substring_zero (s : string) : substring 0 0 s = EmptyString.
Proof. destruct s; reflexivity. Qed.

(** What matches a literal text is that text up to letter case. *)
Lemma match_itext_text (L s : string) (n : nat) :
  match_here (itext L) s = Some n -> lower (substring 0 n s) = lower L.
Proof.
  revert s n; induction L as [|c L IH]; intros s n H.
  - cbn in H. injection H as <-. now rewrite substring_zero.
  - cbn [itext chars match_here] in H. destruct s as [|x s]; [discriminate|].
    destruct (ilit c x) eqn:Hx; [|discriminate].
    destruct (match_here (chars ilit L) s) as [k|] eqn:Ek; [|discriminate].
    injection H as <-. cbn [substring lower map_str].
    unfold ilit in Hx. apply Ascii.eqb_eq in Hx. rewrite Hx.
    f_equal. apply (IH s k Ek).
Qed.

Lemma no_lt_lower (s : string) : no_lt (lower s) = no_lt s.
Proof.
  induction s as [|c s IH]; [reflexivity|].
  cbn [lower map_str no_lt]. fold (lower s). now rewrite is_lt_lower, IH.
Qed.

Lemma starts_plain_lower (s : string) : starts_plain (lower s) = starts_plain s.
Proof. destruct s as [|c s]; [reflexivity|]. cbn. now rewrite is_space_lower. Qed.

Lemma ends_plain_lower (s : string) : ends_plain (lower s) = ends_plain s.
Proof.
  induction s as [|c s IH]; [reflexivity|].
  destruct s as [|d s]; [cbn; now rewrite is_space_lower|].
  exact IH.
Qed.

Lemma plain_lower (s : string) : plain (lower s) = plain s.
Proof. unfold plain. now rewrite no_lt_lower, starts_plain_lower, ends_plain_lower. Qed.

Lemma sub_empty_no_lt (s : string) :
  no_lt s = true -> sub_empty tag_pattern s = s.
Proof.
  unfold sub_empty. induction s as [|c s IH]; [reflexivity|].
  cbn [no_lt]. rewrite andb_true_iff, negb_true_iff. intros [Hc Hs].
  cbn [sub_empty_from tag_pattern match_here]. unfold lit at 1. rewrite Hc.
  now rewrite IH.
Qed.

Lemma lstrip_starts_plain (s : string) : starts_plain s = true -> lstrip s = s.
Proof.
  destruct s as [|c s]; [reflexivity|]. cbn. rewrite negb_true_iff.
  now intros ->.
Qed.

Lemma rstrip_ends_plain (s : string) : ends_plain s = true -> rstrip s = s.
Proof.
  induction s as [|c s IH]; [reflexivity|].
  destruct s as [|d s].
  - cbn. rewrite negb_true_iff. now intros ->.
  - intros H. change (ends_plain (String c (String d s))) with (ends_plain (String d s)) in H.
    specialize (IH H). cbn [rstrip] in *. rewrite IH. reflexivity.
Qed.

(** Cleaning leaves a plain text as it is. *)
Lemma clean_plain (m : string) :
  plain m = true -> strip (sub_empty tag_pattern m) = m.
Proof.
  unfold plain. rewrite !andb_true_iff. intros [[Hl Hs] He].
  rewrite (sub_empty_no_lt _ Hl). unfold strip.
  now rewrite (lstrip_starts_plain _ Hs), (rstrip_ends_plain _ He).
Qed.

Lemma add_match_In (found_errors : list string) (m : string) :
  plain m = true -> m <> EmptyString -> In m (add_match found_errors m).
Proof.
  intros Hp Hn. unfold add_match. rewrite (clean_plain _ Hp).
  assert (is_empty m = false) as E by (now apply String.eqb_neq).
  rewrite E. cbn [negb andb].
  destruct (in_list m found_errors) eqn:Hin; cbn [negb].
  - now apply in_list_In.
  - apply in_or_app. right. left. reflexivity.
Qed.

Lemma add_matches_keep (ms found_errors : list string) (m : string) :
  In m found_errors -> In m (fold_left add_match ms found_errors).
Proof.
  intros H. destruct (add_matches_grow ms found_errors) as (more & ->).
  apply in_or_app. now left.
Qed.

Lemma add_patterns_keep (content : string) (ps : list regex)
    (found_errors : list string) (m : string) :
  In m found_errors -> In m (fold_left (add_pattern content) ps found_errors).
Proof.
  intros H. destruct (add_patterns_grow content ps found_errors) as (more & ->).
  apply in_or_app. now left.
Qed.

Lemma lower_nonempty (m L : string) :
  lower m = lower L -> L <> EmptyString -> m <> EmptyString.
Proof. intros H Hn ->. destruct L; [congruence | discriminate]. Qed.

(** A literal pattern of a plain text lists a text equal to it up to
    letter case. *)
Lemma add_pattern_lists (L content : string) (found_errors : list string) :
  plain L = true -> L <> EmptyString ->
  contains (lower L) (lower content) = true ->
  exists m, In m (add_pattern content found_errors (itext L)) /\ lower m = lower L.
Proof.
  intros Hp Hn Hc.
  apply contains_spec in Hc. destruct Hc as (a' & b' & Hc).
  destruct (map_str_app_inv _ _ _ _ Hc) as (a & b & -> & _ & Hb).
  destruct (map_str_app_inv _ _ _ _ Hb) as (b1 & b2 & -> & Hb1 & _).
  assert (findall (itext L ++ [])%list (a ++ b1 ++ b2) <> []) as Hf.
  { apply findall_nonempty.
    - apply match_itext; [exact Hb1 | discriminate].
    - pose proof (lower_nonempty b1 L Hb1 Hn). destruct b1; [congruence | discriminate]. }
  rewrite app_nil_r in Hf. unfold add_pattern.
  destruct (findall (itext L) (a ++ b1 ++ b2)) as [|m rest] eqn:Ef; [congruence|].
  destruct (findall_head _ _ _ _ _ Ef) as (s' & n & Em & ->).
  pose proof (match_itext_text _ _ _ Em) as Hm.
  exists (substring 0 n s'). split; [|exact Hm].
  cbn [fold_left]. apply add_matches_keep. apply add_match_In.
  - rewrite <- plain_lower, Hm, plain_lower. exact Hp.
  - exact (lower_nonempty _ _ Hm Hn).
Qed.

Lemma scan_lists (L content : string) (ps : list regex) (found_errors : list string) :
  plain L = true -> L <> EmptyString ->
  In (itext L) ps ->
  contains (lower L) (lower content) = true ->
  exists m,
    In m (fold_left (add_pattern content) ps found_errors) /\ lower m = lower L.
Proof.
  intros Hp Hn Hin Hc. revert found_errors.
  induction ps as [|p ps IH]; intros found_errors; [destruct Hin|].
  cbn [fold_left]. destruct Hin as [->|Hin]; [|now apply IH].
  destruct (add_pattern_lists L content found_errors Hp Hn Hc) as (m & Hm & Hl).
  exists m. split; [|exact Hl]. now apply add_patterns_keep.
Qed.

Lemma lower_app (a b : string) : lower (a ++ b) = lower a ++ lower b.
Proof. induction a as [|c a IH]; cbn; [reflexivity | now f_equal]. Qed.

(** A text of the list is a part of the joined text. *)
Lemma join_contains (sep m : string) (l : list string) :
  In m l -> exists a b, join sep l = a ++ m ++ b.
Proof.
  unfold join. induction l as [|x l IH]; intros H; [destruct H|].
  destruct H as [->|H].
  - destruct l as [|y l]; cbn [String.concat].
    + exists EmptyString, EmptyString. now rewrite append_nil_r.
    + exists EmptyString, (sep ++ String.concat sep (y :: l)). reflexivity.
  - destruct (IH H) as (a & b & E). destruct l as [|y l]; [destruct H|].
    change (String.concat sep (x :: y :: l))
      with (x ++ sep ++ String.concat sep (y :: l)).
    rewrite E. exists (x ++ sep ++ a), b. now rewrite !append_assoc.
Qed.

Lemma joined_lower_contains (phrase m : string) (l : list string) :
  In m l -> contains phrase (lower m) = true ->
  contains phrase (lower (join " " l)) = true.
Proof.
  intros Hin Hc. destruct (join_contains " " m l Hin) as (a & b & ->).
  rewrite !lower_app. apply contains_spec in Hc. destruct Hc as (u & v & ->).
  apply contains_spec. exists (lower a ++ u), (v ++ lower b).
  now rewrite !append_assoc.
Qed.

Lemma error_result_timeout (found_errors : list string) (u ts m : string) :
  In m found_errors ->
  contains "tiempo máximo de espera" (lower m) = true ->
  status (error_result found_errors u ts) = "timeout_error"
  /\ available (error_result found_errors u ts) = Some false.
Proof.
  intros Hin Hc. unfold error_result.
  rewrite (joined_lower_contains _ m found_errors Hin Hc). cbn [orb]. auto.
Qed.

Lemma error_result_no_hours (found_errors : list string) (u ts m : string) :
  In m found_errors ->
  contains "no existen horas" (lower m) = true
  \/ contains "sin disponibilidad" (lower m) = true ->
  (status (error_result found_errors u ts) = "timeout_error"
   \/ status (error_result found_errors u ts) = "no_availability_error")
  /\ available (error_result found_errors u ts) = Some false.
Proof.
  intros Hin Hc. unfold error_result.
  destruct (_ || _); [auto|].
  destruct Hc as [Hc|Hc];
    rewrite (joined_lower_contains _ m found_errors Hin Hc);
    rewrite ?orb_true_r; cbn [orb]; auto.
Qed.

Section Phrasings.

Context {W E : Type} {B : Browser W E}.

(** The scan, run: what it returns when its list is not empty. *)
Lemma check_error_messages_run (w w1 : W) (content : string) :
  page_content w = (Ret content, w1) ->
  exists found_errors w2,
    check_error_messages w
    = (Ret (match scan_patterns content found_errors with
            | [] => None
            | _ :: _ =>
                Some (error_result (scan_patterns content found_errors)
                        (page_url w2) (now_isoformat w2))
            end), w2).
Proof.
  intros Hc. unfold check_error_messages.
  destruct (collect_never_raises w1) as (found_errors & w2 & Ef).
  exists found_errors, w2. apply try_ret_eq.
  rewrite (bind_ret_eq _ _ _ _ _ Hc), (bind_ret_eq _ _ _ _ _ Ef). cbv zeta.
  destruct (scan_patterns content found_errors); reflexivity.
Qed.

Lemma check_error_messages_lists (L : string) (w w1 : W) (content : string) :
  plain L = true -> L <> EmptyString -> In (itext L) error_patterns ->
  page_content w = (Ret content, w1) ->
  contains (lower L) (lower content) = true ->
  exists found_errors m w2,
    In m found_errors /\ lower m = lower L
    /\ check_error_messages w
       = (Ret (Some (error_result found_errors (page_url w2) (now_isoformat w2))), w2).
Proof.
  intros Hp Hn Hin Hc Hl.
  destruct (check_error_messages_run w w1 content Hc) as (found0 & w2 & Er).
  destruct (scan_lists L content error_patterns found0 Hp Hn Hin Hl) as (m & Hm & Hlm).
  fold (scan_patterns content found0) in Hm.
  exists (scan_patterns content found0), m, w2. split; [exact Hm|]. split; [exact Hlm|].
  rewrite Er. destruct (scan_patterns content found0); [destruct Hm | reflexivity].
Qed.

Lemma timeout_phrasing_gives_timeout_error_core (w w1 : W) (content : string) :
  page_content w = (Ret content, w1) ->
  contains "tiempo máximo de espera" (lower content) = true ->
  exists o w',
    check_error_messages w = (Ret (Some o), w')
    /\ status o = "timeout_error"
    /\ available o = Some false.
Proof.
  intros Hc Hl.
  destruct (check_error_messages_lists "tiempo máximo de espera" w w1 content)
    as (found_errors & m & w2 & Hm & Hlm & Er); auto.
  { discriminate. }
  { do 4 right; left; reflexivity. }
  eexists _, w2. split; [exact Er|].
  apply error_result_timeout with (m := m); [exact Hm|].
  rewrite Hlm. reflexivity.
Qed.

End Phrasings.

(** X9.  Content that has the timeout phrasing 'tiempo máximo de espera',
    with its letters a to z in either case and its á as written here,
    makes the error scan return a 'timeout_error' dictionary, whatever
    else the page shows. *)
Theorem timeout_phrasing_gives_timeout_error {W E : Type} {B : Browser W E}
    (w w1 : W) (content : string) :
  page_content w = (Ret content, w1) ->
  contains "tiempo máximo de espera" (lower content) = true ->
  exists o w',
    check_error_messages w = (Ret (Some o), w')
    /\ status o = "timeout_error"
    /\ available o = Some false.
Proof. exact (timeout_phrasing_gives_timeout_error_core w w1 content). Qed.

Lemma timeout_phrasing_gives_timeout_error_witness :
  exists o w',
    check_error_messages (B := still timeout_page) tt = (Ret (Some o), w')
    /\ status o = "timeout_error"
    /\ available o = Some false.
Proof.
  apply (timeout_phrasing_gives_timeout_error (B := still timeout_page) tt tt
           (html timeout_page)); vm_compute; reflexivity.
Defined.

(** X10.  Content that has the no-hours phrasing 'no existen horas
    disponibles' or 'sin disponibilidad', in any letter case, makes the
    error scan return an unavailable dictionary: 'no_availability_error',
    or 'timeout_error' when a timeout phrasing was found as well; never
    'unknown_error'. *)
Theorem no_hours_phrasing_gives_unavailable {W E : Type} {B : Browser W E}
    (w w1 : W) (content : string) :
  page_content w = (Ret content, w1) ->
  contains "no existen horas disponibles" (lower content) = true
  \/ contains "sin disponibilidad" (lower content) = true ->
  exists o w',
    check_error_messages w = (Ret (Some o), w')
    /\ (status o = "timeout_error" \/ status o = "no_availability_error")
    /\ available o = Some false.
Proof.
  intros Hc [Hl|Hl].
  - destruct (check_error_messages_lists "no existen horas disponibles" w w1 content)
      as (found_errors & m & w2 & Hm & Hlm & Er); auto.
    { discriminate. }
    { do 5 right; left; reflexivity. }
    eexists _, w2. split; [exact Er|].
    apply error_result_no_hours with (m := m); [exact Hm|].
    left. rewrite Hlm. reflexivity.
  - destruct (check_error_messages_lists "sin disponibilidad" w w1 content)
      as (found_errors & m & w2 & Hm & Hlm & Er); auto.
    { discriminate. }
    { do 6 right; left; reflexivity. }
    eexists _, w2. split; [exact Er|].
    apply error_result_no_hours with (m := m); [exact Hm|].
    right. rewrite Hlm. reflexivity.
Qed.

Lemma no_hours_phrasing_gives_unavailable_witness :
  exists o w',
    check_error_messages (B := still no_hours_page) tt = (Ret (Some o), w')
    /\ (status o = "timeout_error" \/ status o = "no_availability_error")
    /\ available o = Some false.
Proof.
  apply (no_hours_phrasing_gives_unavailable (B := still no_hours_page) tt tt
           (html no_hours_page)); [vm_compute; reflexivity|].
  left. vm_compute. reflexivity.
Defined.

(** A page that keeps the timeout phrasing keeps the scan answering
    'timeout_error'. *)
Lemma banner_keeps_scan {W E : Type} {B : Browser W E} :
  (forall w, exists content w1,
     page_content w = (Ret content, w1)
     /\ contains "tiempo máximo de espera" (lower content) = true) ->
  returns check_error_messages
    (fun r => exists o, r = Some o /\ status o = "timeout_error").
Proof.
  intros banner_stays w r w' Er.
  destruct (banner_stays w) as (content & w1 & Hc & Hl).
  destruct (timeout_phrasing_gives_timeout_error_core w w1 content Hc Hl)
    as (o & w2 & Eo & Hs & _).
  rewrite Eo in Er. injection Er as <- _. exists o. split; [reflexivity | exact Hs].
Qed.

Section TimeoutBanner.

Context {W E : Type} {B : Browser W E}.

Hypothesis check_error_messages_timeout :
  returns check_error_messages
    (fun r => exists o, r = Some o /\ status o = "timeout_error").

Lemma judge_after_click_timeout :
  returns judge_after_click (fun t => t = Continue).
Proof.
  apply returns_bind_with
    with (Q := fun r => exists o, r = Some o /\ status o = "timeout_error");
    [apply check_error_messages_timeout|].
  intros r (o & -> & Hs). rewrite Hs. cbn [in_list transient_statuses].
  change (in_list "timeout_error" transient_statuses) with true. cbv iota.
  apply returns_bind; intros _. apply returns_ret. reflexivity.
Qed.

Lemma click_attempt_timeout (retry_count : Z) :
  returns (click_attempt retry_count) (fun t => t = Continue).
Proof.
  apply returns_bind; intros _.
  apply returns_bind; intros [button|].
  - apply returns_bind; intros _. apply returns_bind; intros _.
    apply returns_bind; intros _. apply returns_bind; intros [|].
    + apply returns_bind; intros _. apply returns_ret. reflexivity.
    + apply returns_bind; intros stamp. apply returns_bind; intros _.
      apply judge_after_click_timeout.
  - apply returns_bind; intros _. apply returns_ret. reflexivity.
Qed.

Lemma click_turn_timeout (retry_count : Z) :
  returns (click_turn retry_count) (fun t => t = Continue).
Proof.
  apply returns_try; [apply click_attempt_timeout|].
  intros e. apply returns_bind; intros _. apply returns_ret. reflexivity.
Qed.

Lemma click_loop_timeout (fuel : nat) (retry_count : Z) :
  returns (click_especialidad_button_with_modal_retry fuel retry_count)
    (fun r => r = None).
Proof.
  revert retry_count; induction fuel as [|fuel IH]; intros retry_count;
    cbn [click_especialidad_button_with_modal_retry].
  - apply returns_ret. reflexivity.
  - apply returns_bind_with with (Q := fun t => t = Continue);
      [apply click_turn_timeout|].
    intros t ->. apply IH.
Qed.

(** When the wait of the turn's own handler goes through, the turn ends
    in [continue]. *)
Lemma click_turn_timeout_runs (retry_count : Z) :
  never_raises (wait_for_timeout 3000) ->
  forall w, exists w', click_turn retry_count w = (Ret Continue, w').
Proof.
  intros Hw w.
  assert (never_raises (click_turn retry_count)) as Hn.
  { apply never_raises_try. intros _.
    apply never_raises_bind; [exact Hw | intros _; apply never_raises_ret]. }
  destruct (Hn w) as (t & w' & Et).
  rewrite (click_turn_timeout retry_count w t w' Et) in Et.
  exists w'. exact Et.
Qed.

Lemma click_loop_timeout_runs (fuel : nat) (retry_count : Z) :
  never_raises (wait_for_timeout 3000) ->
  forall w, exists w',
    click_especialidad_button_with_modal_retry fuel retry_count w = (Ret None, w').
Proof.
  intros Hw.
  revert retry_count; induction fuel as [|fuel IH]; intros retry_count w;
    cbn [click_especialidad_button_with_modal_retry].
  - exists w. reflexivity.
  - destruct (click_turn_timeout_runs (retry_count + 1) Hw w) as (w1 & E1).
    rewrite (bind_ret_eq _ _ _ _ _ E1). apply IH.
Qed.

End TimeoutBanner.

(** X11.  While the error scan keeps answering 'timeout_error', as it
    does while the page keeps the timeout phrasing 'tiempo máximo de
    espera' (its letters a to z in either case), no turn of the click loop
    returns a dictionary: a turn that returns ends in [continue], and the
    only fault that leaves a turn, and with it the loop, is one of the
    three-second wait of the turn's own handler.  When that wait goes
    through, every turn is followed by another, however many have been
    made.  (The statement is about the faults of calls; the user's
    interrupt is not one.) *)
Theorem timeout_banner_keeps_loop_turning {W E : Type} {B : Browser W E} :
  ((forall w, exists content w1,
      page_content w = (Ret content, w1)
      /\ contains "tiempo máximo de espera" (lower content) = true) ->
   returns check_error_messages
     (fun r => exists o, r = Some o /\ status o = "timeout_error"))
  /\ (returns check_error_messages
        (fun r => exists o, r = Some o /\ status o = "timeout_error") ->
      (forall retry_count w t w',
         click_turn retry_count w = (Ret t, w') -> t = Continue)
      /\ (forall retry_count w e w',
            click_turn retry_count w = (Raise e, w') ->
            exists e0 w0,
              click_attempt retry_count w = (Raise e0, w0)
              /\ wait_for_timeout 3000 w0 = (Raise e, w'))
      /\ (forall fuel retry_count w o w',
            click_especialidad_button_with_modal_retry fuel retry_count w
            <> (Ret (Some o), w'))
      /\ (never_raises (wait_for_timeout 3000) ->
          forall fuel retry_count w, exists w',
            click_especialidad_button_with_modal_retry fuel retry_count w
            = (Ret None, w'))).
Proof.
  split; [apply banner_keeps_scan|].
  intros H. split; [|split; [|split]].
  - intros retry_count w t w' Et. exact (click_turn_timeout H retry_count w t w' Et).
  - intros retry_count w e w'. unfold click_turn, try_except.
    destruct (click_attempt retry_count w) as [[t|e0] w0]; [discriminate|].
    unfold bind. destruct (wait_for_timeout 3000 w0) as [[[]|e1] w1] eqn:Ew;
      [discriminate|].
    intros Er. injection Er as <- <-. exists e0, w0. auto.
  - intros fuel retry_count w o w' El.
    pose proof (click_loop_timeout H fuel retry_count w (Some o) w' El) as Hn.
    discriminate.
  - intros Hw fuel retry_count w.
    exact (click_loop_timeout_runs H fuel retry_count Hw w).
Qed.

Lemma timeout_banner_keeps_loop_turning_witness :
  fst (click_especialidad_button_with_modal_retry (B := still timeout_page) 3 0 tt)
  = Ret None
  /\ (exists w',
        click_especialidad_button_with_modal_retry (B := still timeout_page) 7 0 tt
        = (Ret None, w'))
  /\ ~ exists fuel retry_count o,
         click_especialidad_button_with_modal_retry (B := still timeout_page)
           fuel retry_count tt
         = (Ret (Some o), tt).
Proof.
  assert (forall w : unit, exists content w1,
            page_content (Browser := still timeout_page) w = (Ret content, w1)
            /\ contains "tiempo máximo de espera" (lower content) = true) as Hb.
  { intros []. exists (html timeout_page), tt. split; vm_compute; reflexivity. }
  pose proof (proj1 (timeout_banner_keeps_loop_turning (B := still timeout_page)) Hb)
    as Hs.
  split; [vm_compute; reflexivity|]. split.
  - apply (proj2 (proj2 (proj2 (proj2 (timeout_banner_keeps_loop_turning
                                         (B := still timeout_page)) Hs)))).
    intros []. exists tt, tt. reflexivity.
  - intros (fuel & retry_count & o & El).
    apply (proj1 (proj2 (proj2 (proj2 (timeout_banner_keeps_loop_turning
                                         (B := still timeout_page)) Hs)))
             fuel retry_count tt o tt El).
Defined.

(** ** The console *)

Section Console.

Context {W E : Type} {B : Browser W E} {T : Session W E}.

(** A validated result of [_format_rut] is digits, a dash and the check
    character of the digits. *)
Lemma validated_format (raw : string) :
  validate_rut (format_rut raw) = true ->
  exists numero,
    format_rut raw = numero ++ "-" ++ String (expected_check numero) EmptyString
    /\ all_digits numero = true
    /\ (String.length numero = 7 \/ String.length numero = 8)%nat.
Proof.
  intros H. apply validate_rut_spec in H. destruct H as (numero & c & F & ->).
  rewrite format_rut_clean in F. destruct F as (Es & Hd & Hl & _).
  exists numero. auto.
Qed.

Lemma ask_rut_stores (fuel : nat) (s s' : Scraper * W) :
  ask_rut fuel s = (Ret (Some tt), s') -> rut_stored (fst s) (fst s').
Proof.
  revert s; induction fuel as [|fuel IH]; intros [s w] Ha; cbn [ask_rut] in Ha.
  - discriminate.
  - unfold bind at 1 in Ha. unfold lift at 1 in Ha. cbn [fst snd] in Ha.
    destruct (input "RUT: " w) as [[line|e] w1]; [|discriminate].
    destruct (negb (truthy (strip line))).
    + apply IH in Ha. exact Ha.
    + destruct (validate_rut (format_rut (strip line))) eqn:V.
      * cbv [bind assign ret] in Ha. injection Ha as <-. cbn [fst snd].
        split; [|reflexivity].
        destruct (validated_format _ V) as (numero & En & Hn).
        exists numero. cbn [user_rut set_user_rut]. rewrite En. auto.
      * apply IH in Ha. exact Ha.
Qed.

Lemma ask_operation_stores (fuel : nat) (s s' : Scraper * W) :
  ask_operation fuel s = (Ret (Some tt), s') ->
  (operation_type (fst s') = Some "crear"
   \/ operation_type (fst s') = Some "modificar")
  /\ fst s' = set_operation_type (operation_type (fst s')) (fst s).
Proof.
  revert s; induction fuel as [|fuel IH]; intros [s w] Ha; cbn [ask_operation] in Ha.
  - discriminate.
  - unfold bind at 1 in Ha. unfold lift at 1 in Ha. cbn [fst snd] in Ha.
    destruct (input option_prompt_2 w) as [[line|e] w1]; [|discriminate].
    destruct (String.eqb (strip line) "1").
    { cbv [bind assign ret] in Ha. injection Ha as <-. cbn [fst snd]. auto. }
    destruct (String.eqb (strip line) "2").
    { cbv [bind assign ret] in Ha. injection Ha as <-. cbn [fst snd]. auto. }
    apply IH in Ha. exact Ha.
Qed.

Lemma handle_manual_intervention_range (fuel : nat) :
  returns (handle_manual_intervention fuel)
    (if_some (fun a => In a ["continue_from_current"; "retry"; "exit"])).
Proof.
  induction fuel as [|fuel IH]; cbn [handle_manual_intervention].
  - apply returns_ret. intros a Ha; discriminate.
  - apply returns_bind; intros line.
    destruct (String.eqb (strip line) "1").
    { apply returns_ret. intros a Ha. injection Ha as <-. cbn; auto. }
    destruct (String.eqb (strip line) "2").
    { apply returns_ret. intros a Ha. injection Ha as <-. cbn; auto. }
    destruct (String.eqb (strip line) "3").
    { apply returns_bind; intros _. exact IH. }
    destruct (String.eqb (strip line) "4").
    { apply returns_ret. intros a Ha. injection Ha as <-. cbn; auto. }
    exact IH.
Qed.

Lemma handle_error_interactively_range (error_info : Outcome) (fuel : nat) :
  returns (handle_error_interactively error_info fuel)
    (if_some (fun a => In a chosen_actions)).
Proof.
  induction fuel as [|fuel IH]; cbn [handle_error_interactively].
  - apply returns_ret. intros a Ha; discriminate.
  - apply returns_bind; intros line.
    destruct (String.eqb (strip line) "1").
    { apply returns_ret. intros a Ha. injection Ha as <-. cbn; auto. }
    destruct (String.eqb (strip line) "2").
    { apply returns_ret. intros a Ha. injection Ha as <-. cbn; auto. }
    destruct (String.eqb (strip line) "3").
    { apply returns_weaken with (1 := handle_manual_intervention_range fuel).
      intros r Hr a Ha. destruct (Hr a Ha) as [<-|[<-|[<-|[]]]]; cbn; auto. }
    destruct (String.eqb (strip line) "4").
    { apply returns_ret. intros a Ha. injection Ha as <-. cbn; auto. }
    exact IH.
Qed.

End Console.



(** ** The session *)

Lemma never_raises_lift {L W A} (m : M W A) :
  never_raises m -> never_raises (lift (L := L) m).
Proof.
  intros H [l w]. destruct (H w) as (a & w' & Em).
  exists a, (l, w'). exact (lift_ret_eq m l w w' (Ret a) Em).
Qed.

Lemma returns_lift {L W A} (m : M W A) (P : A -> Prop) :
  returns m P -> returns (lift (L := L) m) P.
Proof.
  intros H [l w] a [l' w'] Em. unfold lift in Em. cbn [fst snd] in Em.
  destruct (m w) as [r w1] eqn:Er. injection Em as -> _ _.
  exact (H _ _ _ Er).
Qed.

Lemma returns_with_local {L W A} (l0 : L) (m : M (L * W) A) (P : A -> Prop) :
  returns m P -> returns (with_local l0 m) P.
Proof.
  intros H w a w' Em. unfold with_local in Em.
  destruct (m (l0, w)) as [r lw] eqn:Er. injection Em as -> _.
  exact (H _ _ _ Er).
Qed.

Lemma never_raises_assign {W} (f : Scraper -> Scraper) :
  never_raises (assign (W := W) f).
Proof. intros sw. exists tt, (f (fst sw), snd sw). reflexivity. Qed.

Lemma never_raises_set_local {L W} (l : L) : never_raises (set_local (W := W) l).
Proof. intros lw. exists tt, (l, snd lw). reflexivity. Qed.

Lemma never_raises_get_local {L W} : never_raises (get_local (L := L) (W := W)).
Proof. intros lw. exists (fst lw), lw. reflexivity. Qed.

(** A re-raising handler changes nothing. *)
Lemma try_reraise {S A} (m : M S A) (s : S) :
  try_except m (fun e => raise e) s = m s.
Proof. unfold try_except, raise. destruct (m s) as [[a|e] s']; reflexivity. Qed.

Lemma in_list_cons (x y : string) (l : list string) :
  in_list x (y :: l) = String.eqb x y || in_list x l.
Proof. reflexivity. Qed.

Section Checks.

Context {W E : Type} {B : Browser W E} {T : Session W E}.

Lemma clear_browser_data_never_raises : never_raises clear_browser_data.
Proof. apply never_raises_try. intros e. apply never_raises_ret. Qed.

Lemma cleanup_never_raises (force_close : bool) : never_raises (cleanup force_close).
Proof. apply never_raises_try. intros e. apply never_raises_ret. Qed.

Lemma run_single_check_never_raises (fuel : nat) (rut : option string)
    (is_continuous : bool) :
  never_raises (run_single_check fuel rut is_continuous).
Proof.
  unfold run_single_check.
  apply never_raises_bind; [apply never_raises_assign | intros _].
  apply never_raises_bind; [apply never_raises_gets | intros rut_to_use].
  apply with_local_never_raises.
  apply never_raises_bind.
  - apply never_raises_try. intros e.
    apply never_raises_bind; [|intros ts; apply never_raises_ret].
    unfold on_browser. do 2 apply never_raises_lift. apply never_raises_gets.
  - intros [returned|]; [|apply never_raises_ret].
    apply never_raises_bind; [apply never_raises_get_local | intros result].
    apply never_raises_bind; [|intros _; apply never_raises_ret].
    apply never_raises_when. unfold on_browser.
    do 2 apply never_raises_lift. apply cleanup_never_raises.
Qed.

Lemma action_rule_none (is_continuous : bool) (o : Outcome) :
  action_rule is_continuous (Checked o None).
Proof. split; [discriminate | left; reflexivity]. Qed.

Lemma needs_error_handling_false (o : Outcome) :
  needs_error_handling o = true -> available o = Some false.
Proof.
  unfold needs_error_handling. destruct (available o) as [[|]|]; try discriminate.
  reflexivity.
Qed.

Lemma handle_error_automatically_actions (o : Outcome) :
  returns (handle_error_automatically o)
    (fun a => a = "retry_without_restart"
              \/ (a = "continue"
                  /\ in_list (status o)
                       ["no_availability_error"; "no_availability_content"] = true)).
Proof.
  unfold handle_error_automatically.
  apply returns_bind; intros [|]; [apply returns_ret; left; reflexivity|].
  cbv zeta. destruct (in_list (status o) ["timeout_error"; "estatus_error"]) eqn:E1.
  { apply returns_ret; left; reflexivity. }
  destruct (in_list (status o) ["no_availability_error"; "no_availability_content"]) eqn:E2.
  { apply returns_ret; right; auto. }
  apply returns_ret; left; reflexivity.
Qed.

Lemma act_on_rule (fuel : nat) (is_continuous : bool) (o : Outcome) (action : string) :
  needs_error_handling o = true ->
  (is_continuous = true ->
   action <> "retry"
   /\ (action = "continue" -> status o = "no_availability_error")) ->
  returns (act_on fuel o action) (if_some (action_rule is_continuous)).
Proof.
  intros Hn Hc. unfold act_on.
  pose proof (needs_error_handling_false o Hn) as Ha.
  destruct (String.eqb action "exit").
  { apply returns_ret. intros r Hr. injection Hr as <-. apply action_rule_none. }
  destruct (String.eqb action "retry") eqn:Er.
  { apply String.eqb_eq in Er. apply returns_bind; intros _.
    apply returns_ret. intros r Hr. injection Hr as <-.
    split; [discriminate|]. right; right. cbn [get_action get_available].
    repeat split; auto.
    destruct is_continuous; [|reflexivity]. destruct (Hc eq_refl) as [Hx _].
    contradiction. }
  destruct (String.eqb action "continue") eqn:Ec.
  { apply String.eqb_eq in Ec. apply returns_bind; intros _.
    apply returns_ret. intros r Hr. injection Hr as <-.
    split; [discriminate|]. right; left. cbn [get_action get_available get_status].
    repeat split; auto.
    intros Hi. destruct (Hc Hi) as [_ Hs]. rewrite (Hs Ec). reflexivity. }
  destruct (String.eqb action "continue_from_current").
  { apply returns_bind; intros cfg. apply returns_bind; intros [o'|].
    - apply returns_bind; intros _. apply returns_ret.
      intros r Hr. injection Hr as <-. apply action_rule_none.
    - apply returns_ret. intros r Hr; discriminate. }
  apply returns_ret. intros r Hr. injection Hr as <-. apply action_rule_none.
Qed.

Lemma run_single_check_try_rule (fuel : nat) (rut_to_use : string)
    (is_continuous : bool) :
  returns (run_single_check_try fuel rut_to_use is_continuous)
    (if_some (action_rule is_continuous)).
Proof.
  unfold run_single_check_try.
  apply returns_bind; intros browser. apply returns_bind; intros page.
  apply returns_bind; intros _. apply returns_bind; intros count.
  apply returns_bind; intros _. apply returns_bind; intros _.
  apply returns_bind; intros _. apply returns_bind; intros cfg.
  apply returns_bind; intros [o|].
  2:{ apply returns_ret. intros r Hr; discriminate. }
  apply returns_bind; intros _.
  destruct (needs_error_handling o) eqn:Hn.
  2:{ apply returns_ret. intros r Hr. injection Hr as <-. apply action_rule_none. }
  destruct is_continuous.
  - apply returns_bind_with
      with (Q := fun a => a = "retry_without_restart"
                          \/ (a = "continue"
                              /\ in_list (status o)
                                   ["no_availability_error";
                                    "no_availability_content"] = true)).
    { unfold on_browser. do 2 apply returns_lift.
      apply handle_error_automatically_actions. }
    intros action Haction. apply act_on_rule; [exact Hn|]. intros _.
    destruct Haction as [->|[-> Hs]].
    + split; [discriminate | intros Hx; discriminate].
    + split; [discriminate|]. intros _.
      unfold needs_error_handling in Hn.
      destruct (available o) as [[|]|]; try discriminate.
      rewrite !in_list_cons in Hn, Hs. cbn [in_list existsb] in Hn, Hs.
      rewrite !orb_false_r in Hn, Hs.
      destruct (String.eqb (status o) "no_availability_error") eqn:E1.
      { apply String.eqb_eq in E1. exact E1. }
      cbn [orb] in Hs. apply String.eqb_eq in Hs. rewrite Hs in Hn. discriminate.
  - apply returns_bind; intros [action|].
    + apply act_on_rule; [exact Hn | intros Hx; discriminate].
    + apply returns_ret. intros r Hr; discriminate.
Qed.

Lemma run_single_check_rule (fuel : nat) (rut : option string) (is_continuous : bool) :
  returns (run_single_check fuel rut is_continuous)
    (if_some (action_rule is_continuous)).
Proof.
  unfold run_single_check.
  apply returns_bind; intros _. apply returns_bind; intros rut_to_use.
  apply returns_with_local.
  apply returns_bind_with with (Q := if_some (action_rule is_continuous)).
  - apply returns_try; [apply run_single_check_try_rule|].
    intros e. apply returns_bind; intros ts. apply returns_ret.
    intros r Hr. injection Hr as <-. split; [discriminate | left; reflexivity].
  - intros [returned|] Hq.
    + apply returns_bind; intros result. apply returns_bind; intros _.
      apply returns_ret. exact Hq.
    + apply returns_ret. exact Hq.
Qed.

End Checks.

(** X13.  [run_single_check] lets no fault out, in either mode: whatever
    the browser or the console raises, it returns (or its click loop is
    still turning); and neither [cleanup] nor [_clear_browser_data] ever
    raises. *)
Theorem run_single_check_contains_faults {W E : Type} {B : Browser W E}
    {T : Session W E} :
  (forall fuel rut is_continuous,
     never_raises (run_single_check fuel rut is_continuous))
  /\ (forall force_close, never_raises (cleanup force_close))
  /\ never_raises clear_browser_data.
Proof.
  split; [|split].
  - intros fuel rut is_continuous. apply run_single_check_never_raises.
  - intros force_close. apply cleanup_never_raises.
  - apply clear_browser_data_never_raises.
Qed.

(** X14.  The dictionary [run_single_check] returns is never empty, and
    its 'action' is absent, 'continue' or 'retry': never 'exit' and never
    'retry_without_restart'.  With an action the dictionary is an
    unavailable one; 'retry' comes from the interactive mode only, and in
    continuous mode 'continue' goes with 'no_availability_error' only. *)
Theorem run_single_check_actions {W E : Type} {B : Browser W E} {T : Session W E}
    (fuel : nat) (rut : option string) (is_continuous : bool)
    (s s' : Scraper * W) (r : Result) :
  run_single_check fuel rut is_continuous s = (Ret (Some r), s') ->
  r <> Empty
  /\ (get_action r = None
      \/ (get_action r = Some "continue"
          /\ get_available r = Some false
          /\ (is_continuous = true -> get_status r = Some "no_availability_error"))
      \/ (get_action r = Some "retry"
          /\ is_continuous = false
          /\ get_available r = Some false)).
Proof.
  intros H.
  exact (run_single_check_rule fuel rut is_continuous s (Some r) s' H r eq_refl).
Qed.

Lemma run_single_check_actions_witness :
  get_action (checked no_hours_desk [] true) = Some "continue"
  /\ get_action (checked timeout_desk [] true) = None
  /\ checked no_hours_desk [] true <> Empty
  /\ (get_action (checked no_hours_desk [] true) = None
      \/ (get_action (checked no_hours_desk [] true) = Some "continue"
          /\ get_available (checked no_hours_desk [] true) = Some false
          /\ (true = true ->
              get_status (checked no_hours_desk [] true)
              = Some "no_availability_error"))
      \/ (get_action (checked no_hours_desk [] true) = Some "retry"
          /\ true = false
          /\ get_available (checked no_hours_desk [] true) = Some false)).
Proof.
  split; [vm_compute; reflexivity|]. split; [vm_compute; reflexivity|].
  apply (run_single_check_actions (B := seated no_hours_desk)
           (T := typing no_hours_desk) 2 None true (default_scraper, [])
           (snd (run_single_check (B := seated no_hours_desk)
                   (T := typing no_hours_desk) 2 None true (default_scraper, [])))
           (checked no_hours_desk [] true)).
  vm_compute. reflexivity.
Defined.

(** ** Continuous monitoring *)

Section Monitoring.

Context {W E : Type} {B : Browser W E} {T : Session W E}.

Lemma for_constant {X} (l : list X) (body : X -> M W unit) (x : Z) :
  (forall y, In y l -> body y = asyncio_sleep x) ->
  for_ l body = for_ (repeat x (length l)) asyncio_sleep.
Proof.
  induction l as [|y l IH]; intros H; cbn [for_ repeat length]; [reflexivity|].
  rewrite (H y) by (left; reflexivity).
  rewrite IH by (intros z Hz; apply H; right; exact Hz). reflexivity.
Qed.

(** The countdown sleeps a minute for each minute of the interval, and
    not at all when the interval is not positive. *)
Lemma countdown_sleeps (interval : Z) :
  countdown (interval * 60) = for_ (repeat 60 (Z.to_nat interval)) asyncio_sleep.
Proof.
  unfold countdown.
  set (l := range (interval * 60) 0 (-60)).
  assert (length l = Z.to_nat interval
          /\ forall y, In y l -> 60 <= y) as [Hl Hy].
  { unfold l, range. change (0 <? -60) with false. change (-60 <? 0) with true.
    cbn [andb]. rewrite length_map, length_seq.
    destruct (0 <? interval * 60) eqn:Hp.
    - apply Z.ltb_lt in Hp.
      assert ((interval * 60 - 1 - 0) / (- (-60)) = interval - 1) as ->.
      { change (- (-60)) with 60. symmetry.
        apply (Z.div_unique _ 60 (interval - 1) 59); lia. }
      split; [f_equal; lia|].
      intros y Hin. apply in_map_iff in Hin. destruct Hin as (i & <- & Hi).
      apply in_seq in Hi. lia.
    - apply Z.ltb_ge in Hp. split; [cbn; lia | intros y []]. }
  rewrite <- Hl. apply for_constant. intros y Hin. cbv zeta.
  assert ((0 <? y / 60) = true) as ->; [|reflexivity].
  apply Z.ltb_lt. pose proof (Hy y Hin).
  assert (1 <= y / 60) by (apply Z.div_le_lower_bound; lia). lia.
Qed.

Lemma monitoring_round_core (fuel : nat) (rut_to_use : string)
    (s s1 : Scraper * W) (r : Result) :
  run_single_check fuel (Some rut_to_use) true s = (Ret (Some r), s1) ->
  monitoring_loop (S fuel) rut_to_use s
  = if opt_is (get_action r) "continue"
    then monitoring_loop fuel rut_to_use s1
    else (lift (for_ (repeat 60 (Z.to_nat (retry_interval (fst s1)))) asyncio_sleep) ;;
          monitoring_loop fuel rut_to_use) s1.
Proof.
  intros Hr. cbn [monitoring_loop]. rewrite (bind_ret_eq _ _ _ _ _ Hr).
  destruct (run_single_check_rule fuel (Some rut_to_use) true s (Some r) s1 Hr r eq_refl)
    as [_ [Ha|[[Ha _]|[_ [Hx _]]]]]; [| |discriminate]; rewrite Ha.
  - cbn [opt_is opt_in negb when]. unfold bind, self, gets.
    rewrite countdown_sleeps. reflexivity.
  - cbn. reflexivity.
Qed.

End Monitoring.

(** X15.  A round of continuous monitoring never takes the branches for
    'exit', 'retry' or 'retry_without_restart'.  After a check that
    answers with the action 'continue' the next check starts at once; after
    every other check the monitor sleeps a minute for each minute of
    [retry_interval], not at all when that is not positive, and then starts
    the next check. *)
Theorem monitoring_round {W E : Type} {B : Browser W E} {T : Session W E}
    (fuel : nat) (rut_to_use : string) (s s1 : Scraper * W) (r : Result) :
  run_single_check fuel (Some rut_to_use) true s = (Ret (Some r), s1) ->
  monitoring_loop (S fuel) rut_to_use s
  = if opt_is (get_action r) "continue"
    then monitoring_loop fuel rut_to_use s1
    else (lift (for_ (repeat 60 (Z.to_nat (retry_interval (fst s1)))) asyncio_sleep) ;;
          monitoring_loop fuel rut_to_use) s1.
Proof. apply monitoring_round_core. Qed.

Lemma monitoring_round_witness :
  opt_is (get_action (checked no_hours_desk [] true)) "continue" = true
  /\ monitoring_loop (B := seated no_hours_desk) (T := typing no_hours_desk)
       3 "25334838-0" (default_scraper, [])
     = if opt_is (get_action (checked no_hours_desk [] true)) "continue"
       then monitoring_loop (B := seated no_hours_desk) (T := typing no_hours_desk)
              2 "25334838-0"
              (snd (run_single_check (B := seated no_hours_desk)
                      (T := typing no_hours_desk) 2 (Some "25334838-0") true
                      (default_scraper, [])))
       else (lift (for_ (repeat 60
                           (Z.to_nat
                              (retry_interval
                                 (fst (snd (run_single_check
                                              (B := seated no_hours_desk)
                                              (T := typing no_hours_desk)
                                              2 (Some "25334838-0") true
                                              (default_scraper, [])))))))
                     (asyncio_sleep (Session := typing no_hours_desk))) ;;
             monitoring_loop (B := seated no_hours_desk) (T := typing no_hours_desk)
               2 "25334838-0")
              (snd (run_single_check (B := seated no_hours_desk)
                      (T := typing no_hours_desk) 2 (Some "25334838-0") true
                      (default_scraper, []))).
Proof.
  split; [vm_compute; reflexivity|].
  apply (monitoring_round (B := seated no_hours_desk) (T := typing no_hours_desk)
           2 "25334838-0" (default_scraper, [])
           (snd (run_single_check (B := seated no_hours_desk)
                   (T := typing no_hours_desk) 2 (Some "25334838-0") true
                   (default_scraper, [])))
           (checked no_hours_desk [] true)).
  vm_compute. reflexivity.
Defined.

(** ** The form *)

Section Raising.

Context {S : Type}.

Lemma keeps_true {A} (m : M S A) : keeps (fun _ => True) m.
Proof. intros s r s' _ _. exact I. Qed.

Lemma keeps_ret {A} (I : S -> Prop) (a : A) : keeps I (ret a).
Proof. intros s r s' Hs E. injection E as _ <-. exact Hs. Qed.

Lemma keeps_raise {A} (I : S -> Prop) (e : string) : keeps I (raise (A := A) e).
Proof. intros s r s' Hs E. injection E as _ <-. exact Hs. Qed.

Lemma keeps_gets {A} (I : S -> Prop) (f : S -> A) : keeps I (gets f).
Proof. intros s r s' Hs E. injection E as _ <-. exact Hs. Qed.

Lemma keeps_bind {A B} (I : S -> Prop) (m : M S A) (k : A -> M S B) :
  keeps I m -> (forall a, keeps I (k a)) -> keeps I (bind m k).
Proof.
  intros Hm Hk s r s' Hs E. unfold bind in E.
  destruct (m s) as [[a|e] s1] eqn:Em.
  - exact (Hk a s1 r s' (Hm _ _ _ Hs Em) E).
  - injection E as _ <-. exact (Hm _ _ _ Hs Em).
Qed.

Lemma keeps_try {A} (I : S -> Prop) (m : M S A) (h : string -> M S A) :
  keeps I m -> (forall e, keeps I (h e)) -> keeps I (try_except m h).
Proof.
  intros Hm Hh s r s' Hs E. unfold try_except in E.
  destruct (m s) as [[a|e] s1] eqn:Em.
  - injection E as _ <-. exact (Hm _ _ _ Hs Em).
  - exact (Hh e s1 r s' (Hm _ _ _ Hs Em) E).
Qed.

Lemma keeps_when (I : S -> Prop) (c : bool) (m : M S unit) :
  keeps I m -> keeps I (when c m).
Proof. intros H. destruct c; [exact H | apply keeps_ret]. Qed.

Lemma raises_in_raise {A} (I : S -> Prop) (e : string) :
  raises_in I (raise (A := A) e).
Proof. intros s _. exists e, s. reflexivity. Qed.

Lemma raises_in_bind {A B} (I : S -> Prop) (m : M S A) (k : A -> M S B) :
  keeps I m -> (forall a, raises_in I (k a)) -> raises_in I (bind m k).
Proof.
  intros Hm Hk s Hs. unfold bind. destruct (m s) as [[a|e] s1] eqn:Em.
  - exact (Hk a s1 (Hm _ _ _ Hs Em)).
  - exists e, s1. reflexivity.
Qed.

Lemma raises_in_bind_with {A B} (I : S -> Prop) (m : M S A) (k : A -> M S B)
    (Q : A -> Prop) :
  keeps I m -> returns m Q -> (forall a, Q a -> raises_in I (k a)) ->
  raises_in I (bind m k).
Proof.
  intros Hm Hq Hk s Hs. unfold bind. destruct (m s) as [[a|e] s1] eqn:Em.
  - exact (Hk a (Hq _ _ _ Em) s1 (Hm _ _ _ Hs Em)).
  - exists e, s1. reflexivity.
Qed.

Lemma raises_in_first {A B} (I : S -> Prop) (m : M S A) (k : A -> M S B) :
  raises_in I m -> raises_in I (bind m k).
Proof.
  intros Hm s Hs. destruct (Hm s Hs) as (e & s1 & Em).
  exists e, s1. exact (bind_raise_eq _ _ _ _ _ Em).
Qed.

Lemma raises_in_reraise {A} (I : S -> Prop) (m : M S A) :
  raises_in I m -> raises_in I (try_except m (fun e => raise e)).
Proof. intros Hm s Hs. rewrite try_reraise. exact (Hm s Hs). Qed.

End Raising.

Lemma raises_in_lift {L W A} (Inv : L * W -> Prop) (m : M W A) :
  raises_in (fun _ => True) m -> raises_in Inv (lift m).
Proof.
  intros Hm [l w] _. destruct (Hm w I) as (e & w' & Em).
  exists e, (l, w'). exact (lift_ret_eq m l w w' (Raise e) Em).
Qed.

(** A call that does not look at the locals leaves them as they are. *)
Lemma keeps_lift_fst {L W A} (P : L -> Prop) (m : M W A) :
  keeps (fun lw : L * W => P (fst lw)) (lift m).
Proof.
  intros [l w] r [l' w'] Hs E. unfold lift in E. cbn [fst snd] in E.
  destruct (m w) as [r1 w1]. injection E as _ <- _. exact Hs.
Qed.

Lemma keeps_lift_snd {L W A} (J : W -> Prop) (m : M W A) :
  keeps J m -> keeps (fun lw : L * W => J (snd lw)) (lift m).
Proof.
  intros Hm [l w] r [l' w'] Hs E. unfold lift in E. cbn [fst snd] in E.
  destruct (m w) as [r1 w1] eqn:Em. injection E as _ _ <-.
  exact (Hm _ _ _ Hs Em).
Qed.

Lemma first_truthy_again (a b : option string) (c : string) :
  first_truthy (Some (first_truthy a b c)) None c = first_truthy a b c.
Proof.
  unfold first_truthy.
  destruct a as [[|x a]|]; destruct b as [[|y b]|]; try reflexivity;
    destruct c; reflexivity.
Qed.

Section Form.

Context {W E : Type} {B : Browser W E} {T : Session W E}.

Variable rut_to_use : string.

(** The field never reads back [rut_to_use]. *)
Hypothesis field_differs :
  forall element w value w',
    element_input_value element w = (Ret value, w') -> value <> rut_to_use.

Lemma input_value_differs (element : E) :
  returns (element_input_value element) (fun value => value <> rut_to_use).
Proof. intros w value w' Ev. exact (field_differs element w value w' Ev). Qed.

Ltac next_call :=
  apply raises_in_bind; [apply keeps_true | intros ?].

Lemma fill_rut_form_raises (rut : option string) (s : Scraper) (w : W) :
  first_truthy rut None (rut_ejemplo s) = rut_to_use ->
  exists e w', fill_rut_form rut (s, w) = (Raise e, (s, w')).
Proof.
  intros Hs. unfold fill_rut_form.
  rewrite (bind_ret_eq (self rut_ejemplo) _ (s, w) (s, w) (rut_ejemplo s) eq_refl).
  cbv zeta. rewrite Hs.
  match goal with
  | |- exists e w', lift ?m _ = _ =>
      assert (raises_in (fun _ : W => True) m) as R
  end.
  { apply raises_in_reraise. next_call.
    apply raises_in_bind; [apply keeps_true|].
    intros [rut_input|]; [|apply raises_in_raise].
    do 11 next_call.
    apply raises_in_bind_with with (Q := fun value => value <> rut_to_use);
      [apply keeps_true | apply input_value_differs|].
    intros filled_value Hf. apply raises_in_first.
    apply String.eqb_neq in Hf. rewrite Hf. cbn [negb when].
    do 6 next_call.
    apply raises_in_bind_with with (Q := fun value => value <> rut_to_use);
      [apply keeps_true | apply input_value_differs|].
    intros final_value Hv. apply String.eqb_neq in Hv. rewrite Hv.
    cbn [negb when]. apply raises_in_raise. }
  destruct (R w I) as (e & w' & Er). exists e, w'.
  exact (lift_ret_eq _ s w w' (Raise e) Er).
Qed.

Lemma initialize_browser_keeps (P : Scraper -> Prop) :
  keeps (fun sw : Scraper * W => P (fst sw)) initialize_browser.
Proof.
  apply keeps_try; [|intros e; apply keeps_raise].
  apply keeps_bind; [apply keeps_lift_fst | intros _].
  apply keeps_bind; [apply keeps_gets | intros kind]. cbv zeta.
  apply keeps_bind; [apply keeps_gets | intros headless].
  repeat (apply keeps_bind; [apply keeps_lift_fst | intros _]).
  apply keeps_lift_fst.
Qed.

Lemma navigate_to_site_keeps (P : Scraper -> Prop) :
  keeps (fun sw : Scraper * W => P (fst sw)) navigate_to_site.
Proof.
  apply keeps_try; [|intros e; apply keeps_raise].
  apply keeps_bind; [apply keeps_lift_fst | intros _].
  apply keeps_bind; [apply keeps_gets | intros target].
  apply keeps_bind; [apply keeps_lift_fst | intros response].
  assert (keeps (fun sw : Scraper * W => P (fst sw)) (ret tt)) as Hr
    by apply keeps_ret.
  destruct response as [status|]; [|exact Hr].
  destruct (Z.eq_dec status 200) as [->|Hn].
  - repeat (apply keeps_bind; [apply keeps_lift_fst | intros ?]).
    apply keeps_lift_fst.
  - destruct status as [|p|p]; try exact Hr.
    do 8 (destruct p as [p|p|]; try exact Hr). congruence.
Qed.

Lemma on_browser_keeps {A} (P : Scraper -> Prop) (m : M W A) :
  keeps (fun st : Result * (Scraper * W) => P (fst (snd st))) (on_browser m).
Proof.
  exact (keeps_lift_snd (fun sw : Scraper * W => P (fst sw)) (lift m)
           (keeps_lift_fst P m)).
Qed.

Lemma on_self_keeps {A} (P : Scraper -> Prop) (m : M (Scraper * W) A) :
  keeps (fun sw : Scraper * W => P (fst sw)) m ->
  keeps (fun st : Result * (Scraper * W) => P (fst (snd st))) (lift m).
Proof. exact (keeps_lift_snd (fun sw : Scraper * W => P (fst sw)) m). Qed.

Lemma run_single_check_try_raises (fuel : nat) (is_continuous : bool) :
  raises_in
    (fun st : Result * (Scraper * W) =>
       first_truthy (Some rut_to_use) None (rut_ejemplo (fst (snd st))) = rut_to_use)
    (run_single_check_try fuel rut_to_use is_continuous).
Proof.
  set (P := fun s : Scraper =>
              first_truthy (Some rut_to_use) None (rut_ejemplo s) = rut_to_use).
  change (raises_in (fun st : Result * (Scraper * W) => P (fst (snd st)))
            (run_single_check_try fuel rut_to_use is_continuous)).
  unfold run_single_check_try.
  apply raises_in_bind; [apply on_browser_keeps | intros browser].
  apply raises_in_bind; [apply on_browser_keeps | intros page].
  apply raises_in_bind;
    [apply keeps_when, on_self_keeps, initialize_browser_keeps | intros _].
  apply raises_in_bind; [apply on_self_keeps, keeps_gets | intros count].
  apply raises_in_bind; [apply keeps_when, on_browser_keeps | intros _].
  apply raises_in_bind; [apply on_self_keeps, navigate_to_site_keeps | intros _].
  apply raises_in_first. intros [result [s w]] Hs. cbn [fst snd] in Hs.
  destruct (fill_rut_form_raises (Some rut_to_use) s w Hs) as (e & w' & Ef).
  exists e, (result, (s, w')).
  exact (lift_ret_eq _ result (s, w) (s, w') (Raise e) Ef).
Qed.

(** With such a field every check ends in the dictionary of the handler. *)
Lemma run_single_check_fails (fuel : nat) (rut : option string)
    (is_continuous : bool) (s : Scraper) (w : W) :
  first_truthy rut (user_rut s) (rut_ejemplo s) = rut_to_use ->
  exists e ts s',
    run_single_check fuel rut is_continuous (s, w)
    = (Ret (Some (Failed ("Error durante verificación: " ++ e) ts)), s').
Proof.
  intros Hs. unfold run_single_check.
  set (s1 := set_attempt_count (attempt_count s + 1) s).
  rewrite (bind_ret_eq (assign (fun s => set_attempt_count (attempt_count s + 1) s))
             _ (s, w) (s1, w) tt eq_refl).
  rewrite (bind_ret_eq
             (self (fun s => first_truthy rut (user_rut s) (rut_ejemplo s)))
             _ (s1, w) (s1, w) rut_to_use)
    by (unfold self, gets; cbn [fst s1 set_attempt_count user_rut rut_ejemplo];
        rewrite Hs; reflexivity).
  destruct (run_single_check_try_raises fuel is_continuous (Empty, (s1, w)))
    as (e & [result [s2 w1]] & Et).
  { cbn [fst snd s1 rut_ejemplo set_attempt_count].
    rewrite <- Hs. apply first_truthy_again. }
  unfold with_local.
  erewrite bind_ret_eq.
  2:{ rewrite (try_raise_eq _ _ _ _ _ Et). reflexivity. }
  cbv beta iota.
  erewrite bind_ret_eq by reflexivity.
  assert (never_raises
            (when (should_close result is_continuous)
               (on_browser (cleanup true)))) as Hw.
  { apply never_raises_when. unfold on_browser.
    do 2 apply never_raises_lift. apply cleanup_never_raises. }
  destruct (Hw (result, (s2, w1))) as ([] & st2 & Ew).
  cbn [fst]. rewrite (bind_ret_eq _ _ _ _ _ Ew).
  exists e, (now_isoformat w1), (snd st2). reflexivity.
Qed.

End Form.

(** X16.  When the text field never reads back the identifier to enter,
    [fill_rut_form] raises, whatever else the page does, and
    [run_single_check] answers the 'error' dictionary of its handler in
    either mode: the availability is not looked at. *)
Theorem unfilled_field_fails_check {W E : Type} {B : Browser W E} {T : Session W E}
    (rut_to_use : string) :
  (forall element w value w',
     element_input_value element w = (Ret value, w') -> value <> rut_to_use) ->
  (forall rut s w,
     first_truthy rut None (rut_ejemplo s) = rut_to_use ->
     exists e w', fill_rut_form rut (s, w) = (Raise e, (s, w')))
  /\ (forall fuel rut is_continuous s w,
        first_truthy rut (user_rut s) (rut_ejemplo s) = rut_to_use ->
        exists e ts s',
          run_single_check fuel rut is_continuous (s, w)
          = (Ret (Some (Failed ("Error durante verificación: " ++ e) ts)), s')).
Proof.
  intros H. split.
  - intros rut s w. apply fill_rut_form_raises. exact H.
  - intros fuel rut is_continuous s w. apply run_single_check_fails. exact H.
Qed.

Lemma unfilled_field_fails_check_witness :
  checked stuck_desk [] false
  = Failed ("Error durante verificación: No se pudo ingresar el RUT correctamente. "
              ++ "Esperado: '25334838-0', Actual: ''")
      "2025-01-01T00:00:00"
  /\ (exists e w',
        fill_rut_form (B := seated stuck_desk) (T := typing stuck_desk) None
          (default_scraper, [])
        = (Raise e, (default_scraper, w')))
  /\ exists e ts s',
       run_single_check (B := seated stuck_desk) (T := typing stuck_desk) 2 None true
         (default_scraper, [])
       = (Ret (Some (Failed ("Error durante verificación: " ++ e) ts)), s').
Proof.
  split; [vm_compute; reflexivity|].
  destruct (unfilled_field_fails_check (B := seated stuck_desk)
              (T := typing stuck_desk) "25334838-0") as [Hf Hc].
  { intros element w value w' Ev. injection Ev as <- _. discriminate. }
  split.
  - apply Hf. reflexivity.
  - apply Hc. reflexivity.
Defined.

Section Navigation.

Context {W E : Type} {B : Browser W E} {T : Session W E}.

Lemma navigate_to_site_other_answer (s : Scraper) (w w2 : W) (response : option Z) :
  page_goto (target_url (config s)) "networkidle" (snd (clear_browser_data w))
  = (Ret response, w2) ->
  response <> Some 200 ->
  navigate_to_site (s, w) = (Ret tt, (s, w2)).
Proof.
  intros Hg Hr. unfold navigate_to_site. rewrite try_reraise.
  destruct (clear_browser_data_never_raises w) as ([] & w1 & Ec).
  rewrite Ec in Hg. cbn [snd] in Hg.
  rewrite (bind_ret_eq _ _ _ _ _ (lift_ret_eq clear_browser_data s w w1 (Ret tt) Ec)).
  rewrite (bind_ret_eq (self (fun s => target_url (config s))) _ (s, w1) (s, w1)
             (target_url (config s)) eq_refl).
  rewrite (bind_ret_eq _ _ _ _ _
             (lift_ret_eq (page_goto (target_url (config s)) "networkidle")
                s w1 w2 (Ret response) Hg)).
  destruct response as [status|]; [|reflexivity].
  destruct status as [|p|p]; try reflexivity.
  do 8 (destruct p as [p|p|]; try reflexivity). congruence.
Qed.

End Navigation.

(** X17.  [navigate_to_site] takes every answer of the server: when the
    response is missing or its status is not 200 it returns as after a
    good load, only without the wait, the guard and the screenshot; it
    raises nothing, and the check goes on to the form. *)
Theorem navigate_to_site_takes_any_answer {W E : Type} {B : Browser W E}
    {T : Session W E} (s : Scraper) (w w2 : W) (response : option Z) :
  page_goto (target_url (config s)) "networkidle" (snd (clear_browser_data w))
  = (Ret response, w2) ->
  response <> Some 200 ->
  navigate_to_site (s, w) = (Ret tt, (s, w2)).
Proof. apply navigate_to_site_other_answer. Qed.

Lemma navigate_to_site_takes_any_answer_witness :
  navigate_to_site (B := seated refused_desk) (T := typing refused_desk)
    (default_scraper, [])
  = (Ret tt, (default_scraper, [])).
Proof.
  apply (navigate_to_site_takes_any_answer (B := seated refused_desk)
           (T := typing refused_desk) default_scraper [] [] (Some 500)).
  - vm_compute. reflexivity.
  - discriminate.
Defined.

(** X18.  The interactive handler answers 'continue', 'retry',
    'continue_from_current' or 'exit' and nothing else, whatever is typed;
    'continue_from_current' comes from the manual pause. *)
Theorem interactive_choices {W E : Type} {T : Session W E}
    (error_info : Outcome) (fuel : nat) (w w' : W) (action : string) :
  handle_error_interactively error_info fuel w = (Ret (Some action), w') ->
  In action ["continue"; "retry"; "continue_from_current"; "exit"].
Proof.
  intros H.
  exact (handle_error_interactively_range error_info fuel w (Some action) w' H
           action eq_refl).
Qed.

Lemma interactive_choices_witness :
  handle_error_interactively (T := typing timeout_desk) (scanned timeout_page) 5
    ["x"; " 3"; "3"; "1"; "1 "]
  = (Ret (Some "continue_from_current"), [])
  /\ In "continue_from_current" ["continue"; "retry"; "continue_from_current"; "exit"].
Proof.
  split; [vm_compute; reflexivity|].
  apply (interactive_choices (T := typing timeout_desk) (scanned timeout_page) 5
           ["x"; " 3"; "3"; "1"; "1 "] []).
  vm_compute. reflexivity.
Defined.

(** ** The statuses *)

Lemma in_list_sub (l l' : list string) :
  forallb (fun x => in_list x l') l = true ->
  forall x, in_list x l = true -> in_list x l' = true.
Proof.
  intros H x Hx. apply in_list_In in Hx. rewrite forallb_forall in H.
  exact (H x Hx).
Qed.

Section Statuses.

Context {W E : Type} {B : Browser W E}.
Variable cfg : Config.

Lemma error_result_statuses (found_errors : list string) (u ts : string) :
  status_in error_statuses (error_result found_errors u ts).
Proof.
  unfold status_in, error_result.
  destruct (_ || _); [reflexivity|]. destruct (_ || _); reflexivity.
Qed.

Lemma check_error_messages_statuses :
  returns check_error_messages (if_some (status_in error_statuses)).
Proof.
  apply returns_try; [|intros e; apply returns_ret; intros o H; discriminate].
  apply returns_bind; intros content.
  apply returns_bind; intros found_errors. cbv zeta.
  destruct (scan_patterns content found_errors) as [|x l] eqn:Sc.
  - apply returns_ret. intros o H; discriminate.
  - apply returns_bind; intros u. apply returns_bind; intros ts.
    apply returns_ret. intros o H. injection H as <-.
    apply error_result_statuses.
Qed.

Lemma probe_next_step_statuses (current_url : string) :
  returns (probe_next_step current_url) (if_some (status_in continued_statuses)).
Proof.
  apply returns_for_first. intros selector.
  apply returns_bind; intros [element|].
  - apply returns_bind; intros ts. apply returns_ret.
    intros o H. injection H as <-. reflexivity.
  - apply returns_ret. intros o H; discriminate.
Qed.

Lemma classify_content_statuses (current_url content : string) :
  returns (classify_content current_url content) (status_in continued_statuses).
Proof.
  unfold classify_content. cbv zeta.
  destruct (first_keyword no_availability_keywords _) as [keyword|].
  { apply returns_bind; intros ts. apply returns_ret. reflexivity. }
  destruct (first_keyword availability_keywords _) as [keyword|].
  { apply returns_bind; intros ts. apply returns_ret. reflexivity. }
  apply returns_bind_with with (Q := if_some (status_in continued_statuses));
    [apply probe_next_step_statuses|].
  intros [o|] Ho.
  - apply returns_ret. apply Ho. reflexivity.
  - apply returns_bind; intros ts. apply returns_ret. reflexivity.
Qed.

Lemma continue_availability_check_statuses :
  returns continue_availability_check (status_in continued_statuses).
Proof.
  apply returns_try.
  - apply returns_bind; intros u. apply returns_bind; intros content.
    apply classify_content_statuses.
  - intros e. apply returns_bind; intros u. apply returns_bind; intros ts.
    apply returns_ret. reflexivity.
Qed.

Lemma continued_in_loop (o : Outcome) :
  status_in continued_statuses o -> status_in loop_statuses o.
Proof. apply in_list_sub. reflexivity. Qed.

Lemma loop_in_known (o : Outcome) :
  status_in loop_statuses o -> status_in known_statuses o.
Proof. apply in_list_sub. reflexivity. Qed.

Lemma scanned_in_known (o : Outcome) :
  status_in error_statuses o -> status_in known_statuses o.
Proof. apply in_list_sub. reflexivity. Qed.

(** A dictionary of the scan that is not transient. *)
Lemma settled_in_loop (o : Outcome) :
  status_in error_statuses o ->
  in_list (status o) transient_statuses = false ->
  status_in loop_statuses o.
Proof.
  unfold status_in. intros Hs Ht. apply in_list_In in Hs.
  destruct Hs as [Hs|[Hs|[Hs|[]]]]; rewrite <- Hs in *;
    [discriminate | reflexivity | reflexivity].
Qed.

Lemma judge_after_click_statuses :
  returns judge_after_click (if_return (status_in loop_statuses)).
Proof.
  apply returns_bind_with with (Q := if_some (status_in error_statuses));
    [apply check_error_messages_statuses|].
  intros [error_info|] He.
  - destruct (in_list _ _) eqn:Et.
    + apply returns_bind; intros _. apply returns_ret. exact I.
    + apply returns_ret. apply settled_in_loop; [apply He; reflexivity | exact Et].
  - apply returns_bind_with with (Q := status_in continued_statuses);
      [apply continue_availability_check_statuses|].
    intros o Ho. apply returns_ret. apply continued_in_loop. exact Ho.
Qed.

Lemma click_attempt_statuses (retry_count : Z) :
  returns (click_attempt retry_count) (if_return (status_in loop_statuses)).
Proof.
  apply returns_bind; intros _.
  apply returns_bind; intros [button|].
  - apply returns_bind; intros _. apply returns_bind; intros _.
    apply returns_bind; intros _. apply returns_bind; intros [|].
    + apply returns_bind; intros _. apply returns_ret. exact I.
    + apply returns_bind; intros stamp. apply returns_bind; intros _.
      apply judge_after_click_statuses.
  - apply returns_bind; intros _. apply returns_ret. exact I.
Qed.

Lemma click_turn_statuses (retry_count : Z) :
  returns (click_turn retry_count) (if_return (status_in loop_statuses)).
Proof.
  apply returns_try; [apply click_attempt_statuses|].
  intros e. apply returns_bind; intros _. apply returns_ret. exact I.
Qed.

Lemma click_loop_statuses (fuel : nat) (retry_count : Z) :
  returns (click_especialidad_button_with_modal_retry fuel retry_count)
    (if_some (status_in loop_statuses)).
Proof.
  revert retry_count; induction fuel as [|fuel IH]; intros retry_count;
    cbn [click_especialidad_button_with_modal_retry].
  - apply returns_ret. intros o H; discriminate.
  - apply returns_bind_with with (Q := if_return (status_in loop_statuses));
      [apply click_turn_statuses|].
    intros [|o] Ho; [apply IH|].
    apply returns_ret. intros o' H. injection H as <-. exact Ho.
Qed.

Lemma estatus_errors_statuses (current_url : string) :
  returns (estatus_errors current_url) (if_some (status_in known_statuses)).
Proof.
  apply returns_bind; intros [[o|info]|];
    try (apply returns_ret; intros o' H; discriminate).
  destruct (errors info).
  - apply returns_ret; intros o' H; discriminate.
  - apply returns_bind; intros ts. apply returns_ret.
    intros o' H. injection H as <-. reflexivity.
Qed.

Lemma classify_page_statuses (fuel : nat) (current_url : string) :
  returns (classify_page cfg fuel current_url) (if_some (status_in known_statuses)).
Proof.
  unfold classify_page. destruct (_ || _).
  - apply returns_bind_with with (Q := if_some (status_in error_statuses));
      [apply check_error_messages_statuses|].
    intros [error_info|] He.
    { apply returns_ret. intros o H. injection H as <-.
      apply scanned_in_known. apply He. reflexivity. }
    apply returns_bind_with with (Q := if_some (status_in known_statuses)).
    { destruct (contains "estatus.aspx" current_url);
        [apply estatus_errors_statuses|].
      apply returns_ret; intros o H; discriminate. }
    intros [o|] Ho; [apply returns_ret; exact Ho|].
    apply returns_weaken with (1 := click_loop_statuses fuel 0).
    intros r Hr o Ho'. apply loop_in_known. exact (Hr o Ho').
  - destruct (contains (error_url_pattern cfg) current_url).
    + apply returns_bind; intros ts. apply returns_ret.
      intros o H. injection H as <-. reflexivity.
    + apply returns_bind; intros content.
      apply returns_bind_with with (Q := status_in continued_statuses);
        [apply classify_content_statuses|].
      intros o Ho. apply returns_ret. intros o' H. injection H as <-.
      apply loop_in_known, continued_in_loop. exact Ho.
Qed.

Lemma check_availability_statuses (fuel : nat) :
  returns (check_availability cfg fuel) (if_some (status_in known_statuses)).
Proof.
  apply returns_try.
  - apply returns_bind; intros current_url. apply classify_page_statuses.
  - intros e. apply returns_bind; intros u. apply returns_bind; intros ts.
    apply returns_ret. intros o H. injection H as <-. reflexivity.
Qed.

(** [_close_modal]: the body of its [try] returns [True] and nothing
    else. *)
Lemma close_modal_true (modal_element : E) (selector : string) (w : W) :
  (forall key, never_raises (keyboard_press key)) ->
  (forall ms, never_raises (wait_for_timeout ms)) ->
  (forall element, never_raises (eval_is_still_visible element)) ->
  (forall sel x y, never_raises (page_click sel x y)) ->
  (forall element, never_raises (eval_force_hide element)) ->
  exists w', close_modal modal_element selector w = (Ret true, w').
Proof.
  intros Hk Hw Hv Hc Hh. unfold close_modal.
  match goal with
  | |- exists w', try_except ?m ?h w = _ =>
      assert (never_raises m) as Hn; [|assert (returns m (fun r => r = true)) as Hr]
  end.
  - apply never_raises_bind.
    + apply never_raises_for_first. intros close_selector.
      apply never_raises_try. intros e. apply never_raises_ret.
    + intros [r|]; [apply never_raises_ret|].
      apply never_raises_bind; [apply Hk | intros _].
      apply never_raises_bind; [apply Hw | intros _].
      apply never_raises_bind; [apply Hv | intros is_still_visible].
      destruct (negb is_still_visible); [apply never_raises_ret|].
      apply never_raises_bind; [apply Hc | intros _].
      apply never_raises_bind; [apply Hw | intros _].
      apply never_raises_bind; [apply Hh | intros _].
      apply never_raises_ret.
  - apply returns_bind_with with (Q := if_some (fun r => r = true)).
    + apply returns_for_first. intros close_selector.
      apply returns_try; [|intros e; apply returns_ret; intros r H; discriminate].
      apply returns_bind; intros [button|].
      * apply returns_bind; intros _. apply returns_bind; intros _.
        apply returns_ret. intros r H. injection H as <-. reflexivity.
      * apply returns_ret; intros r H; discriminate.
    + intros [r|] Hq.
      * apply returns_ret. apply Hq. reflexivity.
      * apply returns_bind; intros _. apply returns_bind; intros _.
        apply returns_bind; intros is_still_visible.
        destruct (negb is_still_visible); [apply returns_ret; reflexivity|].
        apply returns_bind; intros _. apply returns_bind; intros _.
        apply returns_bind; intros _. apply returns_ret; reflexivity.
  - destruct (Hn w) as (r & w1 & Em). pose proof (Hr _ _ _ Em) as ->.
    exists w1. exact (try_ret_eq _ _ _ _ _ Em).
Qed.

End Statuses.

(** X19.  When pressing a key, waiting, clicking outside and the two page
    scripts do not fail, [_close_modal] answers [True], whether or not the
    overlay is still visible afterwards: after its last method it does not
    look again. *)
Theorem close_modal_reports_success {W E : Type} {B : Browser W E}
    (modal_element : E) (selector : string) (w : W) :
  (forall key, never_raises (keyboard_press key)) ->
  (forall ms, never_raises (wait_for_timeout ms)) ->
  (forall element, never_raises (eval_is_still_visible element)) ->
  (forall sel x y, never_raises (page_click sel x y)) ->
  (forall element, never_raises (eval_force_hide element)) ->
  exists w', close_modal modal_element selector w = (Ret true, w').
Proof. apply close_modal_true. Qed.

Lemma close_modal_reports_success_witness :
  (exists w',
     close_modal (B := still (page_under_stubborn_dialog site EmptyString))
       7%nat ".modal" tt = (Ret true, w'))
  /\ eval_is_still_visible (Browser := still (page_under_stubborn_dialog site EmptyString))
       7%nat tt = (Ret true, tt).
Proof.
  split; [|reflexivity].
  apply (close_modal_reports_success
           (B := still (page_under_stubborn_dialog site EmptyString)) 7%nat ".modal" tt).
  - intros key []. exists tt, tt. reflexivity.
  - intros ms []. exists tt, tt. reflexivity.
  - intros element []. eexists _, tt. reflexivity.
  - intros sel x y []. exists tt, tt. reflexivity.
  - intros element []. exists tt, tt. reflexivity.
Defined.

(** X20.  The statuses.  [_continue_availability_check] answers with
    'no_availability_content', 'availability_found',
    'possible_availability', 'uncertain' or 'error'; the click loop with
    one of these, with 'no_availability_error' or 'unknown_error', or with
    the 'user_interrupted' of its interrupt handler, never with the
    transient 'timeout_error' or 'estatus_error'; and [check_availability]
    with one of eleven statuses, among which the 'loading_specialties' of
    the estatus page is not. *)
Theorem statuses_returned {W E : Type} {B : Browser W E} (cfg : Config) :
  returns continue_availability_check
    (fun o => In (status o)
                ["no_availability_content"; "availability_found";
                 "possible_availability"; "uncertain"; "error"])
  /\ (forall retry_count u ts,
        status (user_interrupted_result retry_count u ts) = "user_interrupted")
  /\ (forall fuel retry_count,
        returns (click_especialidad_button_with_modal_retry fuel retry_count)
          (if_some (fun o =>
             In (status o)
               ["no_availability_error"; "unknown_error";
                "no_availability_content"; "availability_found";
                "possible_availability"; "uncertain"; "error";
                "user_interrupted"])))
  /\ (forall fuel,
        returns (check_availability cfg fuel)
          (if_some (fun o =>
             In (status o)
               ["timeout_error"; "no_availability_error"; "unknown_error";
                "estatus_error"; "no_availability"; "no_availability_content";
                "availability_found"; "possible_availability"; "uncertain";
                "error"; "user_interrupted"]))).
Proof.
  assert (forall l o, status_in l o -> In (status o) l) as Hin.
  { intros l o H. apply in_list_In. exact H. }
  split; [|split; [|split]].
  - apply returns_weaken with (1 := continue_availability_check_statuses).
    intros o. apply Hin.
  - reflexivity.
  - intros fuel retry_count.
    apply returns_weaken with (1 := click_loop_statuses fuel retry_count).
    intros r Hr o Ho. pose proof (Hin loop_statuses o (Hr o Ho)) as Hl.
    unfold loop_statuses in Hl. cbn [In] in Hl |- *. tauto.
  - intros fuel.
    apply returns_weaken with (1 := check_availability_statuses cfg fuel).
    intros r Hr o Ho. pose proof (Hin known_statuses o (Hr o Ho)) as Hl.
    unfold known_statuses in Hl. cbn [In] in Hl |- *. tauto.
Qed.

(** ** Monitoring without end *)

Section Endless.

Context {W E : Type} {B : Browser W E} {T : Session W E}.

Hypothesis sleep_returns : forall seconds, never_raises (asyncio_sleep seconds).

Lemma countdown_never_raises (wait_seconds : Z) : never_raises (countdown wait_seconds).
Proof.
  apply never_raises_for_. intros remaining. cbv zeta.
  apply never_raises_when. apply sleep_returns.
Qed.

Lemma monitoring_loop_turns (fuel : nat) (rut_to_use : string) (s : Scraper * W) :
  exists s', monitoring_loop fuel rut_to_use s = (Ret None, s').
Proof.
  revert s; induction fuel as [|fuel IH]; intros s; cbn [monitoring_loop].
  - exists s. reflexivity.
  - destruct (run_single_check_never_raises fuel (Some rut_to_use) true s)
      as ([r|] & s1 & Er); rewrite (bind_ret_eq _ _ _ _ _ Er).
    2:{ exists s1. reflexivity. }
    assert (never_raises
              (when (negb (opt_in (get_action r)
                             ["retry"; "continue"; "retry_without_restart"]))
                 (interval <- self retry_interval ;;
                  lift (countdown (interval * 60))))) as Hw.
    { apply never_raises_when.
      apply never_raises_bind; [apply never_raises_gets | intros interval].
      apply never_raises_lift, countdown_never_raises. }
    destruct (Hw s1) as ([] & s2 & Ew).
    destruct (run_single_check_rule fuel (Some rut_to_use) true s (Some r) s1 Er r eq_refl)
      as [_ [Ha|[[Ha _]|[_ [Hx _]]]]]; [| |discriminate]; rewrite Ha in *;
      cbn [opt_is String.eqb Ascii.eqb Bool.eqb];
      rewrite (bind_ret_eq _ _ _ _ _ Ew); apply IH.
Qed.

End Endless.

(** X21.  Continuous monitoring has no end of its own: as long as the
    sleeps of the countdown return, [run_continuous_monitoring] is still
    checking after any number of rounds, whatever the pages show; nothing
    but an interrupt stops it. *)
Theorem monitoring_never_ends {W E : Type} {B : Browser W E} {T : Session W E} :
  (forall seconds, never_raises (asyncio_sleep seconds)) ->
  forall fuel rut s,
    exists s', run_continuous_monitoring fuel rut s = (Ret None, s').
Proof.
  intros Hs fuel rut s. unfold run_continuous_monitoring.
  rewrite (bind_ret_eq
             (self (fun s => first_truthy rut (user_rut s) (rut_ejemplo s)))
             _ s s (first_truthy rut (user_rut (fst s)) (rut_ejemplo (fst s)))
             eq_refl).
  destruct (monitoring_loop_turns Hs fuel
              (first_truthy rut (user_rut (fst s)) (rut_ejemplo (fst s))) s)
    as (s' & El).
  exists s'. exact (try_ret_eq _ _ _ _ _ El).
Qed.

Lemma monitoring_never_ends_witness :
  fst (run_continuous_monitoring (B := seated no_hours_desk)
         (T := typing no_hours_desk) 4 None (default_scraper, []))
  = Ret None
  /\ ~ exists fuel s',
         run_continuous_monitoring (B := seated no_hours_desk)
           (T := typing no_hours_desk) fuel None (default_scraper, [])
         = (Ret (Some tt), s').
Proof.
  split; [vm_compute; reflexivity|].
  intros (fuel & s' & Em).
  destruct (monitoring_never_ends (B := seated no_hours_desk)
              (T := typing no_hours_desk)
              ltac:(intros seconds lines; exists tt, lines; reflexivity)
              fuel None (default_scraper, [])) as (s'' & En).
  rewrite En in Em. discriminate.
Defined.
